(** * Extraction pipeline and read-time reconciliation of the knowledge graph

    A shallow embedding of

    - the extraction route
      [src/app/api/projects/[id]/documents/[docId]/extract/route.ts]
      (chunker, per-chunk provider call and response parsing, chunk merge,
      entity/edge materializer, territory deriver, agent hierarchy builder),
    - the territory reconciliation [dedup] of the territories route, and
    - the agent merge [deduplicateAgents] of the agent tree view,

    together with the properties the specification states about them.

    Conventions of the embedding.

    - A JavaScript string is a [string]; its characters stand for the code
      units of the text, and [String.length] is [.length].  The built-in
      [toUpperCase] is not defined here: it is a member of the class
      [Builtins], and what is proved holds for every function in its
      place.
    - Values produced by [JSON.parse] are values of [json]; the absent
      property ([undefined]) is [None].
    - Rows created through the persistence client get fresh identifiers,
      numbered from the store's counter; identifiers are truthy.
    - An exception is an explicit outcome: the functions of the pass return
      the store they reached together with the way they ended. *)

From Stdlib Require Import ZArith Lia Ascii String DecimalString.
From stdpp Require Import base tactics option list strings gmap sorting.

Local Open Scope string_scope.
Local Open Scope list_scope.

(** ** JavaScript strings *)

Module JsString.

Definition nl : ascii := "010"%char.

(** [s ? a : b] and [if (s)] on a string: the empty string is falsy. *)
Definition truthy (s : string) : bool :=
  match s with "" => false | String _ _ => true end.

Definition starts_with_nl (s : string) : bool :=
  match s with String c _ => Ascii.eqb c nl | "" => false end.

(** [s.split(/\n\n+/)].  A separator is a maximal run of two or more line
    feeds.  [insep] records that the scan is inside a separator, whose
    remaining line feeds are skipped.  The result is the current section
    and the sections after it. *)
Fixpoint split_from (insep : bool) (s : string) : string * list string :=
  match s with
  | "" => ("", [])
  | String c r =>
      if Ascii.eqb c nl then
        if insep then split_from true r
        else if starts_with_nl r then
          ("", let '(cur, rest) := split_from true r in cur :: rest)
        else let '(cur, rest) := split_from false r in (String c cur, rest)
      else let '(cur, rest) := split_from false r in (String c cur, rest)
  end.

Definition split_blank_lines (s : string) : list string :=
  let '(cur, rest) := split_from false s in cur :: rest.

(** [sections.join('\n\n')] *)
Fixpoint join_blank_lines (l : list string) : string :=
  match l with
  | [] => ""
  | [s] => s
  | s :: r => s +:+ String nl (String nl "") +:+ join_blank_lines r
  end.

(** The built-ins of the language that are taken as given:
    [s.toUpperCase()]. *)
Class Builtins := { toUpperCase : string -> string }.

(** [s.charAt(0)]: the first code unit, and the empty string when there
    is none. *)
Definition charAt0 (s : string) : string :=
  match s with
  | "" => ""
  | String c _ => String c ""
  end.

(** [s.slice(1)] *)
Definition slice1 (s : string) : string :=
  match s with
  | "" => ""
  | String _ r => r
  end.

(** [s.charAt(0).toUpperCase() + s.slice(1)] *)
Definition capitalize `{Builtins} (s : string) : string :=
  toUpperCase (charAt0 s) +:+ slice1 s.

(** Decimal rendering of a natural number, as in a template literal. *)
Definition of_nat (n : nat) : string :=
  NilZero.string_of_uint (Nat.to_uint n).

(** [s.includes(c)] for one character. *)
Fixpoint has_char (c : ascii) (s : string) : bool :=
  match s with
  | "" => false
  | String d r => Ascii.eqb d c || has_char c r
  end.

Fixpoint all_nl (s : string) : bool :=
  match s with
  | "" => true
  | String c r => Ascii.eqb c nl && all_nl r
  end.

End JsString.

Import JsString.

(** ** Chunker (route.ts, lines 145-165) *)

Module Chunker.

Definition MAX_CONTENT_CHARS : nat := 100 * 1000.

Definition sep : string := String nl (String nl "").

(** One iteration of [for (const section of sections)]: the state is the
    array [chunks] and the variable [current]. *)
Definition pack_step (budget : nat) (st : list string * string)
    (section : string) : list string * string :=
  let '(chunks, current) := st in
  if (budget <? String.length (current +:+ sep +:+ section))%nat
     && (0 <? String.length current)%nat
  then (chunks ++ [current], section)
  else (chunks, if truthy current then current +:+ sep +:+ section
                else section).

Definition pack (budget : nat) (sections : list string)
    (st : list string * string) : list string * string :=
  fold_left (pack_step budget) sections st.

Definition chunk_content (budget : nat) (content : string) : list string :=
  if (String.length content <=? budget)%nat then [content]
  else
    let '(chunks, current) :=
      pack budget (split_blank_lines content) ([], "") in
    if truthy current then chunks ++ [current] else chunks.

(** The same loop, recording for every chunk the sections it is made of
    (used to state that chunks follow the order of the text). *)
Definition group_step (budget : nat) (st : list (list string) * list string)
    (section : string) : list (list string) * list string :=
  let '(groups, g) := st in
  let current := join_blank_lines g in
  if (budget <? String.length (current +:+ sep +:+ section))%nat
     && (0 <? String.length current)%nat
  then (groups ++ [g], [section])
  else (groups, if truthy current then g ++ [section] else [section]).

Definition chunk_groups (budget : nat) (content : string)
    : list (list string) :=
  let '(groups, g) :=
    fold_left (group_step budget) (split_blank_lines content) ([], []) in
  if truthy (join_blank_lines g) then groups ++ [g] else groups.

(** The non-empty strings of a list. *)
Definition keep (l : list string) : list string :=
  filter (fun s => s <> "") l.

(** A group of sections as a chunk is made of: it starts with a
    non-empty section, and is within the budget unless it is a single
    section. *)
Definition group_ok (budget : nat) (g : list string) : Prop :=
  (exists s r, g = s :: r /\ s <> "")
  /\ ((String.length (join_blank_lines g) <= budget)%nat
      \/ exists s, g = [s] /\ (budget < String.length s)%nat).

(** A group as the loop can hold it in [current]. *)
Definition current_ok (budget : nat) (g : list string) : Prop :=
  g = [] \/ g = [""]
  \/ ((exists s r, g = s :: r /\ s <> "")
      /\ ((String.length (join_blank_lines g) <= budget)%nat
          \/ exists s, g = [s])).

(** What the chunker section of the specification asks of the chunks of a
    text, following its words. *)
Definition chunks_as_specified (budget : nat) (content : string)
    (chunks : list string) : Prop :=
  chunks <> []
  /\ Forall (fun c => c <> "") chunks
  /\ ((String.length content <= budget)%nat -> length chunks = 1%nat)
  /\ ((budget < String.length content)%nat ->
      Forall (fun c => (String.length c <= budget)%nat
                       \/ (In c (split_blank_lines content)
                           /\ (budget < String.length c)%nat)) chunks).

End Chunker.

(** ** JSON values and [JSON.parse] *)

Module Json.

(** A number is kept as the decimal it was written as: [JNum m e] is
    [m * 10^e]. *)
#[warnings="-register-all"]
Inductive json :=
| JNull
| JBool (b : bool)
| JNum (m e : Z)
| JStr (s : string)
| JArr (items : list json)
| JObj (members : list (string * json)).

(** *** Lexical helpers *)

Definition quote : ascii := "034"%char.
Definition backslash : ascii := "092"%char.

Definition is_ws (c : ascii) : bool :=
  match c with
  | " " | "009" | "010" | "013" => true
  | _ => false
  end%char.

Fixpoint skip_ws (s : string) : string :=
  match s with
  | String c r => if is_ws c then skip_ws r else s
  | "" => ""
  end.

Definition digit (c : ascii) : option Z :=
  let n := nat_of_ascii c in
  if (48 <=? n)%nat && (n <=? 57)%nat then Some (Z.of_nat n - 48)%Z else None.

Definition hex_digit (c : ascii) : option N :=
  let n := N_of_ascii c in
  if (48 <=? n)%N && (n <=? 57)%N then Some (n - 48)%N
  else if (65 <=? n)%N && (n <=? 70)%N then Some (n - 55)%N
  else if (97 <=? n)%N && (n <=? 102)%N then Some (n - 87)%N
  else None.

(** *** String literals

    A literal is read as a sequence of pieces: bytes copied from the text
    and code units written as [\uXXXX]; the pieces are then laid out as
    UTF-8, a surrogate pair giving one code point. *)

Inductive piece :=
| Raw (c : ascii)
| Unit (n : N).

Definition utf8 (cp : N) : string :=
  (if cp <? 128 then String (ascii_of_N cp) ""
   else if cp <? 2048 then
     String (ascii_of_N (192 + cp / 64))
       (String (ascii_of_N (128 + cp mod 64)) "")
   else if cp <? 65536 then
     String (ascii_of_N (224 + cp / 4096))
       (String (ascii_of_N (128 + (cp / 64) mod 64))
          (String (ascii_of_N (128 + cp mod 64)) ""))
   else
     String (ascii_of_N (240 + cp / 262144))
       (String (ascii_of_N (128 + (cp / 4096) mod 64))
          (String (ascii_of_N (128 + (cp / 64) mod 64))
             (String (ascii_of_N (128 + cp mod 64)) ""))))%N.

Definition is_high (n : N) : bool := ((55296 <=? n) && (n <=? 56319))%N.
Definition is_low (n : N) : bool := ((56320 <=? n) && (n <=? 57343))%N.

Fixpoint layout (l : list piece) : string :=
  match l with
  | [] => ""
  | Raw c :: r => String c (layout r)
  | Unit hi :: r =>
      match r with
      | Unit lo :: r' =>
          if is_high hi && is_low lo
          then utf8 (65536 + (hi - 55296) * 1024 + (lo - 56320))%N
               +:+ layout r'
          else utf8 hi +:+ layout r
      | _ => utf8 hi +:+ layout r
      end
  end.

Definition escape (c : ascii) : option ascii :=
  match c with
  | "034" => Some "034"
  | "092" => Some "092"
  | "/" => Some "/"
  | "b" => Some "008"
  | "f" => Some "012"
  | "n" => Some "010"
  | "r" => Some "013"
  | "t" => Some "009"
  | _ => None
  end%char.

Definition hex4 (a b c d : ascii) : option N :=
  match hex_digit a, hex_digit b, hex_digit c, hex_digit d with
  | Some x, Some y, Some z, Some w => Some (((x * 16 + y) * 16 + z) * 16 + w)%N
  | _, _, _, _ => None
  end.

(** The text after an opening quote: the pieces up to the closing quote
    and the text after it. *)
Fixpoint string_body (s : string) : option (list piece * string) :=
  match s with
  | "" => None
  | String c r =>
      if Ascii.eqb c quote then Some ([], r)
      else if Ascii.eqb c backslash then
        match r with
        | String "u" (String h1 (String h2 (String h3 (String h4 r')))) =>
            match hex4 h1 h2 h3 h4, string_body r' with
            | Some n, Some (ps, rest) => Some (Unit n :: ps, rest)
            | _, _ => None
            end
        | String e r' =>
            match escape e, string_body r' with
            | Some x, Some (ps, rest) => Some (Raw x :: ps, rest)
            | _, _ => None
            end
        | "" => None
        end
      else if (N_of_ascii c <? 32)%N then None
      else
        match string_body r with
        | Some (ps, rest) => Some (Raw c :: ps, rest)
        | None => None
        end
  end.

Definition string_literal (s : string) : option (string * string) :=
  match string_body s with
  | Some (ps, rest) => Some (layout ps, rest)
  | None => None
  end.

(** *** Number literals *)

(** Reads a run of digits: its value, its length and the rest. *)
Fixpoint digits (acc : Z) (n : Z) (s : string) : Z * Z * string :=
  match s with
  | String c r =>
      match digit c with
      | Some d => digits (acc * 10 + d) (n + 1) r
      | None => (acc, n, s)
      end
  | "" => (acc, n, "")
  end.

Definition int_part (s : string) : option (Z * string) :=
  match s with
  | String "0" r => Some (0%Z, r)
  | String c _ =>
      match digit c with
      | Some _ => let '(v, _, r) := digits 0 0 s in Some (v, r)
      | None => None
      end
  | "" => None
  end.

Definition frac_part (v : Z) (s : string) : option (Z * Z * string) :=
  match s with
  | String "." r =>
      let '(v', n, r') := digits v 0 r in
      if (n =? 0)%Z then None else Some (v', (- n)%Z, r')
  | _ => Some (v, 0%Z, s)
  end.

Definition exp_part (s : string) : option (Z * string) :=
  match s with
  | String c r =>
      if Ascii.eqb c "e" || Ascii.eqb c "E" then
        let '(sign, r1) :=
          match r with
          | String "+" r1 => (1%Z, r1)
          | String "-" r1 => ((-1)%Z, r1)
          | _ => (1%Z, r)
          end in
        let '(x, n, r2) := digits 0 0 r1 in
        if (n =? 0)%Z then None else Some ((sign * x)%Z, r2)
      else Some (0%Z, s)
  | "" => Some (0%Z, "")
  end.

Definition number_literal (s : string) : option (json * string) :=
  let '(sign, s1) :=
    match s with
    | String "-" r => ((-1)%Z, r)
    | _ => (1%Z, s)
    end in
  match int_part s1 with
  | None => None
  | Some (v, s2) =>
      match frac_part v s2 with
      | None => None
      | Some (v', e1, s3) =>
          match exp_part s3 with
          | None => None
          | Some (e2, s4) => Some (JNum (sign * v') (e1 + e2), s4)
          end
      end
  end.

Fixpoint strip_prefix (p s : string) : option string :=
  match p, s with
  | "", _ => Some s
  | String a p', String b s' => if Ascii.eqb a b then strip_prefix p' s' else None
  | _, "" => None
  end.

(** *** Values

    The three functions call each other one level down in [fuel]; a call
    chain is never longer than twice the text plus two (a value, an
    element and a member each read at least one character). *)
Fixpoint value (fuel : nat) (s : string) : option (json * string) :=
  match fuel with
  | O => None
  | S fuel =>
      match skip_ws s with
      | String "{" r =>
          match skip_ws r with
          | String "}" r' => Some (JObj [], r')
          | r' => members fuel [] r'
          end
      | String "[" r =>
          match skip_ws r with
          | String "]" r' => Some (JArr [], r')
          | r' => elements fuel [] r'
          end
      | String "034" r =>
          match string_literal r with
          | Some (x, r') => Some (JStr x, r')
          | None => None
          end
      | String "t" r =>
          match strip_prefix "rue" r with
          | Some r' => Some (JBool true, r') | None => None
          end
      | String "f" r =>
          match strip_prefix "alse" r with
          | Some r' => Some (JBool false, r') | None => None
          end
      | String "n" r =>
          match strip_prefix "ull" r with
          | Some r' => Some (JNull, r') | None => None
          end
      | s' => number_literal s'
      end
  end
with elements (fuel : nat) (acc : list json) (s : string)
    : option (json * string) :=
  match fuel with
  | O => None
  | S fuel =>
      match value fuel s with
      | None => None
      | Some (v, r) =>
          match skip_ws r with
          | String "," r' => elements fuel (v :: acc) r'
          | String "]" r' => Some (JArr (rev (v :: acc)), r')
          | _ => None
          end
      end
  end
with members (fuel : nat) (acc : list (string * json)) (s : string)
    : option (json * string) :=
  match fuel with
  | O => None
  | S fuel =>
      match skip_ws s with
      | String "034" r =>
          match string_literal r with
          | None => None
          | Some (k, r1) =>
              match skip_ws r1 with
              | String ":" r2 =>
                  match value fuel r2 with
                  | None => None
                  | Some (v, r3) =>
                      match skip_ws r3 with
                      | String "," r4 => members fuel ((k, v) :: acc) r4
                      | String "}" r4 => Some (JObj (rev ((k, v) :: acc)), r4)
                      | _ => None
                      end
                  end
              | _ => None
              end
          end
      | _ => None
      end
  end.

(** [JSON.parse(text)]; [None] is the [SyntaxError]. *)
Definition JSON_parse (text : string) : option json :=
  match value (2 * String.length text + 2) text with
  | Some (v, rest) =>
      match skip_ws rest with
      | "" => Some v
      | _ => None
      end
  | None => None
  end.

(** *** Reading parsed values *)

(** [v.key] on a parsed value.  The outer [None] is the [TypeError] of
    reading a property of [null]; the inner one is [undefined].  In an
    object a repeated key keeps its last value. *)
Fixpoint assoc_last (k : string) (l : list (string * json)) : option json :=
  match l with
  | [] => None
  | (k', v) :: r =>
      match assoc_last k r with
      | Some w => Some w
      | None => if String.eqb k' k then Some v else None
      end
  end.

Definition prop (v : json) (k : string) : option (option json) :=
  match v with
  | JNull => None
  | JObj ms => Some (assoc_last k ms)
  | _ => Some None
  end.

(** The number is zero once rounded to a double: it is written as zero,
    or lies at most half the smallest positive double from zero. *)
Definition num_is_zero (m e : Z) : bool :=
  ((m =? 0) || ((e <? 0) && (Z.abs m * 2 ^ 1075 <=? 10 ^ (- e))))%Z.

(** [ToBoolean], as used by [if (v)] and [v || d]. *)
Definition truthy_json (v : option json) : bool :=
  match v with
  | None | Some JNull => false
  | Some (JBool b) => b
  | Some (JNum m e) => negb (num_is_zero m e)
  | Some (JStr s) => truthy s
  | Some (JArr _) | Some (JObj _) => true
  end.

(** The characters of a string as its iterator yields them: a byte that
    continues a UTF-8 sequence stays with the byte before it. *)
Definition is_continuation (c : ascii) : bool :=
  let n := N_of_ascii c in ((128 <=? n) && (n <? 192))%N.

Definition starts_with_continuation (s : string) : bool :=
  match s with String c _ => is_continuation c | "" => false end.

Fixpoint code_points (s : string) : list string :=
  match s with
  | "" => []
  | String c r =>
      if starts_with_continuation r then
        match code_points r with
        | x :: l => String c x :: l
        | [] => [String c ""]
        end
      else String c "" :: code_points r
  end.

(** [...v] in an argument list: the values [v] iterates over; [None] is
    the [TypeError] raised for a value that is not iterable. *)
Definition spread (v : json) : option (list json) :=
  match v with
  | JArr items => Some items
  | JStr s => Some (map JStr (code_points s))
  | _ => None
  end.

(** Writing JSON texts in this file: [q] turns every apostrophe of its
    argument into a double quote. *)
Fixpoint q (s : string) : string :=
  match s with
  | "" => ""
  | String c r => String (if Ascii.eqb c "'" then quote else c) (q r)
  end.

End Json.

Import Json.

(** ** Result parser and chunk merger (route.ts, lines 210-246) *)

Module Parser.

(** The longest prefix of [s] that ends with a closing brace: what
    [[\s\S]*\}] matches, the star giving back characters until a brace
    follows. *)
Fixpoint upto_last_close (s : string) : option string :=
  match s with
  | "" => None
  | String c r =>
      match upto_last_close r with
      | Some m => Some (String c m)
      | None => if Ascii.eqb c "}" then Some (String c "") else None
      end
  end.

(** [text.match(/\{[\s\S]*\}/)]: the match at the leftmost position where
    one exists; [None] is [null]. *)
Fixpoint match_braces (s : string) : option string :=
  match s with
  | "" => None
  | String c r =>
      if Ascii.eqb c "{" then
        match upto_last_close r with
        | Some m => Some (String c m)
        | None => match_braces r
        end
      else match_braces r
  end.

(** The block the specification describes: from the first opening brace
    that has a matching closing brace, up to that closing brace, nested
    braces counted. *)
Fixpoint balanced_from (depth : nat) (s : string) : option string :=
  match s with
  | "" => None
  | String c r =>
      if Ascii.eqb c "{" then
        option_map (String c) (balanced_from (S depth) r)
      else if Ascii.eqb c "}" then
        match depth with
        | O => Some (String c "")
        | S d => option_map (String c) (balanced_from d r)
        end
      else option_map (String c) (balanced_from depth r)
  end.

Fixpoint first_balanced_block (s : string) : option string :=
  match s with
  | "" => None
  | String c r =>
      if Ascii.eqb c "{" then
        match balanced_from 0 r with
        | Some m => Some (String c m)
        | None => first_balanced_block r
        end
      else first_balanced_block r
  end.

(** The four arrays filled across the chunks of a pass. *)
Record accum := Accum {
  allEntities : list json;
  allRelationships : list json;
  allInsights : list json;
  allFrontierHints : list json
}.

Definition empty_accum : accum := Accum [] [] [] [].

(** [if (v) arr.push(...v)]: the new contents of [arr], or [None] when
    the spread raises. *)
Definition push_all (arr : list json) (v : option json)
    : option (list json) :=
  if truthy_json v then
    match v with
    | Some x =>
        match spread x with
        | Some items => Some (arr ++ items)
        | None => None
        end
    | None => Some arr
    end
  else Some arr.

(** How the [try] block of one chunk ends. *)
Inductive chunk_end :=
| NoMatch          (* the regular expression found nothing *)
| Pushed           (* the four fields were read *)
| Caught.          (* an exception reached [catch (parseErr)] *)

(** The body of the [try] of one chunk (lines 226-237).  The arrays are
    changed in place, so what was pushed before an exception stays. *)
Definition absorb_match (acc : accum) (jsonMatch : option string)
    : accum * chunk_end :=
  match jsonMatch with
  | None => (acc, NoMatch)
  | Some block =>
      match JSON_parse block with
      | None => (acc, Caught)
      | Some parsed =>
          match prop parsed "entities" with
          | None => (acc, Caught)
          | Some f1 =>
          match push_all (allEntities acc) f1 with
          | None => (acc, Caught)
          | Some es =>
          let acc1 := Accum es (allRelationships acc) (allInsights acc)
                        (allFrontierHints acc) in
          match prop parsed "relationships" with
          | None => (acc1, Caught)
          | Some f2 =>
          match push_all (allRelationships acc) f2 with
          | None => (acc1, Caught)
          | Some rs =>
          let acc2 := Accum es rs (allInsights acc)
                        (allFrontierHints acc) in
          match prop parsed "insights" with
          | None => (acc2, Caught)
          | Some f3 =>
          match push_all (allInsights acc) f3 with
          | None => (acc2, Caught)
          | Some ins =>
          let acc3 := Accum es rs ins (allFrontierHints acc) in
          match prop parsed "frontier_hints" with
          | None => (acc3, Caught)
          | Some f4 =>
          match push_all (allFrontierHints acc) f4 with
          | None => (acc3, Caught)
          | Some hs => (Accum es rs ins hs, Pushed)
          end end end end end end end end
      end
  end.

Definition absorb (acc : accum) (text : string) : accum * chunk_end :=
  absorb_match acc (match_braces text).

(** The parser of the specification: the same, on the first balanced
    block. *)
Definition absorb_balanced (acc : accum) (text : string)
    : accum * chunk_end :=
  absorb_match acc (first_balanced_block text).

(** *** Provider calls *)

Inductive provider_outcome :=
| Reply (text : string) (model : string)
| ProviderError.

(** [callAI]: the answer to the [i]-th call of the pass (from 0), made
    with the given prompt. *)
Definition provider := nat -> string -> provider_outcome.

Definition SYSTEM_PROMPT : string :=
  fold_right (fun l r => l +:+ String nl r) ""
    [ "You are a knowledge extraction engine analysing organisational documents.";
      "Extract ALL entities and relationships. Be thorough but precise.";
      "";
      "Return valid JSON only:";
      "{";
      q "  'entities': [{";
      q "    'name': '...',";
      q "    'type': 'person|team|organisation|client|service|strategy|goal|financial|process|system|location|context|culture',";
      q "    'subtype': 'optional specific type',";
      q "    'description': 'brief description',";
      q "    'metadata': { 'role': '...', 'salary': '...', etc }";
      "  }],";
      q "  'relationships': [{";
      q "    'source': 'entity name (exact match)',";
      q "    'target': 'entity name (exact match)',  ";
      q "    'label': 'verb phrase describing relationship',";
      q "    'weight': 1-5";
      "  }],";
      q "  'insights': [{";
      q "    'type': 'inconsistency|gap|risk|opportunity|observation|culture',";
      q "    'severity': 'info|warning|critical',";
      q "    'text': 'description of the finding'";
      "  }],";
      q "  'frontier_hints': [{";
      q "    'name': 'territory name',";
      q "    'hint': 'what might be found here',";
      q "    'risk': 'low|medium|high',";
      q "    'value': 'low|medium|high|very_high',";
      q "    'access_needed': 'what would be needed to explore this'";
      "  }]" ] +:+ "}".

Definition chunkLabel (i total : nat) : string :=
  if (1 <? total)%nat
  then " (Part " +:+ of_nat (i + 1) +:+ " of " +:+ of_nat total +:+ ")"
  else "".

Definition prompt_of (i total : nat) (chunk : string) : string :=
  SYSTEM_PROMPT +:+ String nl (String nl "") +:+ "Document"
  +:+ chunkLabel i total +:+ ":" +:+ String nl "" +:+ chunk.

(** The loop over the chunks, from chunk [i] on.  [None] is the exception
    of a failed provider call, which leaves the loop; otherwise the arrays
    and [extractorName]. *)
Fixpoint run_chunks (callAI : provider) (total i : nat)
    (chunks : list string) (acc : accum) (extractorName : string)
    : option (accum * string) :=
  match chunks with
  | [] => Some (acc, extractorName)
  | chunk :: rest =>
      match callAI i (prompt_of i total chunk) with
      | ProviderError => None
      | Reply text model =>
          run_chunks callAI total (S i) rest (fst (absorb acc text)) model
      end
  end.

End Parser.

Import Parser.

(** ** Plain objects used as maps

    [const m: Record<string, V> = {}] is an object whose prototype is
    [Object.prototype].  Reading a key the object does not own finds the
    member of the prototype of that name, when there is one; and
    [m['__proto__'] = v] with a primitive [v] reaches the setter of the
    prototype, which ignores it, so that key is never owned. *)

Module PlainObject.

Definition prototype_keys : list string :=
  [ "constructor"; "__defineGetter__"; "__defineSetter__";
    "hasOwnProperty"; "__lookupGetter__"; "__lookupSetter__";
    "isPrototypeOf"; "propertyIsEnumerable"; "toString"; "valueOf";
    "__proto__"; "toLocaleString" ].

Definition is_prototype_key (k : string) : bool :=
  bool_decide (k ∈ prototype_keys).

Inductive looked_up (V : Type) :=
| Own (v : V)        (* a value stored under the key *)
| Inherited          (* a member of the prototype: truthy, not a [V] *)
| Undefined.
Arguments Own {V} v.
Arguments Inherited {V}.
Arguments Undefined {V}.

Definition is_truthy {V} (r : looked_up V) : bool :=
  match r with Undefined => false | _ => true end.

(** *** Unordered use: the own properties as a finite map *)

Definition get {V} (m : gmap string V) (k : string) : looked_up V :=
  match m !! k with
  | Some v => Own v
  | None => if is_prototype_key k then Inherited else Undefined
  end.

(** [m[k] = v] for a primitive [v]. *)
Definition set {V} (m : gmap string V) (k : string) (v : V)
    : gmap string V :=
  if String.eqb k "__proto__" then m else <[k := v]> m.

(** *** Ordered use: the own properties in creation order *)

Fixpoint lookup_own {V} (m : list (string * V)) (k : string) : option V :=
  match m with
  | [] => None
  | (k', v) :: r => if String.eqb k' k then Some v else lookup_own r k
  end.

Fixpoint replace_own {V} (m : list (string * V)) (k : string) (v : V)
    : list (string * V) :=
  match m with
  | [] => []
  | (k', w) :: r =>
      if String.eqb k' k then (k', v) :: r else (k', w) :: replace_own r k v
  end.

(** A key is an array index when it is the decimal writing, without
    leading zeros, of a number below 2^32 - 1. *)
Fixpoint decimal_value (acc : N) (s : string) : option N :=
  match s with
  | "" => Some acc
  | String c r =>
      match Json.digit c with
      | Some d => decimal_value (acc * 10 + Z.to_N d) r
      | None => None
      end
  end.

Definition array_index (k : string) : option N :=
  match k with
  | "" => None
  | String "0" "" => Some 0%N
  | String "0" _ => None
  | _ =>
      match decimal_value 0 k with
      | Some n => if (n <? 4294967295)%N then Some n else None
      | None => None
      end
  end.

Definition index_le {V} (a b : N * (string * V)) : Prop := (a.1 <= b.1)%N.

#[global] Instance index_le_dec {V} (a b : N * (string * V))
  : Decision (index_le a b).
Proof. unfold index_le. apply _. Defined.

Definition indexed {V} (m : list (string * V)) : list (N * (string * V)) :=
  omap (fun kv => match array_index kv.1 with
                  | Some n => Some (n, kv)
                  | None => None
                  end) m.

(** [Object.entries(m)]: array-index keys in ascending order, then the
    other keys in creation order. *)
Definition entries {V} (m : list (string * V)) : list (string * V) :=
  map snd (merge_sort index_le (indexed m))
  ++ filter (fun kv => array_index kv.1 = None) m.

End PlainObject.

(** ** Records of the persistence layer

    Modelled from the spec: the row shapes of section 3 (the Prisma schema
    is not among the sources).  Text fields are strings, optional fields
    are options, the weight of an edge is an integer.  A row gets the next
    identifier of the store when it is created. *)

Module Store.

Definition id := nat.

Record Entity := mkEntity {
  entity_id : id;
  entity_projectId : string;
  entity_documentId : string;
  entity_name : string;
  entity_type : string;
  entity_subtype : option string;
  entity_description : option string;
  entity_metadata : json;
  entity_extractedBy : string;
  entity_territoryId : option id
}.

Record Edge := mkEdge {
  edge_id : id;
  edge_projectId : string;
  edge_sourceId : id;
  edge_targetId : id;
  edge_label : string;
  edge_weight : Z;
  edge_documentId : string
}.

Record Insight := mkInsight {
  insight_id : id;
  insight_projectId : string;
  insight_type : string;
  insight_severity : string;
  insight_text : string
}.

Record Territory := mkTerritory {
  territory_id : id;
  territory_projectId : string;
  territory_name : string;
  territory_type : string;
  territory_status : string;
  territory_description : option string;
  territory_hint : option string;
  territory_risk : option string;
  territory_value : option string;
  territory_accessNeeded : option string
}.

Record Agent := mkAgent {
  agent_id : id;
  agent_projectId : string;
  agent_name : string;
  agent_role : string;
  agent_status : string;
  agent_domain : option string;
  agent_description : option string;
  agent_entitiesManaged : nat;
  agent_parentAgentId : option id
}.

Record Document := mkDocument {
  document_id : string;
  document_projectId : string;
  document_filename : string;
  document_content : option string;
  document_status : string;
  document_entityCount : nat;
  document_edgeCount : nat
}.

Record store := mkStore {
  entities : list Entity;
  edges : list Edge;
  insights : list Insight;
  territories : list Territory;
  agents : list Agent;
  documents : list Document;
  next_id : id
}.

(** *** A state monad with exceptions

    A computation runs on the store and either returns a value or throws;
    the store it has reached is kept in both cases. *)
Definition M (A : Type) : Type := store -> store * option A.

Definition ret {A} (a : A) : M A := fun st => (st, Some a).
Definition throw {A} : M A := fun st => (st, None).
Definition bind {A B} (c : M A) (k : A -> M B) : M B :=
  fun st =>
    match c st with
    | (st', Some a) => k a st'
    | (st', None) => (st', None)
    end.

(** [for (const x of l) { acc = body(acc, x) }] *)
Fixpoint for_each {A S} (l : list A) (body : S -> A -> M S) (acc : S)
    : M S :=
  match l with
  | [] => ret acc
  | x :: r => bind (body acc x) (for_each r body)
  end.

End Store.

Declare Scope pass_scope.
Delimit Scope pass_scope with pass.
Notation "x <- c ;; k" := (Store.bind c (fun x => k))
  (at level 20, c at level 99, k at level 200, only parsing) : pass_scope.
Notation "' p <- c ;; k" := (Store.bind c (fun x => let 'p := x in k))
  (at level 20, p pattern, c at level 99, k at level 200, only parsing)
  : pass_scope.

(** ** The extraction pass (route.ts, lines 53-433) *)

Module Pass.
Import Store PlainObject.
Local Open Scope pass_scope.

(** *** [interface ExtractionResult] *)

Record EntityData := mkEntityData {
  ed_name : string;
  ed_type : string;
  ed_subtype : option string;
  ed_description : option string;
  ed_metadata : option json
}.

Record RelData := mkRelData {
  rd_source : string;
  rd_target : string;
  rd_label : string;
  rd_weight : Z
}.

Record InsightData := mkInsightData {
  nd_type : string;
  nd_severity : string;
  nd_text : string
}.

Record HintData := mkHintData {
  hd_name : string;
  hd_hint : option string;
  hd_risk : option string;
  hd_value : option string;
  hd_access_needed : option string
}.

Record ExtractionResult := mkResult {
  r_entities : list EntityData;
  r_relationships : list RelData;
  r_insights : list InsightData;
  r_frontier_hints : list HintData
}.

(** *** Reading the merged arrays at their declared type (line 241)

    [mergedResult] is declared an [ExtractionResult]; the elements pushed
    by the chunk loop are read here at that type.  A field the pass uses
    as [v || d] reads as absent when falsy; a field handed to the store
    as it is may be absent or [null].  An element that does not fit the
    interface makes the reading fail. *)

Definition text_of (v : option json) : option string :=
  match v with Some (JStr s) => Some s | _ => None end.

Definition text_or_falsy (v : option json) : option (option string) :=
  if truthy_json v then
    match v with Some (JStr s) => Some (Some s) | _ => None end
  else Some None.

Definition text_or_null (v : option json) : option (option string) :=
  match v with
  | None | Some JNull => Some None
  | Some (JStr s) => Some (Some s)
  | _ => None
  end.

Definition integer_of (m e : Z) : option Z :=
  if (0 <=? e)%Z then Some (m * 10 ^ e)%Z
  else if (m mod 10 ^ (- e) =? 0)%Z then Some (m / 10 ^ (- e))%Z
  else None.

Definition weight_of (v : option json) : option Z :=
  if truthy_json v then
    match v with Some (JNum m e) => integer_of m e | _ => None end
  else Some 0%Z.

Definition members_of (v : json) : option (list (string * json)) :=
  match v with JObj ms => Some ms | _ => None end.

Definition read_entity (v : json) : option EntityData :=
  ms ← members_of v;
  name ← text_of (assoc_last "name" ms);
  type ← text_of (assoc_last "type" ms);
  subtype ← text_or_falsy (assoc_last "subtype" ms);
  description ← text_or_falsy (assoc_last "description" ms);
  Some (mkEntityData name type subtype description
          (assoc_last "metadata" ms)).

Definition read_relationship (v : json) : option RelData :=
  ms ← members_of v;
  source ← text_of (assoc_last "source" ms);
  target ← text_of (assoc_last "target" ms);
  label ← text_of (assoc_last "label" ms);
  weight ← weight_of (assoc_last "weight" ms);
  Some (mkRelData source target label weight).

Definition read_insight (v : json) : option InsightData :=
  ms ← members_of v;
  type ← text_of (assoc_last "type" ms);
  severity ← text_of (assoc_last "severity" ms);
  text ← text_of (assoc_last "text" ms);
  Some (mkInsightData type severity text).

Definition read_hint (v : json) : option HintData :=
  ms ← members_of v;
  name ← text_of (assoc_last "name" ms);
  hint ← text_or_null (assoc_last "hint" ms);
  risk ← text_or_null (assoc_last "risk" ms);
  value ← text_or_null (assoc_last "value" ms);
  access ← text_or_null (assoc_last "access_needed" ms);
  Some (mkHintData name hint risk value access).

Definition read_result (acc : accum) : option ExtractionResult :=
  es ← mapM read_entity (allEntities acc);
  rs ← mapM read_relationship (allRelationships acc);
  ns ← mapM read_insight (allInsights acc);
  hs ← mapM read_hint (allFrontierHints acc);
  Some (mkResult es rs ns hs).

(** *** Store operations *)

Definition add_entity (row : Entity) (st : store) : store :=
  mkStore (entities st ++ [row]) (edges st) (insights st) (territories st)
    (agents st) (documents st) (S (next_id st)).
Definition add_edge (row : Edge) (st : store) : store :=
  mkStore (entities st) (edges st ++ [row]) (insights st) (territories st)
    (agents st) (documents st) (S (next_id st)).
Definition add_insight (row : Insight) (st : store) : store :=
  mkStore (entities st) (edges st) (insights st ++ [row]) (territories st)
    (agents st) (documents st) (S (next_id st)).
Definition add_territory (row : Territory) (st : store) : store :=
  mkStore (entities st) (edges st) (insights st) (territories st ++ [row])
    (agents st) (documents st) (S (next_id st)).
Definition add_agent (row : Agent) (st : store) : store :=
  mkStore (entities st) (edges st) (insights st) (territories st)
    (agents st ++ [row]) (documents st) (S (next_id st)).
Definition with_entities (l : list Entity) (st : store) : store :=
  mkStore l (edges st) (insights st) (territories st) (agents st)
    (documents st) (next_id st).
Definition with_documents (l : list Document) (st : store) : store :=
  mkStore (entities st) (edges st) (insights st) (territories st)
    (agents st) l (next_id st).

(** [s || null] *)
Definition or_null (s : option string) : option string :=
  match s with
  | Some x => if truthy x then Some x else None
  | None => None
  end.

(** [metadata || {}], the value whose [JSON.stringify] is stored. *)
Definition or_empty_object (v : option json) : json :=
  match v with
  | Some x => if truthy_json v then x else JObj []
  | None => JObj []
  end.

(** [prisma.entity.create] (lines 257-268) *)
Definition entity_row (projectId documentId extractedBy : string)
    (d : EntityData) (i : id) : Entity :=
  mkEntity i projectId documentId (ed_name d) (ed_type d)
    (or_null (ed_subtype d)) (or_null (ed_description d))
    (or_empty_object (ed_metadata d)) extractedBy None.

Definition entity_create (projectId documentId extractedBy : string)
    (d : EntityData) : M Entity :=
  fun st =>
    let row := entity_row projectId documentId extractedBy d (next_id st) in
    (add_entity row st, Some row).

(** [prisma.edge.create] (lines 281-290) *)
Definition edge_create (projectId : string) (sourceId targetId : id)
    (label : string) (weight : Z) (documentId : string) : M Edge :=
  fun st =>
    let row := mkEdge (next_id st) projectId sourceId targetId label weight
                 documentId in
    (add_edge row st, Some row).

Definition insight_row (projectId : string) (d : InsightData) (i : id)
    : Insight :=
  mkInsight i projectId (nd_type d) (nd_severity d) (nd_text d).

Definition insight_create (projectId : string) (d : InsightData)
    : M Insight :=
  fun st =>
    let row := insight_row projectId d (next_id st) in
    (add_insight row st, Some row).

Definition territory_create
    (mk : id -> Territory) : M Territory :=
  fun st => let row := mk (next_id st) in (add_territory row st, Some row).

Definition agent_create (mk : id -> Agent) : M Agent :=
  fun st => let row := mk (next_id st) in (add_agent row st, Some row).

Definition assign_territory (ids : list id) (t : id) (e : Entity) : Entity :=
  if bool_decide (entity_id e ∈ ids) then
    mkEntity (entity_id e) (entity_projectId e) (entity_documentId e)
      (entity_name e) (entity_type e) (entity_subtype e)
      (entity_description e) (entity_metadata e) (entity_extractedBy e)
      (Some t)
  else e.

(** [prisma.entity.updateMany({ where: { id: { in: ids } }, ... })] *)
Definition entity_updateMany (ids : list id) (t : id) : M unit :=
  fun st =>
    (with_entities (map (assign_territory ids t) (entities st)) st, Some tt).

(** [prisma.document.update({ where: { id }, data })]; it throws when no
    document has that identifier. *)
Definition document_update (docId : string) (f : Document -> Document)
    : M unit :=
  fun st =>
    if existsb (fun d => String.eqb (document_id d) docId) (documents st)
    then (with_documents
            (map (fun d => if String.eqb (document_id d) docId
                           then f d else d) (documents st)) st, Some tt)
    else (st, None).

Definition set_status (s : string) (d : Document) : Document :=
  mkDocument (document_id d) (document_projectId d) (document_filename d)
    (document_content d) s (document_entityCount d) (document_edgeCount d).

Definition set_extracted (n m : nat) (d : Document) : Document :=
  mkDocument (document_id d) (document_projectId d) (document_filename d)
    (document_content d) "extracted" n m.

(** *** Materializer (lines 252-293) *)

Definition create_entities (projectId documentId extractedBy : string)
    (l : list EntityData) : M (gmap string id * list Entity) :=
  for_each l
    (fun '(entityMap, createdEntities) entityData =>
       entity <- entity_create projectId documentId extractedBy entityData;;
       ret (set entityMap (ed_name entityData) (entity_id entity),
            createdEntities ++ [entity]))
    (∅, []).

(** [relData.weight || 1] *)
Definition weight_or_1 (w : Z) : Z := if (w =? 0)%Z then 1%Z else w.

(** One relationship (lines 277-292).  When the guard passes with an
    endpoint that is an inherited member of the prototype, the store is
    asked to create an edge whose endpoint is not an identifier, and the
    client rejects the request with an exception. *)
Definition create_edge (projectId documentId : string)
    (entityMap : gmap string id) (createdEdges : list Edge)
    (relData : RelData) : M (list Edge) :=
  let sourceId := get entityMap (rd_source relData) in
  let targetId := get entityMap (rd_target relData) in
  if is_truthy sourceId && is_truthy targetId then
    match sourceId, targetId with
    | Own s, Own t =>
        edge <- edge_create projectId s t (rd_label relData)
                  (weight_or_1 (rd_weight relData)) documentId;;
        ret (createdEdges ++ [edge])
    | _, _ => throw
    end
  else ret createdEdges.

Definition create_edges (projectId documentId : string)
    (entityMap : gmap string id) (l : list RelData) : M (list Edge) :=
  for_each l (create_edge projectId documentId entityMap) [].

Definition create_insights (projectId : string) (l : list InsightData)
    : M (list Insight) :=
  for_each l
    (fun createdInsights insightData =>
       insight <- insight_create projectId insightData;;
       ret (createdInsights ++ [insight]))
    [].

(** *** Territory deriver (lines 309-357) *)

(** One entity of the grouping loop (lines 313-318); [None] is the
    [TypeError] of calling [push] on an inherited member. *)
Definition group_entity (territoriesMap : list (string * list id))
    (entity : Entity) : option (list (string * list id)) :=
  let type := entity_type entity in
  match lookup_own territoriesMap type with
  | Some ids =>
      Some (replace_own territoriesMap type (ids ++ [entity_id entity]))
  | None =>
      if is_prototype_key type then None
      else Some (territoriesMap ++ [(type, [entity_id entity])])
  end.

Fixpoint group_by_type (territoriesMap : list (string * list id))
    (l : list Entity) : option (list (string * list id)) :=
  match l with
  | [] => Some territoriesMap
  | e :: r =>
      match group_entity territoriesMap e with
      | Some m => group_by_type m r
      | None => None
      end
  end.

Definition known_territory `{Builtins} (projectId type : string) (n : nat)
    (i : id) : Territory :=
  mkTerritory i projectId (capitalize type) type "known"
    (Some ("Territory containing " +:+ of_nat n +:+ " " +:+ type
           +:+ " entities"))
    None None None None.

Definition frontier_territory (projectId : string) (h : HintData) (i : id)
    : Territory :=
  mkTerritory i projectId (hd_name h) "frontier" "frontier" None
    (hd_hint h) (hd_risk h) (hd_value h) (hd_access_needed h).

Definition create_known `{Builtins} (projectId : string)
    (territoriesMap : list (string * list id)) : M (list Territory) :=
  for_each (entries territoriesMap)
    (fun createdTerritories '(type, entityIds) =>
       territory <- territory_create
                      (known_territory projectId type (length entityIds));;
       _ <- entity_updateMany entityIds (territory_id territory);;
       ret (createdTerritories ++ [territory]))
    [].

Definition create_frontier (projectId : string) (l : list HintData)
    (createdTerritories : list Territory) : M (list Territory) :=
  for_each l
    (fun createdTerritories hintData =>
       frontierTerritory <- territory_create
                              (frontier_territory projectId hintData);;
       ret (createdTerritories ++ [frontierTerritory]))
    createdTerritories.

(** *** Agent hierarchy builder (lines 359-392) *)

Definition coordinator_agent (projectId : string) (n : nat) (i : id)
    : Agent :=
  mkAgent i projectId "System Coordinator" "coordinator" "active" None
    (Some "Primary agent overseeing knowledge extraction and analysis")
    n None.

Definition explorer_agent `{Builtins} (projectId type : string) (n : nat)
    (coordinator : id) (i : id) : Agent :=
  mkAgent i projectId (capitalize type +:+ " Explorer") "explorer" "active"
    (Some type)
    (Some ("Specialized agent for analyzing " +:+ type +:+ " entities"))
    n (Some coordinator).

Definition majorTypes (territoriesMap : list (string * list id))
    : list string :=
  map fst (filter (fun kv => (3 <=? length kv.2)%nat = true)
             (entries territoriesMap)).

Definition create_agents `{Builtins} (projectId : string)
    (territoriesMap : list (string * list id))
    (createdEntities : list Entity) : M (list Agent) :=
  coordinator <- agent_create
                   (coordinator_agent projectId (length createdEntities));;
  for_each (majorTypes territoriesMap)
    (fun createdAgents type =>
       match lookup_own territoriesMap type with
       | Some entityIds =>
           agent <- agent_create
                      (explorer_agent projectId type (length entityIds)
                         (agent_id coordinator));;
           ret (createdAgents ++ [agent])
       | None => throw
       end)
    [coordinator].

Record summary := mkSummary {
  s_entities : nat;
  s_relationships : nat;
  s_insights : nat;
  s_territories : nat;
  s_agents : nat
}.

(** Lines 295-413: insights, territories, agents and the document. *)
Definition after_edges `{Builtins} (projectId documentId : string)
    (r : ExtractionResult) (createdEntities : list Entity)
    (createdEdges : list Edge) : M summary :=
  createdInsights <- create_insights projectId (r_insights r);;
  match group_by_type [] createdEntities with
  | None => throw
  | Some territoriesMap =>
      known <- create_known projectId territoriesMap;;
      createdTerritories <-
        create_frontier projectId (r_frontier_hints r) known;;
      createdAgents <-
        create_agents projectId territoriesMap createdEntities;;
      _ <- document_update documentId
             (set_extracted (length createdEntities) (length createdEdges));;
      ret (mkSummary (length createdEntities) (length createdEdges)
             (length createdInsights) (length createdTerritories)
             (length createdAgents))
  end.

(** Lines 252-413: everything after the merge. *)
Definition materialize `{Builtins}
    (projectId documentId extractorName : string)
    (r : ExtractionResult) : M summary :=
  '(entityMap, createdEntities) <-
     create_entities projectId documentId extractorName (r_entities r);;
  createdEdges <-
     create_edges projectId documentId entityMap (r_relationships r);;
  after_edges projectId documentId r createdEntities createdEdges.

(** *** The route *)

Record Settings := mkSettings {
  aiProvider : string;
  claudeApiKey : option string
}.

Inductive response :=
| Status404
| Status400
| Status500 (error : string)
| Status200 (s : summary)
| OutsideInterface.

Definition find_document (docId projectId : string) (st : store)
    : option Document :=
  find (fun d => String.eqb (document_id d) docId
                 && String.eqb (document_projectId d) projectId)
    (documents st).

Definition falsy_text (s : option string) : bool :=
  match s with Some x => negb (truthy x) | None => true end.

(** The [try] block from line 107 on.  The inner [None] marks merged
    arrays that do not have the declared type, for which the pass is not
    described. *)
Definition pass_body `{Builtins} (budget : nat) (callAI : provider)
    (projectId : string) (document : Document) : M (option summary) :=
  _ <- document_update (document_id document) (set_status "processing");;
  let content := default "" (document_content document) in
  let chunks := Chunker.chunk_content budget content in
  match run_chunks callAI (length chunks) 0 chunks empty_accum "unknown" with
  | None => throw
  | Some (acc, extractorName) =>
      match read_result acc with
      | None => ret None
      | Some r =>
          s <- materialize projectId (document_id document) extractorName
                 r;;
          ret (Some s)
      end
  end.

Definition mark_failed (docId : string) (st : store) : store :=
  fst (document_update docId (set_status "failed") st).

(** The checks of the provider configuration (lines 92-105). *)
Definition config_error (settings : Settings)
    (ANTHROPIC_API_KEY : option string) : option response :=
  if String.eqb (aiProvider settings) "none" then Some Status400
  else if String.eqb (aiProvider settings) "claude"
          && falsy_text (claudeApiKey settings)
          && falsy_text ANTHROPIC_API_KEY
  then Some (Status500 "Claude API key not configured. Please add your API key in project settings or set ANTHROPIC_API_KEY environment variable.")
  else None.

(** The route for a chunk budget.  [settings] is the settings row of the
    project: the row found or, when the project has none, the row the
    route creates with its defaults (lines 74-89).  The table of the
    settings is not one of the tables of [store]: what is said of a
    store is said of the entities, edges, insights, territories, agents
    and documents.  [OutsideInterface] is no response of the route: it
    marks the requests whose merged arrays hold an element that is not
    of the declared type, for which the pass is not described. *)
Definition extract_with `{Builtins} (budget : nat) (settings : Settings)
    (ANTHROPIC_API_KEY : option string) (callAI : provider)
    (projectId docId : string) (st : store) : store * response :=
  match find_document docId projectId st with
  | None => (st, Status404)
  | Some document =>
      match config_error settings ANTHROPIC_API_KEY with
      | Some response => (st, response)
      | None =>
          match pass_body budget callAI projectId document st with
          | (st', Some (Some s)) => (st', Status200 s)
          | (st', Some None) => (st', OutsideInterface)
          | (st', None) =>
              (mark_failed docId st', Status500 "Extraction failed")
          end
      end
  end.

(** [POST] *)
Definition POST `{Builtins} := extract_with Chunker.MAX_CONTENT_CHARS.

Definition status_of (docId : string) (st : store) : option string :=
  document_status <$> find (fun d => String.eqb (document_id d) docId)
                        (documents st).

End Pass.

(** ** Read-time reconciliation *)

Module Reconcile.

(** *** Territories (territories route, [GET]) *)

(** [select: { id, name, type }] of a member entity. *)
Record EntityRef := mkEntityRef {
  ref_id : string;
  ref_name : string;
  ref_type : string
}.

(** A territory row with its member entities ([include: { entities }]). *)
Record TerritoryRow := mkTerritoryRow {
  t_id : string;
  t_name : string;
  t_type : string;
  t_status : string;
  t_description : option string;
  t_hint : option string;
  t_risk : option string;
  t_value : option string;
  t_accessNeeded : option string;
  t_entities : list EntityRef
}.

Record KnownTerritory := mkKnown {
  k_id : string;
  k_name : string;
  k_type : string;
  k_status : string;
  k_description : option string;
  k_entities : list string;
  k_entityDetails : list EntityRef
}.

Record FrontierTerritory := mkFrontier {
  f_id : string;
  f_name : string;
  f_type : string;
  f_status : string;
  f_hint : option string;
  f_risk : option string;
  f_value : option string;
  f_accessNeeded : option string
}.

(** [`${t.name}|${t.type}|${t.status}`] *)
Definition key_of (t : TerritoryRow) : string :=
  t_name t +:+ "|" +:+ t_type t +:+ "|" +:+ t_status t.

(** [if (!groups.has(key)) groups.set(key, []); groups.get(key).push(t)]
    on a [Map], whose entries stay in the order their keys were first
    set. *)
Fixpoint add_to_group {T} (groups : list (string * list T)) (key : string)
    (t : T) : list (string * list T) :=
  match groups with
  | [] => [(key, [t])]
  | (k, g) :: r =>
      if String.eqb k key then (k, g ++ [t]) :: r
      else (k, g) :: add_to_group r key t
  end.

Definition group_rows {T} (key : T -> string) (items : list T)
    : list (string * list T) :=
  fold_left (fun groups t => add_to_group groups (key t) t) items [].

(** [dedup(items, mapper)] *)
Definition dedup {T R} (key : T -> string) (items : list T)
    (mapper : T -> list T -> R) : list R :=
  omap (fun kg => match kg.2 with
                  | first :: _ => Some (mapper first kg.2)
                  | [] => None
                  end)
    (group_rows key items).

(** [entityMap.set(e.id, e)] on a [Map]: a key set again keeps its place
    and takes the new value. *)
Fixpoint map_set (m : list (string * EntityRef)) (k : string)
    (e : EntityRef) : list (string * EntityRef) :=
  match m with
  | [] => [(k, e)]
  | (k', e') :: r =>
      if String.eqb k' k then (k', e) :: r else (k', e') :: map_set r k e
  end.

Definition merge_entities (group : list TerritoryRow) : list EntityRef :=
  map snd
    (fold_left
       (fun entityMap t =>
          fold_left (fun m e => map_set m (ref_id e) e) (t_entities t)
            entityMap)
       group []).

Definition known_mapper (first : TerritoryRow) (group : list TerritoryRow)
    : KnownTerritory :=
  let allEntities := merge_entities group in
  mkKnown (t_id first) (t_name first) (t_type first) (t_status first)
    (t_description first) (map ref_id allEntities) allEntities.

Definition frontier_mapper (first : TerritoryRow)
    (group : list TerritoryRow) : FrontierTerritory :=
  mkFrontier (t_id first) (t_name first) (t_type first) (t_status first)
    (t_hint first) (t_risk first) (t_value first) (t_accessNeeded first).

Definition has_status (s : string) (t : TerritoryRow) : bool :=
  String.eqb (t_status t) s.

Definition known (territories : list TerritoryRow) : list KnownTerritory :=
  dedup key_of (List.filter (has_status "known") territories) known_mapper.

Definition frontier (territories : list TerritoryRow)
    : list FrontierTerritory :=
  dedup key_of (List.filter (has_status "frontier") territories)
    frontier_mapper.

(** The grouping the specification describes: rows with the same name,
    type and status, a group for each such triple in the order the triples
    first appear. *)
Definition triple (t : TerritoryRow) : string * string * string :=
  (t_name t, t_type t, t_status t).

Fixpoint first_occurrences {A} `{EqDecision A} (l : list A) (seen : list A)
    : list A :=
  match l with
  | [] => []
  | x :: r =>
      if bool_decide (x ∈ seen) then first_occurrences r seen
      else x :: first_occurrences r (x :: seen)
  end.

Definition groups_by_triple (items : list TerritoryRow)
    : list (list TerritoryRow) :=
  map (fun tr => filter (fun t => triple t = tr) items)
    (first_occurrences (map triple items) []).

(** The first row of a group, handed to [mapper] with the group. *)
Definition with_first {T R} (mapper : T -> list T -> R) (group : list T)
    : option R :=
  match group with
  | first :: _ => Some (mapper first group)
  | [] => None
  end.

(** The entries of the member map: every entity sits under its own
    identifier, and no identifier is there twice. *)
Definition own_ids (m : list (string * EntityRef)) : Prop :=
  Forall (fun ke => ref_id ke.2 = ke.1) m /\ NoDup (map fst m).

(** The key of a row, from its name, type and status. *)
Definition key_of_triple (tr : string * string * string) : string :=
  tr.1.1 +:+ "|" +:+ tr.1.2 +:+ "|" +:+ tr.2.

(** The groups a list of rows has under a key function, in the order
    the keys first appear. *)
Definition groups_of {T} (key : T -> string) (items : list T)
    : list (string * list T) :=
  map (fun k => (k, filter (fun t => key t = k) items))
    (first_occurrences (map key items) []).



(** The territories the specification describes: one for each group of
    rows of equal name, type and status. *)
Definition known_by_triple (territories : list TerritoryRow)
    : list KnownTerritory :=
  omap (with_first known_mapper)
    (groups_by_triple (List.filter (has_status "known") territories)).


(** *** Agents (agent tree view, [deduplicateAgents]) *)

Record ChildAgent := mkChildAgent {
  c_id : string;
  c_name : string;
  c_role : string;
  c_status : string;
  c_domain : option string;
  c_entitiesManaged : Z
}.

(** [interface Agent] *)
Record Agent := mkAgent {
  a_id : string;
  a_name : string;
  a_role : string;
  a_status : string;
  a_domain : option string;
  a_description : option string;
  a_entitiesManaged : Z;
  a_parentAgentId : option string;
  a_childAgents : option (list ChildAgent);
  a_createdAt : string;
  a_updatedAt : string
}.

Section Agents.

(** [new Date(s).valueOf()]; [None] is the invalid date. *)
Variable Date_parse : string -> option Z.

(** [new Date(a) > new Date(b)] *)
Definition later (a b : string) : bool :=
  match Date_parse a, Date_parse b with
  | Some x, Some y => (y <? x)%Z
  | _, _ => false
  end.

Definition truthy_opt (s : option string) : bool :=
  match s with Some x => truthy x | None => false end.

(** [`${agent.name}_${agent.role}`] *)
Definition agent_key (agent : Agent) : string :=
  a_name agent +:+ "_" +:+ a_role agent.

(** The updates made to [existing] when [agent] has its key
    (lines 91-109), one after the other. *)
Definition add_count (existing agent : Agent) : Agent :=
  mkAgent (a_id existing) (a_name existing) (a_role existing)
    (a_status existing) (a_domain existing) (a_description existing)
    (a_entitiesManaged existing + a_entitiesManaged agent)%Z
    (a_parentAgentId existing) (a_childAgents existing)
    (a_createdAt existing) (a_updatedAt existing).

Definition prefer_active (existing agent : Agent) : Agent :=
  if String.eqb (a_status agent) "active"
     && negb (String.eqb (a_status existing) "active")
  then mkAgent (a_id existing) (a_name existing) (a_role existing)
         (a_status agent) (a_domain existing) (a_description existing)
         (a_entitiesManaged existing) (a_parentAgentId existing)
         (a_childAgents existing) (a_createdAt existing)
         (a_updatedAt existing)
  else existing.

Definition keep_latest (existing agent : Agent) : Agent :=
  if later (a_createdAt agent) (a_createdAt existing)
  then mkAgent (a_id existing) (a_name existing) (a_role existing)
         (a_status existing) (a_domain existing) (a_description existing)
         (a_entitiesManaged existing) (a_parentAgentId existing)
         (a_childAgents existing) (a_createdAt agent) (a_updatedAt agent)
  else existing.

Definition fill_description (existing agent : Agent) : Agent :=
  if truthy_opt (a_description agent)
     && negb (truthy_opt (a_description existing))
  then mkAgent (a_id existing) (a_name existing) (a_role existing)
         (a_status existing) (a_domain existing) (a_description agent)
         (a_entitiesManaged existing) (a_parentAgentId existing)
         (a_childAgents existing) (a_createdAt existing)
         (a_updatedAt existing)
  else existing.

Definition fill_domain (existing agent : Agent) : Agent :=
  if truthy_opt (a_domain agent) && negb (truthy_opt (a_domain existing))
  then mkAgent (a_id existing) (a_name existing) (a_role existing)
         (a_status existing) (a_domain agent) (a_description existing)
         (a_entitiesManaged existing) (a_parentAgentId existing)
         (a_childAgents existing) (a_createdAt existing)
         (a_updatedAt existing)
  else existing.

Definition merge_into (existing agent : Agent) : Agent :=
  fill_domain
    (fill_description
       (keep_latest (prefer_active (add_count existing agent) agent)
          agent)
       agent)
    agent.

(** One step of [agents.forEach]: the entry of the key is updated in
    place, or a copy of the agent is added at the end. *)
Fixpoint upsert (merged : list (string * Agent)) (key : string)
    (agent : Agent) : list (string * Agent) :=
  match merged with
  | [] => [(key, agent)]
  | (k, existing) :: r =>
      if String.eqb k key then (k, merge_into existing agent) :: r
      else (k, existing) :: upsert r key agent
  end.

Definition merge_all (agents : list Agent) (merged : list (string * Agent))
    : list (string * Agent) :=
  fold_left (fun m agent => upsert m (agent_key agent) agent) agents
    merged.

Definition deduplicateAgents (agents : list Agent) : list Agent :=
  map snd (merge_all agents []).

(** The entries of the map: every agent sits under its own key, and no
    key is there twice. *)
Definition keyed (merged : list (string * Agent)) : Prop :=
  Forall (fun ka => agent_key ka.2 = ka.1) merged
  /\ NoDup (map fst merged).

End Agents.

End Reconcile.

(** ** Vocabulary of the statements about the pass *)

Module PassSpec.
Import Store PlainObject Pass.

(** The rows created for a list of merged entities, numbered from [n]. *)
Fixpoint entity_rows (projectId documentId extractedBy : string) (n : id)
    (l : list EntityData) : list Entity :=
  match l with
  | [] => []
  | d :: r =>
      entity_row projectId documentId extractedBy d n
      :: entity_rows projectId documentId extractedBy (S n) r
  end.

(** The identifier of the last of the rows that has the given name. *)
Definition last_with_name (rows : list Entity) (name : string)
    : option id :=
  entity_id <$> last (filter (fun e => entity_name e = name) rows).

(** The identifiers a relationship resolves to, when both of its names
    are keys of the map. *)
Definition endpoints (entityMap : gmap string id) (rel : RelData)
    : option (id * id) :=
  match entityMap !! rd_source rel, entityMap !! rd_target rel with
  | Some s, Some t => Some (s, t)
  | _, _ => None
  end.

(** The edges of the relationships that resolve, numbered from [n]. *)
Fixpoint edge_rows (projectId documentId : string)
    (entityMap : gmap string id) (n : id) (l : list RelData) : list Edge :=
  match l with
  | [] => []
  | rel :: r =>
      match endpoints entityMap rel with
      | Some (s, t) =>
          mkEdge n projectId s t (rd_label rel)
            (weight_or_1 (rd_weight rel)) documentId
          :: edge_rows projectId documentId entityMap (S n) r
      | None => edge_rows projectId documentId entityMap n r
      end
  end.

(** A relationship one of whose names is found as an inherited member of
    the prototype while the other is truthy: the guard of the edge loop
    passes without two identifiers. *)
Definition reaches_prototype (entityMap : gmap string id) (rel : RelData)
    : bool :=
  let s := get entityMap (rd_source rel) in
  let t := get entityMap (rd_target rel) in
  is_truthy s && is_truthy t
  && negb (match s, t with Own _, Own _ => true | _, _ => false end).

(** The relationships before the first one that reaches the
    prototype. *)
Fixpoint safe_prefix (entityMap : gmap string id) (l : list RelData)
    : list RelData :=
  match l with
  | [] => []
  | rel :: r =>
      if reaches_prototype entityMap rel then []
      else rel :: safe_prefix entityMap r
  end.

(** No relationship reaches the prototype. *)
Definition all_safe (entityMap : gmap string id) (l : list RelData) : bool :=
  forallb (fun rel => negb (reaches_prototype entityMap rel)) l.

(** The identifiers of the rows of a type, in the order of the rows. *)
Definition ids_of_type (type : string) (rows : list Entity) : list id :=
  map entity_id (filter (fun e => entity_type e = type) rows).

(** What the later steps of a pass leave as it was in the entities and
    the edges. *)
Definition rows_frame (st st' : store) : Prop :=
  edges st' = edges st
  /\ map entity_id (entities st') = map entity_id (entities st)
  /\ map entity_name (entities st') = map entity_name (entities st).

(** What the creation of the known territories leaves as it was: all
    tables but the territories, and of the entities everything but their
    territory. *)
Definition known_frame (st st' : store) : Prop :=
  agents st' = agents st /\ edges st' = edges st
  /\ insights st' = insights st /\ documents st' = documents st
  /\ next_id st <= next_id st'
  /\ map entity_id (entities st') = map entity_id (entities st)
  /\ map entity_name (entities st') = map entity_name (entities st).

(** One turn of the loop over the known territories (lines 322-340). *)
Definition known_body `{Builtins} (projectId : string)
    (createdTerritories : list Territory) (kv : string * list id)
    : M (list Territory) :=
  let '(type, entityIds) := kv in
  bind (territory_create
          (known_territory projectId type (length entityIds)))
    (fun territory =>
       bind (entity_updateMany entityIds (territory_id territory))
         (fun _ => ret (createdTerritories ++ [territory]))).

(** The map built from rows ([entityMap[name] = id], row after row). *)
Definition entity_map_of (rows : list Entity) (m : gmap string id)
    : gmap string id :=
  fold_left (fun m e => set m (entity_name e) (entity_id e)) rows m.

Fixpoint insight_rows (projectId : string) (n : id)
    (l : list InsightData) : list Insight :=
  match l with
  | [] => []
  | d :: r => insight_row projectId d n :: insight_rows projectId (S n) r
  end.

Fixpoint frontier_rows (projectId : string) (n : id) (l : list HintData)
    : list Territory :=
  match l with
  | [] => []
  | h :: r =>
      frontier_territory projectId h n :: frontier_rows projectId (S n) r
  end.

(** The explorers of a list of types, numbered from [n]. *)
Fixpoint explorer_rows `{Builtins} (projectId : string)
    (territoriesMap : list (string * list id)) (coordinator : id) (n : id)
    (types : list string) : list Agent :=
  match types with
  | [] => []
  | type :: r =>
      explorer_agent projectId type
        (length (default [] (lookup_own territoriesMap type)))
        coordinator n
      :: explorer_rows projectId territoriesMap coordinator (S n) r
  end.

Definition add_entities (rows : list Entity) (st : store) : store :=
  mkStore (entities st ++ rows) (edges st) (insights st) (territories st)
    (agents st) (documents st) (next_id st + length rows).
Definition add_edges (rows : list Edge) (st : store) : store :=
  mkStore (entities st) (edges st ++ rows) (insights st) (territories st)
    (agents st) (documents st) (next_id st + length rows).
Definition add_insights (rows : list Insight) (st : store) : store :=
  mkStore (entities st) (edges st) (insights st ++ rows) (territories st)
    (agents st) (documents st) (next_id st + length rows).
Definition add_territories (rows : list Territory) (st : store) : store :=
  mkStore (entities st) (edges st) (insights st) (territories st ++ rows)
    (agents st) (documents st) (next_id st + length rows).
Definition add_agents (rows : list Agent) (st : store) : store :=
  mkStore (entities st) (edges st) (insights st) (territories st)
    (agents st ++ rows) (documents st) (next_id st + length rows).

(** The number of merged entities of a type. *)
Definition count_type (type : string) (l : list EntityData) : nat :=
  length (filter (fun d => ed_type d = type) l).

(** The agents created by the pass: the agents of the store after it
    that were not there before. *)
Definition new_agents (before after : store) : list Agent :=
  drop (length (agents before)) (agents after).

Definition new_entities (before after : store) : list Entity :=
  drop (length (entities before)) (entities after).

Definition new_edges (before after : store) : list Edge :=
  drop (length (edges before)) (edges after).

(** The entities read from merged arrays all have a row in the store. *)
Definition materialized (acc : accum) (st : store) : Prop :=
  forall v d, v ∈ allEntities acc -> read_entity v = Some d ->
              ed_name d ∈ map entity_name (entities st).

(** What section 4.5 of the specification asks, in its words: a row for
    each distinct name of the pass, no two rows of the pass with the same
    name. *)
Definition one_row_per_name (before after : store) : Prop :=
  NoDup (map entity_name (new_entities before after)).

End PassSpec.

(** ** Inputs used as examples *)

Module Examples.
Import Store Pass Reconcile.
Local Open Scope char_scope.
Local Open Scope string_scope.

(** [toUpperCase] as it is on text of the ASCII letters, digits and
    signs, which is the only text the examples hold. *)
Definition upper_ascii (c : ascii) : ascii :=
  let n := nat_of_ascii c in
  if (97 <=? n)%nat && (n <=? 122)%nat then ascii_of_nat (n - 32) else c.

Fixpoint upper (s : string) : string :=
  match s with
  | "" => ""
  | String c r => String (upper_ascii c) (upper r)
  end.

#[export] Instance ascii_builtins : Builtins := {| toUpperCase := upper |}.

(** The response of the parsing example of the specification. *)
Definition example_response : string :=
  q "noise {'entities':[],'relationships':[{'a':1}]} trailing".

(** A response in which an object is followed by more braces. *)
Definition two_blocks_response : string :=
  q "{'entities':[{'name':'A','type':'person'}]} and {}".

(** A response whose second field cannot be spread. *)
Definition unspreadable_response : string :=
  q "{'entities':[{'name':'A','type':'person'}],'relationships':5}".

Definition entity (name type : string) : EntityData :=
  mkEntityData name type None None None.

Fixpoint fill (n : nat) (c : ascii) : string :=
  match n with
  | O => ""
  | S k => String c (fill k c)
  end.

(** A text of 250,003 characters in three paragraphs. *)
Definition three_paragraphs : string :=
  fill 83333 "a" +:+ Chunker.sep +:+ fill 83333 "b" +:+ Chunker.sep
  +:+ fill 83333 "c".

(** Three short paragraphs, cut into three chunks by a budget of 5. *)
Definition three_words : string :=
  "hello" +:+ Chunker.sep +:+ "you" +:+ Chunker.sep +:+ "there".

(** A provider whose second call fails and whose other calls answer with
    one entity. *)
Definition second_call_fails : provider :=
  fun i _ =>
    match i with
    | 1 => ProviderError
    | _ => Reply (q "{'entities':[{'name':'Acme','type':'organisation'}]}")
             "llama3.2"
    end.

Definition ollama : Settings := mkSettings "ollama" None.

(** A store holding one uploaded document. *)
Definition store_with (content : string) : store :=
  mkStore [] [] [] [] []
    [mkDocument "doc" "proj" "notes.txt" (Some content) "uploaded" 0 0] 0.

(** The materialization example of the specification. *)
Definition acme_bob_ghost : ExtractionResult :=
  mkResult [entity "Acme" "organisation"; entity "Bob" "person"]
    [mkRelData "Acme" "Ghost" "haunts" 1] [] [].

(** A relationship whose target is the name of a member of
    [Object.prototype]. *)
Definition acme_bob_constructor : ExtractionResult :=
  mkResult [entity "Acme" "organisation"; entity "Bob" "person"]
    [mkRelData "Acme" "constructor" "builds" 1] [] [].

(** Two merged entities with one name. *)
Definition two_named_acme : ExtractionResult :=
  mkResult [entity "Acme" "organisation"; entity "Acme" "client"]
    [mkRelData "Acme" "Acme" "is" 1] [] [].


Definition member (i : string) : EntityRef := mkEntityRef i i "person".



(** Two known rows that differ in name and in type and have the one key
    [A|b|c|known]. *)
Definition bar_rows : list TerritoryRow :=
  [ mkTerritoryRow "t1" "A|b" "c" "known" None None None None None
      [member "e1"];
    mkTerritoryRow "t2" "A" "b|c" "known" None None None None None
      [member "e2"] ].

End Examples.

(** * Further parts of the code

    The callers and the neighbours of the functions above: what the pass
    leaves in every table, the tree built from the merged agents
    ([buildTreeHierarchy] of the agent tree view), the insights route, and
    the placement of the reconciled territories on the hexagonal map. *)

(** ** Vocabulary of the statements about the chunks *)

Module Chunks.
Import Chunker.

(** The group [b] was opened because its first section did not fit into
    the group [a] before it. *)
Definition opened_by_overflow (budget : nat) (a b : list string) : Prop :=
  exists s r, b = s :: r
    /\ (budget
        < String.length (join_blank_lines a +:+ sep +:+ s))%nat.

(** Every group but the first was opened by an overflow of the group
    before it. *)
Fixpoint greedy (budget : nat) (groups : list (list string)) : Prop :=
  match groups with
  | a :: r =>
      match r with
      | b :: _ => opened_by_overflow budget a b /\ greedy budget r
      | [] => True
      end
  | [] => True
  end.

(** The lengths of the chunks, added up. *)
Definition total_length (chunks : list string) : nat :=
  sum_list_with String.length chunks.

(** The lengths of sections, each counted with a blank line. *)
Definition weight (sections : list string) : nat :=
  sum_list_with (fun s => String.length s + 2)%nat sections.

(** [a.concat(b)] field by field. *)
Definition append_accum (a b : accum) : accum :=
  Accum (allEntities a ++ allEntities b)
    (allRelationships a ++ allRelationships b)
    (allInsights a ++ allInsights b)
    (allFrontierHints a ++ allFrontierHints b).

(** What the response of a chunk adds to arrays that are empty. *)
Definition contribution (text : string) : accum :=
  (absorb empty_accum text).1.

End Chunks.

(** ** Vocabulary of the statements about the tables after a pass *)

Module PassRows.
Import PlainObject Store Pass PassSpec.

(** The known territories of the groups, numbered from [n]. *)
Fixpoint known_rows `{Builtins} (projectId : string) (n : id)
    (groups : list (string * list id)) : list Territory :=
  match groups with
  | [] => []
  | (type, ids) :: r =>
      known_territory projectId type (length ids) n
      :: known_rows projectId (S n) r
  end.

(** The entities after each group was assigned to its territory, the
    territories numbered from [n]. *)
Fixpoint assign_known (n : id) (groups : list (string * list id))
    (es : list Entity) : list Entity :=
  match groups with
  | [] => es
  | (_, ids) :: r => assign_known (S n) r (map (assign_territory ids n) es)
  end.

(** The store after the known territories of the groups were created
    (lines 320-340). *)
Definition with_known `{Builtins} (projectId : string)
    (territoriesMap : list (string * list id)) (st : store) : store :=
  mkStore
    (assign_known (next_id st) (entries territoriesMap) (entities st))
    (edges st) (insights st)
    (territories st
     ++ known_rows projectId (next_id st) (entries territoriesMap))
    (agents st) (documents st)
    (next_id st + length (entries territoriesMap)).

Definition new_insights (before after : store) : list Insight :=
  drop (length (insights before)) (insights after).


(** The identifiers of the entities of the store were handed out by
    the store. *)
Definition fresh_ids (st : store) : Prop :=
  Forall (fun e => entity_id e < next_id st) (entities st).

(** A document after a request for [docId]: the same document, and
    unchanged when it is not the document of the request. *)
Definition same_document (docId : string) (d d' : Document) : Prop :=
  document_id d' = document_id d
  /\ document_projectId d' = document_projectId d
  /\ document_filename d' = document_filename d
  /\ document_content d' = document_content d
  /\ (document_id d <> docId -> d' = d).

(** The document as the store has it. *)
Definition document_of (docId : string) (st : store) : option Document :=
  find (fun d => String.eqb (document_id d) docId) (documents st).

(** The store in which the pass starts: the document is marked as
    being processed (lines 107-111). *)
Definition started (docId : string) (st : store) : store :=
  with_documents
    (map (fun d => if String.eqb (document_id d) docId
                   then set_status "processing" d else d)
       (documents st)) st.

(** The tables only grow at their ends, and the identifiers of the
    entities are still those handed out by the store. *)
Definition grows (st st' : store) : Prop :=
  entities st `prefix_of` entities st'
  /\ edges st `prefix_of` edges st'
  /\ insights st `prefix_of` insights st'
  /\ territories st `prefix_of` territories st'
  /\ agents st `prefix_of` agents st'
  /\ next_id st <= next_id st'
  /\ fresh_ids st'.

(** Two name maps that own the same names. *)
Definition same_names (m1 m2 : gmap string id) : Prop :=
  forall k, is_Some (m1 !! k) <-> is_Some (m2 !! k).

End PassRows.

(** ** More inputs used as examples *)

Module MoreExamples.
Import Store Pass Examples.

(** A provider that finds one organisation in every chunk. *)
Definition finds_acme : provider :=
  fun _ _ =>
    Reply (q "{'entities':[{'name':'Acme','type':'organisation'}],'relationships':[{'source':'Acme','target':'Acme','label':'owns'}],'insights':[{'type':'risk','severity':'high','text':'t'}],'frontier_hints':[{'name':'Payroll'}]}")
      "llama3.2".

(** The store after a pass over three chunks. *)
Definition after_one_pass : store :=
  (extract_with 5 ollama None finds_acme "proj" "doc"
     (store_with three_words)).1.

(** A document of three line feeds. *)
Definition blank_lines : string := String nl (String nl (String nl "")).

End MoreExamples.

(** ** The agent tree view: [buildTreeHierarchy] and its helpers *)

Module AgentTree.
Import Reconcile.

(** [interface TreeNode]; the layout fields [x] and [y] are set by the
    drawing library and are not part of the tree that is built. *)
#[warnings="-register-all"]
Inductive TreeNode := mkTreeNode {
  n_id : string;
  n_name : string;
  n_role : string;
  n_status : string;
  n_domain : string;
  n_entitiesManaged : Z;
  n_description : option string;
  n_createdAt : string;
  n_children : option (list TreeNode)
}.

Definition getStatusColor (status : string) : string :=
  if String.eqb status "active" then "#0033CC"
  else if String.eqb status "complete" then "#000000"
  else "#CCCCCC".

(** [s] without the prefix [p], when it starts with it. *)
Fixpoint strip_prefix (p s : string) : option string :=
  match p with
  | "" => Some s
  | String c p' =>
      match s with
      | String d s' => if Ascii.eqb c d then strip_prefix p' s' else None
      | "" => None
      end
  end.

(** [s.replace(pattern, replacement)] for a pattern that is a string:
    the first occurrence is replaced. *)
Fixpoint replace_first (pattern replacement s : string) : string :=
  match strip_prefix pattern s with
  | Some rest => replacement +:+ rest
  | None =>
      match s with
      | "" => ""
      | String c r => String c (replace_first pattern replacement r)
      end
  end.

(** [s || d] *)
Definition or_text (s : option string) (d : string) : string :=
  match s with
  | Some x => if truthy x then x else d
  | None => d
  end.

Section Tree.

Variable Date_parse : string -> option Z.

(** [s.toLowerCase()] *)
Variable toLowerCase : string -> string.

Definition child_node (explorer : Agent) : TreeNode :=
  mkTreeNode (a_id explorer) (a_name explorer) (a_role explorer)
    (a_status explorer)
    (or_text (a_domain explorer)
       (replace_first " explorer" "" (toLowerCase (a_name explorer))))
    (a_entitiesManaged explorer) (a_description explorer)
    (a_createdAt explorer) None.

Definition buildTreeHierarchy (agents : list Agent) : option TreeNode :=
  let deduped := deduplicateAgents Date_parse agents in
  let coordinator :=
    find (fun a => String.eqb (a_role a) "coordinator") deduped in
  let explorers :=
    List.filter (fun a => negb (String.eqb (a_role a) "coordinator"))
      deduped in
  match coordinator with
  | None => None
  | Some coordinator =>
      Some (mkTreeNode (a_id coordinator) (a_name coordinator)
              (a_role coordinator) (a_status coordinator)
              (or_text (a_domain coordinator) "system")
              (a_entitiesManaged coordinator)
              (a_description coordinator) (a_createdAt coordinator)
              (Some (map child_node explorers)))
  end.

(** *** Vocabulary of the statements about the merge *)

(** The agents that have a key, in their order. *)
Definition key_group (key : string) (agents : list Agent) : list Agent :=
  filter (fun a => agent_key a = key) agents.

(** The sum of the entities managed. *)
Definition total (agents : list Agent) : Z :=
  foldr Z.add 0%Z (map a_entitiesManaged agents).

Definition is_active (a : Agent) : bool := String.eqb (a_status a) "active".

(** The merge of the agents of one key: the later ones are merged
    into the first, one after the other. *)
Definition merge_list (group : list Agent) : option Agent :=
  match group with
  | [] => None
  | first :: rest => Some (fold_left (merge_into Date_parse) rest first)
  end.

(** The entry that a group has in the map of the merge. *)
Definition merge_entry (kg : string * list Agent)
    : option (string * Agent) :=
  pair kg.1 <$> merge_list kg.2.

(** The first text of a list that is not empty, and [d] when there is
    none. *)
Definition first_text (d : option string) (l : list (option string))
    : option string :=
  default d (find truthy_opt l).

(** The key of a node of the tree. *)
Definition node_key (n : TreeNode) : string :=
  n_name n +:+ "_" +:+ n_role n.

End Tree.

(** An ASCII [toLowerCase] and a date reader for examples: a date is
    read as the number it is written as. *)
Definition lower_ascii (c : ascii) : ascii :=
  let n := nat_of_ascii c in
  if (65 <=? n)%nat && (n <=? 90)%nat then ascii_of_nat (n + 32) else c.

Fixpoint lower (s : string) : string :=
  match s with
  | "" => ""
  | String c r => String (lower_ascii c) (lower r)
  end.

Definition number_date (s : string) : option Z :=
  Z.of_N <$> PlainObject.decimal_value 0 s.

Definition agent (i name role status : string) (n : Z) (created : string)
    : Agent :=
  mkAgent i name role status None None n None None created created.

(** The agents of two passes. *)
Definition two_passes : list Agent :=
  [ agent "a1" "System Coordinator" "coordinator" "active" 5 "1";
    agent "a2" "Person Explorer" "explorer" "pending" 3 "1";
    agent "a3" "System Coordinator" "coordinator" "active" 4 "2";
    agent "a4" "Person Explorer" "explorer" "active" 4 "2" ].

End AgentTree.

(** ** The insights route, [GET] *)

Module InsightsRoute.

Section Route.

(** The dates of the persistence client, and [d.toISOString()]. *)
Context {Date : Type}.
Variable toISOString : Date -> string.

(** A row as [prisma.insight.findMany] returns it. *)
Record InsightRow := mkInsightRow {
  i_id : string;
  i_type : string;
  i_severity : string;
  i_text : string;
  i_relatedEntityIds : string;
  i_acknowledged : bool;
  i_createdAt : Date
}.

Record FormattedInsight := mkFormatted {
  fi_id : string;
  fi_type : string;
  fi_severity : string;
  fi_text : string;
  fi_relatedEntityIds : json;
  fi_acknowledged : bool;
  fi_createdAt : string
}.

(** [let ids = []; try { ids = JSON.parse(text) } catch {}] *)
Definition parse_or_empty (text : string) : json :=
  match JSON_parse text with
  | Some v => v
  | None => JArr []
  end.

Definition format_insight (insight : InsightRow) : FormattedInsight :=
  mkFormatted (i_id insight) (i_type insight) (i_severity insight)
    (i_text insight) (parse_or_empty (i_relatedEntityIds insight))
    (i_acknowledged insight) (toISOString (i_createdAt insight)).

Record Grouped := mkGrouped {
  g_critical : list FormattedInsight;
  g_warning : list FormattedInsight;
  g_info : list FormattedInsight
}.

Record Counts := mkCounts {
  c_total : nat;
  c_critical : nat;
  c_warning : nat;
  c_info : nat;
  c_unacknowledged : nat
}.

Record Response := mkResponse {
  r_insights : list FormattedInsight;
  r_grouped : Grouped;
  r_counts : Counts
}.

Definition has_severity (s : string) (i : FormattedInsight) : bool :=
  String.eqb (fi_severity i) s.

(** The response for the rows found (lines 17-53). *)
Definition GET (insights : list InsightRow) : Response :=
  let formattedInsights := map format_insight insights in
  let grouped :=
    mkGrouped (List.filter (has_severity "critical") formattedInsights)
      (List.filter (has_severity "warning") formattedInsights)
      (List.filter (has_severity "info") formattedInsights) in
  mkResponse formattedInsights grouped
    (mkCounts (length formattedInsights) (length (g_critical grouped))
       (length (g_warning grouped)) (length (g_info grouped))
       (length (List.filter (fun i => negb (fi_acknowledged i))
                  formattedInsights))).

(** The insights whose severity is none of the three. *)
Definition ungrouped (l : list FormattedInsight)
    : list FormattedInsight :=
  List.filter
    (fun i => negb (has_severity "critical" i
                    || has_severity "warning" i
                    || has_severity "info" i)) l.

End Route.

End InsightsRoute.

(** ** The hexagonal map: placement of the territories
    ([renderHexMap] of the map view, which draws what the territories
    route returns) *)

Module HexMap.

Local Open Scope Z_scope.

(** A cell, in axial coordinates [[q, r]]. *)
Definition cell : Type := Z * Z.

Definition dirs : list cell :=
  [(1, 0); (0, 1); (-1, 1); (-1, 0); (0, -1); (1, -1)].

(** [for (let s = 0; s < radius; s++) { ring.push([q, r]); q += d[0];
    r += d[1] }]: the cells pushed, and the cell reached. *)
Fixpoint side (steps : nat) (d : cell) (pos : cell) : list cell * cell :=
  match steps with
  | O => ([], pos)
  | S k =>
      let '(cells, last) := side k d (pos.1 + d.1, pos.2 + d.2) in
      (pos :: cells, last)
  end.

(** [generateRing(radius)] *)
Definition generateRing (radius : nat) : list cell :=
  match radius with
  | O => [(0, 0)]
  | _ =>
      fst (fold_left
             (fun '(ring, pos) d =>
                let '(cells, last) := side radius d pos in
                (ring ++ cells, last))
             dirs ([], (Z.of_nat radius, - Z.of_nat radius)))
  end.

(** [while (positions.length < n) { positions.push(...generateRing(ring));
    ring++ }]: the positions and the ring reached; [None] when the fuel
    runs out. *)
Fixpoint fill (fuel : nat) (n : nat) (positions : list cell) (ring : nat)
    : option (list cell * nat) :=
  if (length positions <? n)%nat then
    match fuel with
    | O => None
    | S f => fill f n (positions ++ generateRing ring) (S ring)
    end
  else Some (positions, ring).

(** Lines 150-155, for [n] known territories. *)
Definition knownPositions (fuel n : nat) : option (list cell * nat) :=
  fill fuel n (generateRing 0 ++ generateRing 1) 2.

(** Lines 157-162, for [m] frontier territories. *)
Definition frontierPositions (fuel m knownRing : nat)
    : option (list cell * nat) :=
  fill fuel m [] knownRing.

(** [positions[i % positions.length]]; [None] is [undefined]. *)
Definition position_of (positions : list cell) (i : nat) : option cell :=
  match positions with
  | [] => None
  | _ => positions !! (i mod length positions)%nat
  end.

(** The cells of the [n] known and the [m] frontier territories, in
    the order of the territories. *)
Definition layout (fuel n m : nat)
    : option (list (option cell) * list (option cell)) :=
  match knownPositions fuel n with
  | None => None
  | Some (known, knownRing) =>
      match frontierPositions fuel m knownRing with
      | None => None
      | Some (frontier, _) =>
          Some (map (position_of known) (seq 0 n),
                map (position_of frontier) (seq 0 m))
      end
  end.

(** The distance between two cells of the hexagonal grid. *)
Definition distance (a b : cell) : Z :=
  Z.max (Z.abs (a.1 - b.1))
    (Z.max (Z.abs (a.2 - b.2)) (Z.abs ((a.1 + a.2) - (b.1 + b.2)))).

End HexMap.

(** * Properties *)

#[local] Arguments String.append !_ _ / : simpl nomatch.

(** ** Strings *)

Section StringFacts.

Lemma string_length_app (a b : string) :
  String.length (a +:+ b) = (String.length a + String.length b)%nat.
Proof. induction a as [|c a IH]; [done|]. cbn. by rewrite IH. Qed.

Lemma string_app_nil_r (a : string) : a +:+ "" = a.
Proof. induction a as [|c a IH]; [done|]. cbn. by rewrite IH. Qed.

Lemma string_app_assoc (a b c : string) :
  (a +:+ b) +:+ c = a +:+ (b +:+ c).
Proof. induction a as [|x a IH]; [done|]. cbn. by rewrite IH. Qed.

Lemma truthy_true (s : string) : truthy s = true <-> s <> "".
Proof. destruct s; cbn; split; congruence. Qed.

Lemma truthy_false (s : string) : truthy s = false <-> s = "".
Proof. destruct s; cbn; split; congruence. Qed.

Lemma truthy_length (s : string) :
  truthy s = (0 <? String.length s)%nat.
Proof. by destruct s. Qed.

Lemma join_snoc (g : list string) (s : string) :
  g <> [] ->
  join_blank_lines (g ++ [s])
  = join_blank_lines g +:+ String nl (String nl "") +:+ s.
Proof.
  induction g as [|x g IH]; [done|]. intros _.
  destruct g as [|y g]; [done|].
  change (join_blank_lines ((x :: y :: g) ++ [s]))
    with (x +:+ String nl (String nl "") +:+ join_blank_lines ((y :: g) ++ [s])).
  rewrite IH by done.
  change (join_blank_lines (x :: y :: g))
    with (x +:+ String nl (String nl "") +:+ join_blank_lines (y :: g)).
  by rewrite !string_app_assoc.
Qed.

Lemma join_nonempty_head (s : string) (r : list string) :
  s <> "" -> join_blank_lines (s :: r) <> "".
Proof. destruct s; [done|]. intros _. by destruct r. Qed.

End StringFacts.

(** ** Splitting on blank lines *)

Section Split.

Lemma split_from_all_nl (s : string) :
  all_nl s = true -> split_from true s = ("", []).
Proof.
  induction s as [|c s IH]; [done|]. cbn.
  intros [Hc Hs]%andb_prop. rewrite Hc. auto.
Qed.

(** Every section is empty exactly when the text is empty or is one
    separator. *)
Lemma split_from_empty (insep : bool) (s : string) :
  (fst (split_from insep s) = "" /\ Forall (fun x => x = "") (snd (split_from insep s)))
  <-> (if insep then all_nl s = true
       else s = "" \/ (all_nl s = true /\ (2 <= String.length s)%nat)).
Proof.
  revert insep. induction s as [|c s IH]; intros insep.
  { cbn. destruct insep; split; auto. }
  cbn [split_from all_nl].
  destruct (Ascii.eqb c nl) eqn:Hc; cbn [andb].
  - destruct insep.
    + apply (IH true).
    + destruct (starts_with_nl s) eqn:Hs.
      * specialize (IH true). cbn beta iota in IH.
        destruct (split_from true s) as [cur rest]. cbn [fst snd] in *.
        rewrite Forall_cons. split.
        -- intros [_ H]. right. split; [by apply IH|].
           destruct s; [done|]. cbn. lia.
        -- intros [|[H _]]; [done|]. split; [done|]. by apply IH.
      * specialize (IH false). cbn beta iota in IH.
        destruct (split_from false s) as [cur rest]. cbn [fst snd].
        split; [by intros [? _]|].
        intros [|[H1 H2]]; [done|].
        destruct s as [|d s]; [cbn in H2; lia|].
        cbn in Hs. cbn in H1. rewrite Hs in H1. done.
  - destruct (split_from false s) as [cur rest]. cbn [fst snd].
    split; [by intros [? _]|]. destruct insep; [done|].
    intros [|[? _]]; done.
Qed.

Lemma split_blank_lines_empty (s : string) :
  Forall (fun x => x = "") (split_blank_lines s)
  <-> s = "" \/ (all_nl s = true /\ (2 <= String.length s)%nat).
Proof.
  unfold split_blank_lines.
  pose proof (split_from_empty false s) as H. cbn beta iota in H.
  destruct (split_from false s) as [cur rest]. cbn [fst snd] in H.
  by rewrite Forall_cons.
Qed.

End Split.

(** ** Chunker *)

Section ChunkerFacts.
Import Chunker.

Variable budget : nat.

#[local] Abbreviation group_ok := (group_ok budget).
#[local] Abbreviation current_ok := (current_ok budget).

Lemma group_step_chunks st section :
  pack_step budget (map join_blank_lines st.1, join_blank_lines st.2) section
  = (map join_blank_lines (group_step budget st section).1,
     join_blank_lines (group_step budget st section).2).
Proof.
  destruct st as [groups g]. cbn [fst snd]. unfold pack_step, group_step.
  destruct (_ && _) eqn:Hc; cbn [fst snd].
  - by rewrite map_app.
  - destruct (truthy (join_blank_lines g)) eqn:Ht; [|done].
    rewrite join_snoc; [done|]. intros ->. done.
Qed.

Lemma fold_group_chunks sections st :
  pack budget sections (map join_blank_lines st.1, join_blank_lines st.2)
  = (map join_blank_lines (fold_left (group_step budget) sections st).1,
     join_blank_lines (fold_left (group_step budget) sections st).2).
Proof.
  revert st. induction sections as [|s l IH]; intros st; [done|].
  unfold pack in *. cbn [fold_left]. rewrite group_step_chunks. apply IH.
Qed.

(** The chunks are the joins of the recorded groups. *)
Lemma chunk_content_groups content :
  (budget < String.length content)%nat ->
  chunk_content budget content
  = map join_blank_lines (chunk_groups budget content).
Proof.
  intros Hlen. unfold chunk_content, chunk_groups.
  apply Nat.leb_gt in Hlen. rewrite Hlen.
  pose proof (fold_group_chunks (split_blank_lines content) ([], [])) as H.
  cbn [fst snd map join_blank_lines] in H. rewrite H.
  destruct (fold_left _ _ _) as [groups g]. cbn [fst snd].
  destruct (truthy _); [|done]. by rewrite map_app.
Qed.

Lemma group_step_inv st section :
  Forall group_ok st.1 -> current_ok st.2 ->
  Forall group_ok (group_step budget st section).1
  /\ current_ok (group_step budget st section).2
  /\ keep (concat (group_step budget st section).1
           ++ (group_step budget st section).2)
     = keep (concat st.1 ++ st.2) ++ keep [section].
Proof.
  destruct st as [groups g]. cbn [fst snd]. intros Hg Hc.
  unfold group_step.
  destruct (_ && _) eqn:Hcond; cbn [fst snd].
  - apply andb_prop in Hcond as [H1 H2].
    apply Nat.ltb_lt in H1, H2.
    assert (Hne : join_blank_lines g <> "").
    { intros E. rewrite E in H2. cbn in H2. lia. }
    split; [|split].
    + apply Forall_app. split; [done|]. apply Forall_singleton.
      destruct Hc as [->|[->|[Hh Hl]]]; [done..|].
      split; [done|]. destruct Hl as [Hl|[s ->]]; [by left|].
      cbn in *. destruct (decide (String.length s <= budget)%nat).
      * by left.
      * right. exists s. split; [done|lia].
    + right. destruct (decide (section = "")) as [->|Hs]; [by left|].
      right. split; [by exists section, []|]. right. by exists section.
    + rewrite concat_app. cbn [concat]. rewrite app_nil_r.
      unfold keep. rewrite !filter_app. by rewrite <- app_assoc.
  - destruct (truthy (join_blank_lines g)) eqn:Ht.
    + apply truthy_true in Ht.
      apply andb_false_iff in Hcond.
      assert (Hlen : (String.length
                 (join_blank_lines g +:+ sep +:+ section) <= budget)%nat).
      { destruct Hcond as [H|H].
        - by apply Nat.ltb_ge in H.
        - apply Nat.ltb_ge in H. destruct (join_blank_lines g); [done|].
          cbn in H. lia. }
      split; [done|]. split.
      * right. right.
        destruct Hc as [->|[->|[(s & r & -> & Hs) _]]]; [done..|].
        split; [by exists s, (r ++ [section])|]. left.
        rewrite (join_snoc (s :: r)) by done. exact Hlen.
      * unfold keep. rewrite !filter_app. by rewrite <- app_assoc.
    + apply truthy_false in Ht.
      split; [done|]. split.
      * destruct (decide (section = "")) as [->|Hs]; [by right; left|].
        right. right. split; [by exists section, []|]. right. by exists section.
      * assert (Hk : keep g = []).
        { destruct Hc as [->|[->|[(s & r & -> & Hs) _]]]; [done..|].
          by apply join_nonempty_head with (r := r) in Hs. }
        unfold keep in *. rewrite !filter_app, Hk. by rewrite app_nil_r.
Qed.

Lemma fold_group_inv sections st :
  Forall group_ok st.1 -> current_ok st.2 ->
  Forall group_ok (fold_left (group_step budget) sections st).1
  /\ current_ok (fold_left (group_step budget) sections st).2
  /\ keep (concat (fold_left (group_step budget) sections st).1
           ++ (fold_left (group_step budget) sections st).2)
     = keep (concat st.1 ++ st.2) ++ keep sections.
Proof.
  revert st. induction sections as [|s l IH]; intros st Hg Hc.
  { cbn. by rewrite app_nil_r. }
  cbn [fold_left].
  destruct (group_step_inv st s Hg Hc) as (Hg' & Hc' & Hk').
  destruct (IH _ Hg' Hc') as (Hg'' & Hc'' & Hk'').
  split; [done|]. split; [done|]. rewrite Hk'', Hk'.
  rewrite <- app_assoc. f_equal. unfold keep. by rewrite <- filter_app.
Qed.

Lemma chunk_groups_spec content :
  Forall (Chunker.group_ok budget) (chunk_groups budget content)
  /\ keep (concat (chunk_groups budget content))
     = keep (split_blank_lines content).
Proof.
  unfold chunk_groups.
  destruct (fold_group_inv (split_blank_lines content) ([], []))
    as (Hg & Hc & Hk); [done|by left|].
  destruct (fold_left _ _ _) as [groups g]. cbn [fst snd] in *.
  cbn in Hk.
  destruct (truthy (join_blank_lines g)) eqn:Ht.
  - apply truthy_true in Ht. split.
    + apply Forall_app. split; [done|]. apply Forall_singleton.
      destruct Hc as [->|[->|[Hh Hl]]]; [done..|].
      split; [done|]. destruct Hl as [Hl|[s ->]]; [by left|].
      cbn in *. destruct (decide (String.length s <= budget)%nat).
      * by left.
      * right. exists s. split; [done|lia].
    + rewrite concat_app. cbn [concat]. by rewrite app_nil_r.
  - apply truthy_false in Ht. split; [done|].
    rewrite <- Hk. unfold keep. rewrite filter_app.
    assert (Hkg : filter (fun s => s <> "") g = []).
    { destruct Hc as [->|[->|[(s & r & -> & Hs) _]]]; [done..|].
      by apply join_nonempty_head with (r := r) in Hs. }
    by rewrite Hkg, app_nil_r.
Qed.

End ChunkerFacts.

Section ChunkerClaims.
Import Chunker.

Lemma chunk_content_small (budget : nat) (content : string) :
  (String.length content <= budget)%nat ->
  chunk_content budget content = [content].
Proof.
  intros H. unfold chunk_content. apply Nat.leb_le in H. by rewrite H.
Qed.

(** A text of line feeds only, longer than the budget, gives no chunk. *)
Lemma chunk_content_no_chunk :
  chunk_content 1 (String nl (String nl (String nl ""))) = [].
Proof. reflexivity. Qed.

(** C5, as stated, fails on the empty text: its only chunk is empty. *)
Lemma chunker_empty_text_counterexample :
  ~ chunks_as_specified MAX_CONTENT_CHARS ""
      (chunk_content MAX_CONTENT_CHARS "").
Proof.
  assert (chunk_content MAX_CONTENT_CHARS "" = [""]) as -> by reflexivity.
  intros (_ & H & _). by inversion H.
Qed.

(** C5 (amended).  A text no longer than the budget is its own single
    chunk.  A longer text is cut into chunks that are never empty and
    follow the order of the text: each chunk is a run of consecutive
    sections joined by blank lines, the runs cover the non-empty sections
    in order, and a chunk is at most as long as the budget unless it is a
    single section longer than the budget.  There is no chunk at all
    exactly when the longer text consists of two or more line feeds and
    nothing else. *)
Theorem chunker_chunks (budget : nat) (content : string) :
  ((String.length content <= budget)%nat ->
     chunk_content budget content = [content])
  /\ ((budget < String.length content)%nat ->
      exists groups : list (list string),
        chunk_content budget content = map join_blank_lines groups
        /\ filter (fun s => s <> "") (concat groups)
           = filter (fun s => s <> "") (split_blank_lines content)
        /\ Forall (fun g =>
             join_blank_lines g <> ""
             /\ ((String.length (join_blank_lines g) <= budget)%nat
                 \/ exists s, g = [s] /\ In s (split_blank_lines content)
                              /\ (budget < String.length s)%nat)) groups
        /\ (chunk_content budget content = []
            <-> all_nl content = true /\ (2 <= String.length content)%nat)).
Proof.
  split; [apply chunk_content_small|]. intros Hlen.
  exists (chunk_groups budget content).
  destruct (chunk_groups_spec budget content) as [Hg Hk].
  split; [by apply chunk_content_groups|]. split; [exact Hk|].
  assert (Hin : forall g s, g ∈ chunk_groups budget content -> g = [s] ->
                            s <> "" -> In s (split_blank_lines content)).
  { intros g s Hgin -> Hs. apply list_elem_of_In.
    assert (s ∈ keep (concat (chunk_groups budget content))) as H.
    { apply list_elem_of_filter. split; [done|].
      apply list_elem_of_In, in_concat. exists [s].
      split; [by apply list_elem_of_In|by left]. }
    rewrite Hk in H. by apply list_elem_of_filter in H as [_ ?]. }
  split.
  - apply Forall_forall. intros g Hgin.
    rewrite Forall_forall in Hg. destruct (Hg g Hgin) as [(s & r & -> & Hs) Hl].
    split; [by apply join_nonempty_head|].
    destruct Hl as [Hl|(s' & E & Hb)]; [by left|]. right.
    exists s'. split; [done|]. split; [|done].
    apply (Hin _ _ Hgin E). inversion E; by subst.
  - rewrite chunk_content_groups by done. split.
    + intros Hnil. apply map_eq_nil in Hnil. rewrite Hnil in Hk. cbn in Hk.
      assert (Forall (fun x => x = "") (split_blank_lines content)) as HF.
      { apply Forall_forall. intros x Hx.
        destruct (decide (x = "")) as [|Hne]; [done|].
        assert (x ∈ keep (split_blank_lines content)) as Hxk
          by (apply list_elem_of_filter; done).
        rewrite <- Hk in Hxk. by apply elem_of_nil in Hxk. }
      apply split_blank_lines_empty in HF as [->|?]; [|done].
      cbn in Hlen. lia.
    + intros Hall.
      assert (Forall (fun x => x = "") (split_blank_lines content)) as HF.
      { apply split_blank_lines_empty. right. exact Hall. }
      destruct (chunk_groups budget content) as [|g gs] eqn:E; [done|].
      exfalso. apply Forall_cons in Hg as [[(s & r & -> & Hs) _] _].
      assert (s ∈ keep (split_blank_lines content)) as Hsk.
      { rewrite <- Hk. apply list_elem_of_filter. split; [done|].
        cbn. apply list_elem_of_here. }
      apply list_elem_of_filter in Hsk as [_ Hsk].
      rewrite Forall_forall in HF. by apply Hs, HF.
Qed.

(** An instance: a text of ten characters under a budget of five. *)
Lemma chunker_chunks_witness :
  exists groups : list (list string),
    chunk_content 5 ("hello" +:+ sep +:+ "you")
    = map join_blank_lines groups
    /\ filter (fun s => s <> "") (concat groups) = ["hello"; "you"].
Proof.
  destruct (proj2 (chunker_chunks 5 ("hello" +:+ sep +:+ "you")))
    as (groups & H1 & H2 & _).
  - vm_compute. lia.
  - exists groups. split; [exact H1|]. rewrite H2. reflexivity.
Defined.

End ChunkerClaims.

Import Examples.

(** ** Result parser *)

Section Braces.

Lemma has_char_app (c : ascii) (a b : string) :
  has_char c (a +:+ b) = has_char c a || has_char c b.
Proof.
  induction a as [|d a IH]; [done|]. cbn. rewrite IH. by rewrite orb_assoc.
Qed.

Lemma upto_last_close_none (s : string) :
  upto_last_close s = None <-> has_char "}" s = false.
Proof.
  induction s as [|c s IH]; [done|]. cbn.
  destruct (upto_last_close s) as [m|].
  - split; [done|]. intros [_ H]%orb_false_elim.
    destruct IH as [_ IH]. by specialize (IH H).
  - destruct IH as [IH _]. rewrite (IH eq_refl), orb_false_r.
    destruct (Ascii.eqb c "}"); split; done.
Qed.

Lemma upto_last_close_some (s m : string) :
  upto_last_close s = Some m
  <-> exists mid post, s = mid +:+ "}" +:+ post
                       /\ has_char "}" post = false /\ m = mid +:+ "}".
Proof.
  revert m. induction s as [|c s IH]; intros m.
  { split; [done|]. intros (mid & post & E & _). by destruct mid. }
  cbn. destruct (upto_last_close s) as [m'|] eqn:Hs.
  - split.
    + intros [= <-]. destruct (proj1 (IH m') eq_refl) as (mid & post & -> & Hp & ->).
      by exists (String c mid), post.
    + intros (mid & post & E & Hp & ->).
      destruct mid as [|d mid]; cbn in E; injection E as -> ->.
      * apply upto_last_close_none in Hp. congruence.
      * f_equal. cbn. f_equal.
        assert (Some m' = Some (mid +:+ "}")) as H.
        { apply IH. by exists mid, post. }
        congruence.
  - apply upto_last_close_none in Hs.
    destruct (Ascii.eqb c "}") eqn:Hc.
    + apply Ascii.eqb_eq in Hc as ->. split.
      * intros [= <-]. by exists "", s.
      * intros (mid & post & E & Hp & ->).
        destruct mid as [|d mid]; simplify_eq/=; [done|].
        rewrite has_char_app in Hs. cbn in Hs.
        by rewrite orb_true_r in Hs.
    + split; [done|]. intros (mid & post & E & Hp & ->).
      destruct mid as [|d mid]; simplify_eq/=.
      rewrite has_char_app in Hs. cbn in Hs. by rewrite orb_true_r in Hs.
Qed.

(** The match runs from the first opening brace of the text to its last
    closing brace. *)
Lemma match_braces_spec (s b : string) :
  match_braces s = Some b
  <-> exists pre mid post,
        s = pre +:+ "{" +:+ mid +:+ "}" +:+ post
        /\ has_char "{" pre = false /\ has_char "}" post = false
        /\ b = "{" +:+ mid +:+ "}".
Proof.
  revert b. induction s as [|c s IH]; intros b.
  { split; [done|]. intros (pre & mid & post & E & _). by destruct pre. }
  cbn [match_braces]. destruct (Ascii.eqb c "{") eqn:Hc.
  - apply Ascii.eqb_eq in Hc as ->.
    destruct (upto_last_close s) as [m|] eqn:Hs.
    + split.
      * intros [= <-].
        apply upto_last_close_some in Hs as (mid & post & -> & Hp & ->).
        by exists "", mid, post.
      * intros (pre & mid & post & E & Hpre & Hp & ->).
        destruct pre as [|d pre]; simplify_eq/=; try done.
        assert (upto_last_close (mid +:+ "}" +:+ post)
                = Some (mid +:+ "}")) as H.
        { apply upto_last_close_some. by exists mid, post. }
        cbn in H. congruence.
    + apply upto_last_close_none in Hs. split.
      * intros H. apply IH in H as (pre & mid & post & -> & _).
        rewrite has_char_app in Hs. cbn in Hs.
        rewrite has_char_app in Hs. cbn in Hs.
        by rewrite !orb_true_r in Hs.
      * intros (pre & mid & post & E & Hpre & _).
        destruct pre as [|d pre]; simplify_eq/=; try done.
        rewrite has_char_app in Hs. cbn in Hs.
        by rewrite orb_true_r in Hs.
  - rewrite IH. split.
    + intros (pre & mid & post & -> & Hpre & Hp & ->).
      exists (String c pre), mid, post. cbn. by rewrite Hc.
    + intros (pre & mid & post & E & Hpre & Hp & ->).
      destruct pre as [|d pre]; simplify_eq/=; try done.
      rewrite Hc in Hpre. by exists pre, mid, post.
Qed.

End Braces.

Section ParserClaims.

(** C2, as stated, fails: on [two_blocks_response] the block the parser
    takes is not the first balanced block. *)
Lemma parser_balanced_block_counterexample :
  ~ (match_braces two_blocks_response
     = first_balanced_block two_blocks_response).
Proof. vm_compute. discriminate. Qed.

(** On that response the parser gets nothing, where parsing the first
    balanced block would give an entity. *)
Lemma two_blocks_response_parsed :
  absorb empty_accum two_blocks_response = (empty_accum, Caught)
  /\ absorb_balanced empty_accum two_blocks_response
     = (Accum [JObj [("name", JStr "A"); ("type", JStr "person")]] [] [] [],
        Pushed).
Proof. split; vm_compute; reflexivity. Qed.

(** C2 (amended).  The parser takes the text from the first opening brace
    of the response to its last closing brace, and parses that text; on
    the example of the specification this text is the balanced object,
    and the parsed entities are the empty array. *)
Theorem parser_takes_first_to_last_brace :
  (forall text block : string,
     match_braces text = Some block
     <-> exists pre mid post,
           text = pre +:+ "{" +:+ mid +:+ "}" +:+ post
           /\ has_char "{" pre = false /\ has_char "}" post = false
           /\ block = "{" +:+ mid +:+ "}")
  /\ (forall (acc : accum) (text : string),
        absorb acc text = absorb_match acc (match_braces text))
  /\ match_braces example_response
     = Some (q "{'entities':[],'relationships':[{'a':1}]}")
  /\ JSON_parse (q "{'entities':[],'relationships':[{'a':1}]}")
     = Some (JObj [("entities", JArr []);
                   ("relationships", JArr [JObj [("a", JNum 1 0)]])])
  /\ absorb empty_accum example_response
     = (Accum [] [JObj [("a", JNum 1 0)]] [] [], Pushed).
Proof.
  split; [apply match_braces_spec|]. split; [done|].
  repeat split; vm_compute; reflexivity.
Qed.

(** An instance: the block of the example response lies between the
    first opening brace and the last closing brace. *)
Lemma parser_takes_first_to_last_brace_witness :
  exists pre mid post,
    example_response = pre +:+ "{" +:+ mid +:+ "}" +:+ post
    /\ has_char "{" pre = false /\ has_char "}" post = false
    /\ q "{'entities':[],'relationships':[{'a':1}]}"
       = "{" +:+ mid +:+ "}".
Proof.
  apply (proj1 (proj1 parser_takes_first_to_last_brace example_response
                  (q "{'entities':[],'relationships':[{'a':1}]}"))).
  vm_compute. reflexivity.
Defined.

(** C4, as stated, fails: the [try] of [unspreadable_response] ends in
    the [catch], and the entity pushed before the failure stays in the
    merged entities. *)
Lemma failed_chunk_counterexample :
  ~ (snd (absorb empty_accum unspreadable_response) = Caught
     -> fst (absorb empty_accum unspreadable_response) = empty_accum).
Proof.
  intros H.
  assert (snd (absorb empty_accum unspreadable_response) = Caught) as Hc
    by (vm_compute; reflexivity).
  apply H in Hc. vm_compute in Hc. discriminate.
Qed.

Lemma absorb_unparsable (acc : accum) (text : string) :
  (match_braces text = None
   \/ exists block, match_braces text = Some block
                    /\ JSON_parse block = None) ->
  fst (absorb acc text) = acc.
Proof.
  unfold absorb, absorb_match.
  intros [->|(block & -> & ->)]; reflexivity.
Qed.

(** The loop goes on to the next chunk whatever the [try] did. *)
Lemma run_chunks_reply (callAI : provider) (total i : nat) (chunk : string)
    (rest : list string) (acc : accum) (name text model : string) :
  callAI i (prompt_of i total chunk) = Reply text model ->
  run_chunks callAI total i (chunk :: rest) acc name
  = run_chunks callAI total (S i) rest (fst (absorb acc text)) model.
Proof. intros H. cbn [run_chunks]. by rewrite H. Qed.

(** C4 (amended).  When the response of a chunk holds no text between
    braces, or [JSON.parse] rejects that text, the chunk adds nothing to
    the merged arrays and the loop goes on with the chunks after it. *)
Theorem unparsable_chunk_is_skipped (callAI : provider) (total i : nat)
    (chunk : string) (rest : list string) (acc : accum)
    (name text model : string) :
  callAI i (prompt_of i total chunk) = Reply text model ->
  (match_braces text = None
   \/ exists block, match_braces text = Some block
                    /\ JSON_parse block = None) ->
  fst (absorb acc text) = acc
  /\ run_chunks callAI total i (chunk :: rest) acc name
     = run_chunks callAI total (S i) rest acc model.
Proof.
  intros Hcall Hbad. pose proof (absorb_unparsable acc text Hbad) as H.
  split; [done|]. by rewrite (run_chunks_reply _ _ _ _ _ _ _ _ _ Hcall), H.
Qed.

(** An instance: the first of two chunks is answered with text that is
    not JSON, the second with an entity. *)
Lemma unparsable_chunk_is_skipped_witness :
  let callAI : provider := fun i _ =>
    match i with
    | O => Reply "I could not read {this" "m"
    | _ => Reply (q "{'entities':[{'name':'A','type':'person'}]}") "m"
    end in
  run_chunks callAI 2 0 ["one"; "two"] empty_accum "unknown"
  = run_chunks callAI 2 1 ["two"] empty_accum "m".
Proof.
  intros callAI.
  apply (unparsable_chunk_is_skipped callAI 2 0 "one" ["two"] empty_accum
           "unknown" "I could not read {this" "m").
  - reflexivity.
  - left. reflexivity.
Defined.

End ParserClaims.

Import PlainObject Store Pass PassSpec.

(** ** The monad of the pass *)

Section Monad.

Lemma bind_ret_run {A B} (c : M A) (k : A -> M B) (st st' : store) (a : A) :
  c st = (st', Some a) -> bind c k st = k a st'.
Proof. intros H. unfold bind. by rewrite H. Qed.

Lemma bind_throw_run {A B} (c : M A) (k : A -> M B) (st st' : store) :
  c st = (st', None) -> bind c k st = (st', None).
Proof. intros H. unfold bind. by rewrite H. Qed.

(** A relation between stores that every step of a loop respects is
    respected by the loop. *)
Lemma for_each_preserves {A S} (R : store -> store -> Prop)
    `{!Reflexive R, !Transitive R} (l : list A) (body : S -> A -> M S) :
  (forall acc x st, R st (body acc x st).1) ->
  forall acc st, R st (for_each l body acc st).1.
Proof.
  intros Hbody. induction l as [|x l IH]; intros acc st; [done|].
  cbn. unfold bind. specialize (Hbody acc x st).
  destruct (body acc x st) as [st1 [acc1|]]; cbn in *; [|done].
  etrans; [exact Hbody|apply IH].
Qed.

Lemma bind_preserves {A B} (R : store -> store -> Prop)
    `{!Transitive R} (c : M A) (k : A -> M B) (st : store) :
  R st (c st).1 -> (forall a st', R st' (k a st').1) ->
  R st (bind c k st).1.
Proof.
  intros Hc Hk. unfold bind. destruct (c st) as [st1 [a|]]; cbn in *; [|done].
  etrans; [exact Hc|apply Hk].
Qed.

End Monad.

(** ** Materializer *)

Section Entities.

Variables projectId documentId extractedBy : string.

Lemma add_entities_cons (row : Entity) (rows : list Entity) (st : store) :
  add_entities rows (add_entity row st) = add_entities (row :: rows) st.
Proof.
  unfold add_entities, add_entity. cbn. f_equal.
  - by rewrite <- app_assoc.
  - lia.
Qed.

Lemma add_entities_nil (st : store) : add_entities [] st = st.
Proof.
  destruct st. unfold add_entities. cbn. f_equal.
  - apply app_nil_r.
  - lia.
Qed.

Lemma create_entities_loop (l : list EntityData) :
  forall (m : gmap string id) (created : list Entity) (st : store),
    for_each l
      (fun '(entityMap, createdEntities) entityData =>
         bind (entity_create projectId documentId extractedBy entityData)
           (fun entity =>
              ret (set entityMap (ed_name entityData) (entity_id entity),
                   createdEntities ++ [entity])))
      (m, created) st
    = (add_entities
         (entity_rows projectId documentId extractedBy (next_id st) l) st,
       Some (entity_map_of
               (entity_rows projectId documentId extractedBy (next_id st) l)
               m,
             created
             ++ entity_rows projectId documentId extractedBy (next_id st) l)).
Proof.
  induction l as [|d l IH]; intros m created st.
  - cbn. by rewrite add_entities_nil, app_nil_r.
  - cbn [for_each entity_rows]. unfold bind at 1. cbn.
    rewrite IH. cbn. rewrite add_entities_cons.
    by rewrite <- app_assoc.
Qed.

Lemma create_entities_run (l : list EntityData) (st : store) :
  create_entities projectId documentId extractedBy l st
  = (add_entities
       (entity_rows projectId documentId extractedBy (next_id st) l) st,
     Some (entity_map_of
             (entity_rows projectId documentId extractedBy (next_id st) l) ∅,
           entity_rows projectId documentId extractedBy (next_id st) l)).
Proof. unfold create_entities. by rewrite create_entities_loop. Qed.

Lemma entity_rows_names (n : id) (l : list EntityData) :
  map entity_name (entity_rows projectId documentId extractedBy n l)
  = map ed_name l.
Proof. revert n. induction l as [|d l IH]; intros n; cbn; [done|]. by rewrite IH. Qed.

Lemma entity_rows_types (n : id) (l : list EntityData) :
  map entity_type (entity_rows projectId documentId extractedBy n l)
  = map ed_type l.
Proof. revert n. induction l as [|d l IH]; intros n; cbn; [done|]. by rewrite IH. Qed.

Lemma entity_rows_ids (n : id) (l : list EntityData) :
  map entity_id (entity_rows projectId documentId extractedBy n l)
  = seq n (length l).
Proof. revert n. induction l as [|d l IH]; intros n; cbn; [done|]. by rewrite IH. Qed.

Lemma entity_rows_length (n : id) (l : list EntityData) :
  length (entity_rows projectId documentId extractedBy n l) = length l.
Proof. revert n. induction l as [|d l IH]; intros n; cbn; [done|]. by rewrite IH. Qed.

End Entities.

Section EntityMap.

Lemma set_lookup (m : gmap string id) (k k' : string) (i : id) :
  set m k i !! k'
  = if decide (k = "__proto__") then m !! k'
    else if decide (k = k') then Some i else m !! k'.
Proof.
  unfold set. destruct (String.eqb_spec k "__proto__") as [->|Hk].
  - by rewrite decide_True.
  - rewrite decide_False by done. by rewrite lookup_insert.
Qed.

Lemma last_with_name_snoc (rows : list Entity) (e : Entity) (name : string) :
  last_with_name (rows ++ [e]) name
  = if decide (entity_name e = name) then Some (entity_id e)
    else last_with_name rows name.
Proof.
  unfold last_with_name. rewrite filter_app, filter_cons, filter_nil.
  destruct (decide (entity_name e = name)).
  - by rewrite last_snoc.
  - by rewrite app_nil_r.
Qed.

(** The map never owns ["__proto__"], and under every other name it holds
    the identifier of the last row of that name. *)
Lemma entity_map_of_lookup (rows : list Entity) :
  entity_map_of rows ∅ !! "__proto__" = None
  /\ forall name, name <> "__proto__" ->
                  entity_map_of rows ∅ !! name = last_with_name rows name.
Proof.
  induction rows as [|e rows IH] using rev_ind; [done|].
  unfold entity_map_of in *. rewrite fold_left_app. cbn.
  destruct IH as [IH1 IH2]. split.
  - rewrite set_lookup. by destruct (decide _).
  - intros name Hname. rewrite set_lookup, last_with_name_snoc.
    destruct (decide (entity_name e = "__proto__")) as [E|E].
    + rewrite decide_False by congruence. by apply IH2.
    + destruct (decide _); [done|by apply IH2].
Qed.


End EntityMap.

Section Edges.

Variables projectId documentId : string.
Variable entityMap : gmap string id.

Lemma add_edges_nil (st : store) : add_edges [] st = st.
Proof.
  destruct st. unfold add_edges. cbn. f_equal; [apply app_nil_r|lia].
Qed.

Lemma add_edges_cons (row : Edge) (rows : list Edge) (st : store) :
  add_edges rows (add_edge row st) = add_edges (row :: rows) st.
Proof.
  unfold add_edges, add_edge. cbn. f_equal; [by rewrite <- app_assoc|lia].
Qed.

(** One relationship: an exception when it reaches the prototype, an
    edge when both names are keys of the map, nothing otherwise. *)
Lemma create_edge_run (created : list Edge) (rel : RelData) (st : store) :
  create_edge projectId documentId entityMap created rel st
  = if reaches_prototype entityMap rel then (st, None)
    else match endpoints entityMap rel with
         | Some (s, t) =>
             let row := mkEdge (next_id st) projectId s t (rd_label rel)
                          (weight_or_1 (rd_weight rel)) documentId in
             (add_edge row st, Some (created ++ [row]))
         | None => (st, Some created)
         end.
Proof.
  unfold create_edge, reaches_prototype, endpoints, get.
  destruct (entityMap !! rd_source rel) as [s|];
    destruct (entityMap !! rd_target rel) as [t|]; cbn;
    repeat (destruct (is_prototype_key _); cbn); reflexivity.
Qed.

Lemma create_edges_loop (l : list RelData) :
  forall (created : list Edge) (st : store),
    for_each l (create_edge projectId documentId entityMap) created st
    = (add_edges
         (edge_rows projectId documentId entityMap (next_id st)
            (safe_prefix entityMap l)) st,
       if all_safe entityMap l
       then Some (created
                  ++ edge_rows projectId documentId entityMap (next_id st) l)
       else None).
Proof.
  induction l as [|rel l IH]; intros created st.
  - cbn. by rewrite add_edges_nil, app_nil_r.
  - cbn [for_each safe_prefix edge_rows all_safe forallb]. unfold bind.
    rewrite create_edge_run.
    destruct (reaches_prototype entityMap rel); cbn.
    { by rewrite add_edges_nil. }
    destruct (endpoints entityMap rel) as [[s t]|].
    + cbn. rewrite IH. cbn. rewrite add_edges_cons.
      unfold all_safe. destruct (forallb _ l); [|done].
      by rewrite <- app_assoc.
    + apply IH.
Qed.

Lemma create_edges_run (l : list RelData) (st : store) :
  create_edges projectId documentId entityMap l st
  = (add_edges
       (edge_rows projectId documentId entityMap (next_id st)
          (safe_prefix entityMap l)) st,
     if all_safe entityMap l
     then Some (edge_rows projectId documentId entityMap (next_id st) l)
     else None).
Proof. unfold create_edges. by rewrite create_edges_loop. Qed.

Lemma safe_prefix_all (l : list RelData) :
  all_safe entityMap l = true -> safe_prefix entityMap l = l.
Proof.
  induction l as [|rel l IH]; [done|]. cbn.
  intros [H1 H2]%andb_prop. apply negb_true_iff in H1. rewrite H1.
  by rewrite IH.
Qed.



(** When no name of the relationships is missing from the map, none
    reaches the prototype... and none does when no missing name is a key
    of the prototype. *)
Lemma all_safe_intro (l : list RelData) :
  Forall (fun rel =>
            (entityMap !! rd_source rel = None
               -> rd_source rel ∉ prototype_keys)
            /\ (entityMap !! rd_target rel = None
                  -> rd_target rel ∉ prototype_keys)) l ->
  all_safe entityMap l = true.
Proof.
  intros H. apply forallb_forall. intros rel Hin.
  rewrite Forall_forall in H. destruct (H rel) as [H1 H2].
  { by apply list_elem_of_In. }
  apply negb_true_iff. unfold reaches_prototype, get, is_prototype_key.
  destruct (entityMap !! rd_source rel) as [s|];
    destruct (entityMap !! rd_target rel) as [t|]; cbn; try done.
  - rewrite bool_decide_false by auto. done.
  - rewrite bool_decide_false by auto. done.
  - rewrite bool_decide_false by auto. done.
Qed.

End Edges.

Section OtherRows.

Context {builtins : Builtins}.

Variable projectId : string.

Lemma add_insights_nil (st : store) : add_insights [] st = st.
Proof.
  destruct st. unfold add_insights. cbn. f_equal; [apply app_nil_r|lia].
Qed.

Lemma create_insights_loop (l : list InsightData) :
  forall (created : list Insight) (st : store),
    for_each l
      (fun createdInsights insightData =>
         bind (insight_create projectId insightData)
           (fun insight => ret (createdInsights ++ [insight])))
      created st
    = (add_insights (insight_rows projectId (next_id st) l) st,
       Some (created ++ insight_rows projectId (next_id st) l)).
Proof.
  induction l as [|d l IH]; intros created st.
  - cbn. by rewrite add_insights_nil, app_nil_r.
  - cbn [for_each insight_rows]. unfold bind at 1. cbn. rewrite IH. cbn.
    unfold add_insights, add_insight. cbn.
    rewrite <- !app_assoc. cbn. do 2 f_equal. lia.
Qed.

Lemma create_insights_run (l : list InsightData) (st : store) :
  create_insights projectId l st
  = (add_insights (insight_rows projectId (next_id st) l) st,
     Some (insight_rows projectId (next_id st) l)).
Proof. unfold create_insights. by rewrite create_insights_loop. Qed.

Lemma add_territories_nil (st : store) : add_territories [] st = st.
Proof.
  destruct st. unfold add_territories. cbn. f_equal; [apply app_nil_r|lia].
Qed.

Lemma create_frontier_run (l : list HintData) :
  forall (created : list Territory) (st : store),
    create_frontier projectId l created st
    = (add_territories (frontier_rows projectId (next_id st) l) st,
       Some (created ++ frontier_rows projectId (next_id st) l)).
Proof.
  unfold create_frontier.
  induction l as [|d l IH]; intros created st.
  - cbn. by rewrite add_territories_nil, app_nil_r.
  - cbn [for_each frontier_rows]. unfold bind at 1. cbn. rewrite IH. cbn.
    unfold add_territories, add_territory. cbn.
    rewrite <- !app_assoc. cbn. do 2 f_equal. lia.
Qed.

Lemma add_agents_nil (st : store) : add_agents [] st = st.
Proof.
  destruct st. unfold add_agents. cbn. f_equal; [apply app_nil_r|lia].
Qed.

Lemma explorers_loop (territoriesMap : list (string * list id))
    (coordinator : id) (types : list string) :
  Forall (fun type => is_Some (lookup_own territoriesMap type)) types ->
  forall (created : list Agent) (st : store),
    for_each types
      (fun createdAgents type =>
         match lookup_own territoriesMap type with
         | Some entityIds =>
             bind (agent_create
                     (explorer_agent projectId type (length entityIds)
                        coordinator))
               (fun agent => ret (createdAgents ++ [agent]))
         | None => throw
         end)
      created st
    = (add_agents
         (explorer_rows projectId territoriesMap coordinator (next_id st)
            types) st,
       Some (created
             ++ explorer_rows projectId territoriesMap coordinator
                  (next_id st) types)).
Proof.
  induction types as [|type types IH]; intros Hall created st.
  - cbn. by rewrite add_agents_nil, app_nil_r.
  - apply Forall_cons in Hall as [[ids Hids] Hall].
    cbn [for_each explorer_rows]. unfold bind at 1. rewrite Hids. cbn.
    unfold bind at 1. cbn. rewrite (IH Hall). cbn.
    unfold add_agents, add_agent. cbn.
    rewrite <- !app_assoc. cbn. do 2 f_equal. lia.
Qed.

End OtherRows.

(** ** Territory deriver and agent hierarchy builder *)

Section OwnProperties.

Context {V : Type}.
Implicit Types m : list (string * V).

Lemma lookup_own_app m (k k' : string) (v : V) :
  lookup_own (m ++ [(k, v)]) k'
  = match lookup_own m k' with
    | Some x => Some x
    | None => if decide (k = k') then Some v else None
    end.
Proof.
  induction m as [|[k0 v0] m IH]; cbn.
  - destruct (String.eqb_spec k k'); by destruct (decide _).
  - destruct (String.eqb k0 k'); [done|apply IH].
Qed.

Lemma lookup_own_replace m (k k' : string) (v : V) :
  lookup_own (replace_own m k v) k'
  = if decide (k = k') then (match lookup_own m k with
                             | Some _ => Some v
                             | None => None
                             end)
    else lookup_own m k'.
Proof.
  induction m as [|[k0 v0] m IH]; cbn.
  - by destruct (decide _).
  - destruct (String.eqb_spec k0 k) as [->|Hk]; cbn.
    + destruct (String.eqb_spec k k') as [->|Hk'].
      * by rewrite decide_True.
      * by rewrite decide_False.
    + destruct (String.eqb_spec k0 k') as [->|Hk'].
      * by rewrite decide_False.
      * apply IH.
Qed.

Lemma replace_own_keys m (k : string) (v : V) :
  map fst (replace_own m k v) = map fst m.
Proof.
  induction m as [|[k0 v0] m IH]; cbn; [done|].
  destruct (String.eqb k0 k); cbn; [done|]. by rewrite IH.
Qed.

Lemma lookup_own_None m (k : string) :
  lookup_own m k = None <-> k ∉ map fst m.
Proof.
  induction m as [|[k0 v0] m IH]; cbn.
  - split; [intros _ H; by apply elem_of_nil in H|done].
  - rewrite not_elem_of_cons.
    destruct (String.eqb_spec k0 k) as [->|Hk].
    + split; [done|]. by intros [? _].
    + rewrite IH. split; [intros ?; split; [congruence|done]|by intros [_ ?]].
Qed.

Lemma lookup_own_elem m (k : string) (v : V) :
  NoDup (map fst m) -> (k, v) ∈ m <-> lookup_own m k = Some v.
Proof.
  induction m as [|[k0 v0] m IH]; cbn.
  - intros _. split; [by intros ?%elem_of_nil|done].
  - intros [Hk0 Hnd]%NoDup_cons. rewrite elem_of_cons.
    destruct (String.eqb_spec k0 k) as [->|Hk].
    + split.
      * intros [[= ->]|Hin]; [done|]. exfalso. apply Hk0.
        apply list_elem_of_fmap. by exists (k, v).
      * intros [= ->]. by left.
    + rewrite <- (IH Hnd). split; [|by right].
      intros [[= -> ->]|?]; done.
Qed.

Lemma lookup_own_is_Some m (k : string) (v : V) :
  (k, v) ∈ m -> is_Some (lookup_own m k).
Proof.
  intros Hin. destruct (lookup_own m k) eqn:E; [done|].
  apply lookup_own_None in E. exfalso. apply E.
  apply list_elem_of_fmap. by exists (k, v).
Qed.

(** [Object.entries] lists every own property once. *)
Lemma entries_Permutation m : entries m ≡ₚ m.
Proof.
  unfold entries. rewrite merge_sort_Permutation.
  assert (map snd (indexed m)
          = filter (fun kv => ¬ array_index kv.1 = None) m) as ->.
  { unfold indexed. induction m as [|kv m IH]; [done|].
    rewrite filter_cons. csimpl. destruct (array_index kv.1) eqn:E; cbn.
    - rewrite decide_True by done. by rewrite IH.
    - rewrite decide_False by (intros H; by apply H). apply IH. }
  rewrite Permutation_app_comm. apply filter_app_complement.
Qed.

End OwnProperties.

Section TypeGroups.

(** After the grouping loop, a type owns the identifiers it had followed
    by those of the rows of that type, and the keys stay distinct. *)
Lemma group_by_type_spec (rows : list Entity) :
  forall (m m' : list (string * list id)),
    NoDup (map fst m) ->
    group_by_type m rows = Some m' ->
    NoDup (map fst m')
    /\ forall type,
         lookup_own m' type
         = match lookup_own m type, ids_of_type type rows with
           | Some ids, new => Some (ids ++ new)
           | None, [] => None
           | None, new => Some new
           end.
Proof.
  induction rows as [|e rows IH]; intros m m' Hnd.
  { intros [= <-]. split; [done|]. intros type. unfold ids_of_type. cbn.
    destruct (lookup_own m type); [by rewrite app_nil_r|done]. }
  cbn [group_by_type]. unfold group_entity.
  destruct (lookup_own m (entity_type e)) as [ids|] eqn:Hl.
  - intros H. apply IH in H as [Hnd' Hl']; [|by rewrite replace_own_keys].
    split; [done|]. intros type. rewrite Hl', lookup_own_replace.
    unfold ids_of_type. rewrite filter_cons.
    destruct (decide (entity_type e = type)) as [<-|Hne].
    + rewrite Hl. cbn. by rewrite <- app_assoc.
    + done.
  - destruct (is_prototype_key (entity_type e)); [done|].
    intros H. apply IH in H as [Hnd' Hl'].
    + split; [done|]. intros type. rewrite Hl', lookup_own_app.
      unfold ids_of_type. rewrite filter_cons.
      destruct (decide (entity_type e = type)) as [<-|Hne].
      * rewrite Hl. done.
      * by destruct (lookup_own m type).
    + rewrite map_app. cbn. apply NoDup_app. split; [done|].
      split; [|apply NoDup_singleton].
      intros k Hk ->%list_elem_of_singleton.
      by apply lookup_own_None in Hl.
Qed.

Lemma group_by_type_completes (rows : list Entity) :
  forall m : list (string * list id),
    Forall (fun e => entity_type e ∉ prototype_keys) rows ->
    is_Some (group_by_type m rows).
Proof.
  induction rows as [|e rows IH]; intros m; [done|].
  intros [He Hrows]%Forall_cons. cbn. unfold group_entity.
  destruct (lookup_own m (entity_type e)); [by apply IH|].
  unfold is_prototype_key. rewrite bool_decide_false by done. by apply IH.
Qed.

Lemma ids_of_type_length (projectId documentId extractedBy type : string)
    (n : id) (l : list EntityData) :
  length (ids_of_type type
            (entity_rows projectId documentId extractedBy n l))
  = count_type type l.
Proof.
  unfold ids_of_type, count_type. rewrite length_map.
  revert n. induction l as [|d l IH]; intros n; [done|].
  cbn [entity_rows]. rewrite !filter_cons. cbn [entity_type entity_row].
  destruct (decide (ed_type d = type)); cbn; by rewrite IH.
Qed.

End TypeGroups.

Section KnownTerritories.

Context {builtins : Builtins}.

#[local] Instance known_frame_refl : Reflexive known_frame.
Proof. by intros st. Qed.

#[local] Instance known_frame_trans : Transitive known_frame.
Proof.
  intros a b c (?&?&?&?&?&?&?) (?&?&?&?&?&?&?).
  repeat split; try congruence. lia.
Qed.

Lemma assign_territory_keeps (ids : list id) (t : id) (l : list Entity) :
  map entity_id (map (assign_territory ids t) l) = map entity_id l
  /\ map entity_name (map (assign_territory ids t) l) = map entity_name l.
Proof.
  rewrite !map_map. split; apply map_ext; intros e;
    unfold assign_territory; by destruct (bool_decide _).
Qed.

Lemma known_body_run (projectId : string) (created : list Territory)
    (kv : string * list id) (st : store) :
  exists st' row,
    known_body projectId created kv st = (st', Some (created ++ [row]))
    /\ known_frame st st'.
Proof.
  destruct kv as [type ids]. eexists _, _. split; [reflexivity|].
  unfold known_frame. cbn.
  destruct (assign_territory_keeps ids (next_id st) (entities st)).
  repeat split; try done. lia.
Qed.

Lemma create_known_loop (projectId : string)
    (es : list (string * list id)) :
  forall (created : list Territory) (st : store),
    exists st' known,
      for_each es (known_body projectId) created st = (st', Some known)
      /\ known_frame st st'
      /\ length known = (length created + length es)%nat.
Proof.
  induction es as [|kv es IH]; intros created st.
  - exists st, created. cbn. split; [done|]. split; [done|lia].
  - cbn [for_each]. unfold bind.
    destruct (known_body_run projectId created kv st) as (st1 & row & -> & Hf1).
    destruct (IH (created ++ [row]) st1) as (st' & known & -> & Hf & Hlen).
    exists st', known. split; [done|]. split; [by etrans|].
    rewrite Hlen, length_app. cbn. lia.
Qed.

Lemma create_known_run (projectId : string)
    (territoriesMap : list (string * list id)) (st : store) :
  exists st' known,
    create_known projectId territoriesMap st = (st', Some known)
    /\ known_frame st st'
    /\ length known = length territoriesMap.
Proof.
  destruct (create_known_loop projectId (entries territoriesMap) [] st)
    as (st' & known & E & Hf & Hlen).
  exists st', known. split; [exact E|]. split; [done|].
  rewrite Hlen. cbn. apply Permutation_length, entries_Permutation.
Qed.

End KnownTerritories.

Section AgentRows.

Context {builtins : Builtins}.

Variable projectId : string.
Variable territoriesMap : list (string * list id).

Lemma majorTypes_own :
  Forall (fun type => is_Some (lookup_own territoriesMap type))
    (majorTypes territoriesMap).
Proof.
  apply Forall_forall. intros type Hin. unfold majorTypes in Hin.
  apply list_elem_of_fmap in Hin as ([k ids] & -> & Hin).
  apply list_elem_of_filter in Hin as [_ Hin].
  rewrite entries_Permutation in Hin. by eapply lookup_own_is_Some.
Qed.

Lemma create_agents_run (created : list Entity) (st : store) :
  create_agents projectId territoriesMap created st
  = (add_agents
       (coordinator_agent projectId (length created) (next_id st)
        :: explorer_rows projectId territoriesMap (next_id st)
             (S (next_id st)) (majorTypes territoriesMap)) st,
     Some (coordinator_agent projectId (length created) (next_id st)
           :: explorer_rows projectId territoriesMap (next_id st)
                (S (next_id st)) (majorTypes territoriesMap))).
Proof.
  unfold create_agents. unfold bind at 1. cbn.
  rewrite (explorers_loop projectId territoriesMap _ _ majorTypes_own).
  cbn. unfold add_agents, add_agent. cbn.
  rewrite <- !app_assoc. cbn. do 2 f_equal. lia.
Qed.

(** The types with an explorer are those that own three identifiers or
    more. *)
Lemma majorTypes_spec (type : string) :
  NoDup (map fst territoriesMap) ->
  type ∈ majorTypes territoriesMap
  <-> exists ids, lookup_own territoriesMap type = Some ids
                  /\ (3 <= length ids)%nat.
Proof.
  intros Hnd. unfold majorTypes. rewrite list_elem_of_fmap. split.
  - intros ([k ids] & -> & Hin).
    apply list_elem_of_filter in Hin as [Hbig Hin].
    rewrite entries_Permutation in Hin.
    exists ids. split; [by apply lookup_own_elem|].
    by apply Nat.leb_le in Hbig.
  - intros (ids & Hl & Hbig). exists (type, ids). split; [done|].
    apply list_elem_of_filter. split; [by apply Nat.leb_le|].
    rewrite entries_Permutation. by apply lookup_own_elem.
Qed.

Lemma majorTypes_NoDup :
  NoDup (map fst territoriesMap) -> NoDup (majorTypes territoriesMap).
Proof.
  intros Hnd. unfold majorTypes.
  assert (NoDup (map fst (entries territoriesMap))) as He
    by (by rewrite entries_Permutation).
  revert He. generalize (entries territoriesMap). intros es.
  induction es as [|[k ids] es IH]; [done|]. cbn [map fst].
  intros [Hk Hes]%NoDup_cons. rewrite filter_cons.
  destruct (decide _); cbn [map fst]; [|by apply IH].
  apply NoDup_cons. split; [|by apply IH].
  intros Hin. apply Hk. apply list_elem_of_fmap in Hin as (kv & -> & Hin).
  apply list_elem_of_filter in Hin as [_ Hin].
  apply list_elem_of_fmap. by exists kv.
Qed.



End AgentRows.

(** ** The pass as a whole *)

Section Materialize.

Context {builtins : Builtins}.

Variables projectId documentId extractorName : string.
Variable r : ExtractionResult.

#[local] Instance rows_frame_refl : Reflexive rows_frame.
Proof. by intros st. Qed.

#[local] Instance rows_frame_trans : Transitive rows_frame.
Proof. intros a b c (?&?&?) (?&?&?). repeat split; congruence. Qed.

Lemma known_frame_rows (st st' : store) :
  known_frame st st' -> rows_frame st st'.
Proof. intros (?&?&?&?&?&?&?). by repeat split. Qed.

Lemma document_update_frame (docId : string) (f : Document -> Document)
    (st : store) :
  let st' := (document_update docId f st).1 in
  entities st' = entities st /\ edges st' = edges st
  /\ agents st' = agents st /\ insights st' = insights st
  /\ territories st' = territories st /\ next_id st' = next_id st.
Proof. unfold document_update. by destruct (existsb _ _). Qed.

(** The steps after the edges change neither the edges nor the
    identifiers and names of the entities. *)
Lemma after_edges_frame (createdEntities : list Entity)
    (createdEdges : list Edge) (st : store) :
  rows_frame st
    (after_edges projectId documentId r createdEntities createdEdges st).1.
Proof.
  unfold after_edges. unfold bind at 1. rewrite create_insights_run.
  set (st1 := add_insights _ st).
  assert (rows_frame st st1) as H1 by done.
  etrans; [exact H1|]. clear H1. generalize st1. clear st1. intros st1.
  destruct (group_by_type [] createdEntities) as [tm|]; [|done].
  unfold bind at 1.
  destruct (create_known_run projectId tm st1) as (st2 & known & -> & Hf & _).
  etrans; [by apply known_frame_rows|].
  unfold bind at 1. rewrite create_frontier_run.
  unfold bind at 1. rewrite create_agents_run.
  unfold bind at 1.
  match goal with |- context [document_update ?d ?f ?s] =>
    pose proof (document_update_frame d f s) as Hd;
    destruct (document_update d f s) as [st5 [[]|]] end;
    cbn in Hd |- *; destruct Hd as (He & Hed & _);
    unfold rows_frame; by rewrite He, Hed.
Qed.

(** The pass up to the edges. *)
Lemma materialize_unfold (st : store) :
  let rows := entity_rows projectId documentId extractorName (next_id st)
                (r_entities r) in
  let entityMap := entity_map_of rows ∅ in
  let st1 := add_entities rows st in
  let erows := edge_rows projectId documentId entityMap (next_id st1)
                 (r_relationships r) in
  materialize projectId documentId extractorName r st
  = if all_safe entityMap (r_relationships r)
    then after_edges projectId documentId r rows erows
           (add_edges erows st1)
    else (add_edges
            (edge_rows projectId documentId entityMap (next_id st1)
               (safe_prefix entityMap (r_relationships r))) st1, None).
Proof.
  intros rows entityMap st1 erows. unfold materialize.
  rewrite (bind_ret_run _ _ _ _ _ (create_entities_run _ _ _ _ _)).
  fold rows. fold entityMap. fold st1. unfold bind. rewrite create_edges_run.
  destruct (all_safe entityMap (r_relationships r)) eqn:E; [|done].
  by rewrite (safe_prefix_all _ _ E).
Qed.

(** Entities and edges of a pass, whatever its end: the entities are
    those of the store followed by one row for each merged entity, in
    order; the edges are those of the store followed by the edges of the
    relationships that resolve, up to the first one that reaches the
    prototype. *)
Lemma materialize_rows (st : store) :
  let st' := (materialize projectId documentId extractorName r st).1 in
  let rows := entity_rows projectId documentId extractorName (next_id st)
                (r_entities r) in
  let entityMap := entity_map_of rows ∅ in
  map entity_id (entities st')
  = map entity_id (entities st) ++ seq (next_id st) (length (r_entities r))
  /\ map entity_name (entities st')
     = map entity_name (entities st) ++ map ed_name (r_entities r)
  /\ edges st'
     = edges st
       ++ edge_rows projectId documentId entityMap
            (next_id st + length (r_entities r))
            (safe_prefix entityMap (r_relationships r)).
Proof.
  intros st' rows entityMap. subst st'. rewrite materialize_unfold.
  fold rows. fold entityMap.
  destruct (all_safe entityMap (r_relationships r)) eqn:E.
  - match goal with |- context [after_edges _ _ _ ?ce ?ed ?s] =>
      destruct (after_edges_frame ce ed s) as (He & Hi & Hnm) end.
    rewrite He, Hi, Hnm. cbn. rewrite !map_app. unfold rows.
    by rewrite entity_rows_ids, entity_rows_names, entity_rows_length,
      (safe_prefix_all _ _ E).
  - cbn. rewrite !map_app. unfold rows.
    by rewrite entity_rows_ids, entity_rows_names, entity_rows_length.
Qed.

End Materialize.

Section CompletedPass.

Context {builtins : Builtins}.

Variables projectId documentId extractorName : string.
Variable r : ExtractionResult.

Lemma document_update_status (docId s : string)
    (f : Document -> Document) (st st' : store) :
  (forall d, document_status (f d) = s) ->
  (forall d, document_id (f d) = document_id d) ->
  document_update docId f st = (st', Some tt) ->
  status_of docId st' = Some s.
Proof.
  intros Hf Hid. unfold document_update, status_of.
  destruct (existsb _ _) eqn:E; [|done]. intros [= <-]. cbn.
  induction (documents st) as [|d l IH]; [done|]. cbn in *.
  destruct (String.eqb_spec (document_id d) docId) as [Hd|Hd]; cbn.
  - rewrite Hid, Hd, String.eqb_refl. cbn. by rewrite Hf.
  - apply String.eqb_neq in Hd. rewrite Hd. by apply IH.
Qed.



(** The types with an explorer are those of three merged entities or
    more, and the explorer of a type manages as many entities as the
    type has. *)
Lemma grouped_types (n : id) (territoriesMap : list (string * list id))
    (type : string) :
  group_by_type []
    (entity_rows projectId documentId extractorName n (r_entities r))
  = Some territoriesMap ->
  NoDup (majorTypes territoriesMap)
  /\ (type ∈ majorTypes territoriesMap
      <-> (3 <= count_type type (r_entities r))%nat)
  /\ (type ∈ majorTypes territoriesMap ->
      length (default [] (lookup_own territoriesMap type))
      = count_type type (r_entities r)).
Proof.
  intros Hg. apply group_by_type_spec in Hg as [Hnd Hl]; [|constructor].
  specialize (Hl type). cbn in Hl.
  pose proof (ids_of_type_length projectId documentId extractorName type n
                (r_entities r)) as Hlen.
  split; [by apply majorTypes_NoDup|].
  rewrite (majorTypes_spec _ _ Hnd). rewrite Hl.
  destruct (ids_of_type type _) as [|i ids]; cbn in *.
  - split; [|intros (ids & ? & _); done].
    split; [intros (ids & ? & _); done|lia].
  - split; [|done]. split.
    + intros (ids' & [= <-] & H). cbn in H. lia.
    + intros H. eexists. split; [done|]. cbn. lia.
Qed.

End CompletedPass.

(** ** Claims about the materializer *)

Section MaterializerClaims.

Lemma map_drop_app {A B} (f : A -> B) (l l' : list A) (k : list B) :
  map f l' = map f l ++ k -> map f (drop (length l) l') = k.
Proof.
  intros H. change (map f (drop (length l) l'))
    with (f <$> drop (length l) l').
  rewrite fmap_drop. change (f <$> l') with (map f l').
  rewrite H. rewrite <- (length_map f l). by rewrite drop_app_length.
Qed.

(** C3, as stated, fails: two merged entities named Acme give two rows
    named Acme. *)
Lemma same_name_counterexample :
  ~ one_row_per_name (store_with "")
      (materialize "proj" "doc" "llama3.2" two_named_acme
         (store_with "")).1.
Proof.
  unfold one_row_per_name. vm_compute.
  intros H. apply NoDup_cons in H as [H _]. apply H. left.
Qed.

(** C3 (amended).  A pass creates one Entity row for each merged entity,
    in the order of the merged entities and with fresh identifiers, also
    when names repeat; the rows the store already holds stay, whatever
    their names. *)
Theorem one_row_per_merged_entity {builtins : Builtins}
    (projectId documentId extractorName : string) (r : ExtractionResult)
    (st : store) :
  let st' := (materialize projectId documentId extractorName r st).1 in
  map entity_name (entities st')
  = map entity_name (entities st) ++ map ed_name (r_entities r)
  /\ map entity_id (entities st')
     = map entity_id (entities st)
       ++ seq (next_id st) (length (r_entities r))
  /\ map entity_name (new_entities st st') = map ed_name (r_entities r).
Proof.
  intros st'.
  destruct (materialize_rows projectId documentId extractorName r st)
    as (Hi & Hn & _).
  fold st' in Hi, Hn. split; [done|]. split; [done|].
  by apply map_drop_app.
Qed.

(** The guard of the edge loop lets a relationship through exactly when
    both names are keys of the map, provided no missing name is the name
    of a member of the prototype; the relationships it stops are
    dropped and the pass goes on. *)
Lemma unresolved_relationships_dropped {builtins : Builtins}
    (projectId documentId extractorName : string) (r : ExtractionResult)
    (st : store) :
  let rows := entity_rows projectId documentId extractorName (next_id st)
                (r_entities r) in
  let entityMap := entity_map_of rows ∅ in
  Forall (fun rel =>
            (entityMap !! rd_source rel = None
               -> rd_source rel ∉ prototype_keys)
            /\ (entityMap !! rd_target rel = None
                  -> rd_target rel ∉ prototype_keys))
    (r_relationships r) ->
  edges (materialize projectId documentId extractorName r st).1
  = edges st
    ++ edge_rows projectId documentId entityMap
         (next_id st + length (r_entities r)) (r_relationships r).
Proof.
  intros rows entityMap Hall.
  destruct (materialize_rows projectId documentId extractorName r st)
    as (_ & _ & He).
  rewrite He. fold rows. fold entityMap.
  by rewrite (safe_prefix_all _ _ (all_safe_intro _ _ Hall)).
Qed.

(** The example of the specification: two entities, no edge. *)
Lemma acme_bob_ghost_run :
  let out := materialize "proj" "doc" "llama3.2" acme_bob_ghost
               (store_with "") in
  map entity_name (entities out.1) = ["Acme"; "Bob"]
  /\ edges out.1 = []
  /\ (s_entities <$> out.2) = Some 2%nat
  /\ (s_relationships <$> out.2) = Some 0%nat
  /\ status_of "doc" out.1 = Some "extracted".
Proof. vm_compute. done. Qed.

(** C6, failing input.  With a relationship whose target is the name
    ["constructor"], which no entity of the pass has, the guard passes,
    the pass ends in an exception after the entities, and the document
    is marked failed. *)
Theorem prototype_name_not_dropped :
  let answer : provider := fun _ _ =>
    Reply (q "{'entities':[{'name':'Acme','type':'organisation'},{'name':'Bob','type':'person'}],'relationships':[{'source':'Acme','target':'constructor','label':'builds','weight':1}]}")
      "llama3.2" in
  let out := POST ollama None answer "proj" "doc" (store_with "Acme builds.") in
  read_result (absorb empty_accum
                 (q "{'entities':[{'name':'Acme','type':'organisation'},{'name':'Bob','type':'person'}],'relationships':[{'source':'Acme','target':'constructor','label':'builds','weight':1}]}")).1
  = Some acme_bob_constructor
  /\ out.2 = Status500 "Extraction failed"
  /\ map entity_name (entities out.1) = ["Acme"; "Bob"]
  /\ edges out.1 = [] /\ territories out.1 = [] /\ agents out.1 = []
  /\ status_of "doc" out.1 = Some "failed".
Proof. vm_compute. done. Qed.

End MaterializerClaims.

Section SameName.


Lemma last_with_name_elem (rows : list Entity) (name : string) (i : id) :
  last_with_name rows name = Some i ->
  exists e, e ∈ rows /\ entity_name e = name /\ entity_id e = i.
Proof.
  unfold last_with_name. intros H.
  destruct (last (filter _ rows)) as [e|] eqn:E; [|done].
  injection H as <-. apply last_Some_elem_of in E.
  apply list_elem_of_filter in E as [? ?]. by exists e.
Qed.

Lemma last_with_name_none (rows : list Entity) (name : string) :
  last_with_name rows name = None ->
  forall e, e ∈ rows -> entity_name e <> name.
Proof.
  unfold last_with_name. intros H e He Hn.
  destruct (last (filter _ rows)) as [x|] eqn:E; [done|].
  apply last_None in E.
  assert (e ∈ filter (fun e => entity_name e = name) rows) as Hin
    by (by apply list_elem_of_filter).
  rewrite E in Hin. by apply elem_of_nil in Hin.
Qed.




(** An instance: two merged entities named Acme and a relationship from
    Acme to Acme give two rows and one edge, from the second row to
    itself. *)
Lemma two_named_acme_run :
  let st' := (materialize "proj" "doc" "llama3.2" two_named_acme
                (store_with "")).1 in
  map (fun e => (entity_id e, entity_name e)) (entities st')
  = [(0, "Acme"); (1, "Acme")]%nat
  /\ map (fun e => (edge_sourceId e, edge_targetId e)) (edges st')
     = [(1, 1)]%nat.
Proof. vm_compute. done. Qed.

End SameName.

(** ** Claims about the agent hierarchy *)

Section AgentClaims.



(** A pass runs to its end when the document is in the store, no entity
    type is the name of a member of the prototype, and no relationship
    names such a member without an entity of that name. *)
Lemma materialize_completes {builtins : Builtins}
    (projectId documentId extractorName : string) (r : ExtractionResult)
    (st : store) :
  let rows := entity_rows projectId documentId extractorName (next_id st)
                (r_entities r) in
  let entityMap := entity_map_of rows ∅ in
  existsb (fun d => String.eqb (document_id d) documentId) (documents st)
  = true ->
  Forall (fun d => ed_type d ∉ prototype_keys) (r_entities r) ->
  Forall (fun rel =>
            (entityMap !! rd_source rel = None
               -> rd_source rel ∉ prototype_keys)
            /\ (entityMap !! rd_target rel = None
                  -> rd_target rel ∉ prototype_keys))
    (r_relationships r) ->
  is_Some (materialize projectId documentId extractorName r st).2.
Proof.
  intros rows entityMap Hdoc Htypes Hrels.
  rewrite materialize_unfold. fold rows. fold entityMap.
  rewrite (all_safe_intro _ _ Hrels).
  unfold after_edges. unfold bind at 1. rewrite create_insights_run.
  destruct (group_by_type_completes rows []) as [tm ->].
  { unfold rows. apply Forall_forall. intros e He.
    apply list_elem_of_fmap_2 with (f := entity_type) in He.
    change (entity_type <$> _) with (map entity_type
      (entity_rows projectId documentId extractorName (next_id st)
         (r_entities r))) in He.
    rewrite entity_rows_types in He.
    apply list_elem_of_fmap in He as (d & -> & Hd).
    rewrite Forall_forall in Htypes. by apply Htypes. }
  unfold bind at 1.
  match goal with |- context [create_known projectId tm ?s0] =>
    destruct (create_known_run projectId tm s0)
      as (st2 & known & -> & (_ & _ & _ & Hdocs & _) & _) end.
  unfold bind at 1. rewrite create_frontier_run.
  unfold bind at 1. rewrite create_agents_run.
  unfold bind at 1. unfold document_update. cbn [documents add_agents
    add_territories]. rewrite Hdocs. cbn. rewrite Hdoc. done.
Qed.

End AgentClaims.

(** ** Claims about the route *)

Section RouteClaims.

Lemma run_chunks_provider_error (callAI : provider) (total : nat)
    (chunks : list string) :
  forall (i : nat) (acc : accum) (name : string) (k : nat) (chunk : string),
    chunks !! k = Some chunk ->
    callAI (i + k)%nat (prompt_of (i + k) total chunk) = ProviderError ->
    run_chunks callAI total i chunks acc name = None.
Proof.
  induction chunks as [|c chunks IH]; intros i acc name k chunk Hk Herr.
  { done. }
  cbn [run_chunks]. destruct k as [|k].
  - injection Hk as ->. rewrite Nat.add_0_r in Herr. by rewrite Herr.
  - destruct (callAI i (prompt_of i total c)); [|done].
    apply (IH (S i) _ _ k chunk); [done|].
    by replace (S i + k)%nat with (i + S k)%nat by lia.
Qed.

(** The calls after a failed one are not made: the loop gives the same
    result with any provider that answers alike up to the failed call. *)
Lemma run_chunks_stops (callAI callAI' : provider) (total : nat)
    (chunks : list string) :
  forall (i : nat) (acc : accum) (name : string) (k : nat) (chunk : string),
    chunks !! k = Some chunk ->
    callAI (i + k)%nat (prompt_of (i + k) total chunk) = ProviderError ->
    (forall j p, (j <= i + k)%nat -> callAI' j p = callAI j p) ->
    run_chunks callAI' total i chunks acc name
    = run_chunks callAI total i chunks acc name.
Proof.
  induction chunks as [|c chunks IH]; intros i acc name k chunk Hk Herr Hsame.
  { done. }
  cbn [run_chunks]. rewrite Hsame by lia. destruct k as [|k].
  - injection Hk as ->. rewrite Nat.add_0_r in Herr. by rewrite Herr.
  - destruct (callAI i (prompt_of i total c)); [|done].
    apply (IH (S i) _ _ k chunk); [done| |].
    + by replace (S i + k)%nat with (i + S k)%nat by lia.
    + intros j p Hj. apply Hsame. lia.
Qed.

Lemma find_document_id (docId projectId : string) (st : store)
    (document : Document) :
  find_document docId projectId st = Some document ->
  document_id document = docId
  /\ existsb (fun d => String.eqb (document_id d) docId) (documents st)
     = true.
Proof.
  unfold find_document. intros H. apply find_some in H as [Hin Hp].
  apply andb_prop in Hp as [Hid _]. split; [by apply String.eqb_eq|].
  apply existsb_exists. by exists document.
Qed.

Lemma existsb_update (docId : string) (f : Document -> Document)
    (l : list Document) :
  (forall d, document_id (f d) = document_id d) ->
  existsb (fun d => String.eqb (document_id d) docId)
    (map (fun d => if String.eqb (document_id d) docId then f d else d) l)
  = existsb (fun d => String.eqb (document_id d) docId) l.
Proof.
  intros Hid. induction l as [|d l IH]; [done|]. cbn. rewrite IH.
  destruct (String.eqb (document_id d) docId) eqn:E; [|by rewrite E].
  by rewrite Hid, E.
Qed.

(** C1, as stated, fails.  The text of 250,003 characters is cut into
    three chunks; the provider fails on the second and answers the first
    and the third with the entity Acme; the document ends failed, and no
    row named Acme is in the store. *)
Lemma provider_failure_counterexample :
  let st' := (POST ollama None second_call_fails "proj" "doc"
                (store_with three_paragraphs)).1 in
  let answer := q "{'entities':[{'name':'Acme','type':'organisation'}]}" in
  ~ (length (Chunker.chunk_content Chunker.MAX_CONTENT_CHARS
               three_paragraphs) = 3%nat
     -> materialized (absorb (absorb empty_accum answer).1 answer).1 st'
        /\ status_of "doc" st' = Some "failed").
Proof.
  intros st' answer H.
  destruct H as [H _]; [vm_compute; reflexivity|].
  specialize (H (JObj [("name", JStr "Acme"); ("type", JStr "organisation")])
                (entity "Acme" "organisation")).
  assert (map entity_name (entities st') = []) as E
    by (vm_compute; reflexivity).
  rewrite E in H. eapply elem_of_nil, H.
  - vm_compute. left.
  - vm_compute. reflexivity.
Qed.

(** C1 (amended).  When the provider call of a chunk fails, the pass
    ends there: the response is the failure of the extraction, the
    document is marked failed, and the entities, edges, insights,
    territories and agents of the store are those it had before the
    pass, whatever the chunks before had answered; the chunks after the
    failed one are not sent to the provider. *)
Theorem provider_failure_fails_pass {builtins : Builtins}
    (budget : nat) (settings : Settings)
    (ANTHROPIC_API_KEY : option string) (callAI : provider)
    (projectId docId : string) (st : store) (document : Document)
    (k : nat) (chunk : string) :
  let chunks := Chunker.chunk_content budget
                  (default "" (document_content document)) in
  find_document docId projectId st = Some document ->
  config_error settings ANTHROPIC_API_KEY = None ->
  chunks !! k = Some chunk ->
  callAI k (prompt_of k (length chunks) chunk) = ProviderError ->
  let out := extract_with budget settings ANTHROPIC_API_KEY callAI
               projectId docId st in
  out.2 = Status500 "Extraction failed"
  /\ status_of docId out.1 = Some "failed"
  /\ entities out.1 = entities st /\ edges out.1 = edges st
  /\ insights out.1 = insights st /\ territories out.1 = territories st
  /\ agents out.1 = agents st
  /\ forall callAI' : provider,
       (forall j p, (j <= k)%nat -> callAI' j p = callAI j p) ->
       extract_with budget settings ANTHROPIC_API_KEY callAI' projectId
         docId st = out.
Proof.
  intros chunks Hfind Hcfg Hk Herr out.
  destruct (find_document_id _ _ _ _ Hfind) as [Hid Hex].
  assert (forall c : provider,
            (forall j p, (j <= k)%nat -> c j p = callAI j p) ->
            extract_with budget settings ANTHROPIC_API_KEY c projectId
              docId st
            = (mark_failed docId
                 (document_update docId (set_status "processing") st).1,
               Status500 "Extraction failed")) as Hrun.
  { intros c Hc. unfold extract_with. rewrite Hfind, Hcfg.
    unfold pass_body. rewrite Hid. unfold bind.
    unfold document_update at 1. rewrite Hex. fold chunks.
    assert (run_chunks c (length chunks) 0 chunks empty_accum "unknown"
            = None) as ->.
    { rewrite (run_chunks_stops callAI c _ _ 0 _ _ k chunk Hk Herr Hc).
      by apply (run_chunks_provider_error _ _ _ 0 _ _ k chunk). }
    unfold throw, document_update. by rewrite Hex. }
  assert (out = (mark_failed docId
                   (document_update docId (set_status "processing") st).1,
                 Status500 "Extraction failed")) as Hout.
  { apply Hrun. auto. }
  rewrite Hout. cbn [fst snd]. split; [done|].
  unfold mark_failed.
  set (st1 := (document_update docId (set_status "processing") st).1).
  assert (existsb (fun d => String.eqb (document_id d) docId)
            (documents st1) = true) as Hex1.
  { unfold st1, document_update. rewrite Hex. cbn.
    by rewrite existsb_update. }
  destruct (document_update docId (set_status "failed") st1)
    as [st2 [[]|]] eqn:E2;
    [|unfold document_update in E2; rewrite Hex1 in E2; done].
  split.
  { by apply (document_update_status docId "failed" (set_status "failed")
                st1 st2). }
  assert (st2 = (document_update docId (set_status "failed") st1).1) as ->
    by (by rewrite E2).
  unfold st1, document_update. rewrite Hex. cbn. rewrite existsb_update by done.
  rewrite Hex. cbn. repeat split; try done.
  intros c Hc. rewrite (Hrun c Hc). unfold mark_failed, document_update.
  rewrite Hex. cbn. rewrite existsb_update by done. by rewrite Hex.
Qed.

(** An instance: three short paragraphs under a budget of 5, the second
    call failing. *)
Lemma provider_failure_fails_pass_witness :
  let out := extract_with 5 ollama None second_call_fails "proj" "doc"
               (store_with three_words) in
  out.2 = Status500 "Extraction failed"
  /\ status_of "doc" out.1 = Some "failed"
  /\ entities out.1 = [].
Proof.
  destruct (provider_failure_fails_pass 5 ollama None second_call_fails
              "proj" "doc" (store_with three_words)
              (mkDocument "doc" "proj" "notes.txt" (Some three_words)
                 "uploaded" 0 0)
              1 "you")
    as (H1 & H2 & H3 & _); try (vm_compute; reflexivity).
  split; [exact H1|]. split; [exact H2|exact H3].
Defined.

End RouteClaims.

Import Reconcile.

(** ** Agent merge *)

Section AgentMerge.

Variable Date_parse : string -> option Z.

#[local] Abbreviation merge_into := (merge_into Date_parse).
#[local] Abbreviation upsert := (upsert Date_parse).
#[local] Abbreviation merge_all := (merge_all Date_parse).
#[local] Abbreviation deduplicateAgents := (deduplicateAgents Date_parse).

(** Merging into an agent changes neither its name nor its role. *)
Lemma merge_into_key (existing agent : Agent) :
  agent_key (merge_into existing agent) = agent_key existing.
Proof.
  unfold merge_into, fill_domain, fill_description, keep_latest,
    prefer_active, add_count, agent_key.
  repeat (match goal with |- context [if ?b then _ else _] =>
            destruct b end; cbn); reflexivity.
Qed.

Lemma upsert_keys (merged : list (string * Agent)) (agent : Agent) :
  map fst (upsert merged (agent_key agent) agent)
  = if decide (agent_key agent ∈ map fst merged) then map fst merged
    else map fst merged ++ [agent_key agent].
Proof.
  induction merged as [|[k e] merged IH]; cbn; [done|].
  destruct (String.eqb_spec k (agent_key agent)) as [->|Hk]; cbn.
  - rewrite decide_True; [done|by left].
  - rewrite IH. destruct (decide (_ ∈ map fst merged)) as [Hin|Hin].
    + rewrite decide_True; [done|by right].
    + rewrite decide_False; [done|].
      intros [?|?]%elem_of_cons; congruence.
Qed.

Lemma upsert_keyed (merged : list (string * Agent)) (agent : Agent) :
  keyed merged -> keyed (upsert merged (agent_key agent) agent).
Proof.
  intros [Hk Hnd]. split.
  - clear Hnd. induction merged as [|[k e] merged IH]; cbn.
    + by apply Forall_singleton.
    + apply Forall_cons in Hk as [Hke Hk]. cbn in Hke.
      destruct (String.eqb_spec k (agent_key agent)) as [->|Hne].
      * apply Forall_cons. split; [|done]. cbn. by rewrite merge_into_key.
      * apply Forall_cons. split; [done|by apply IH].
  - rewrite upsert_keys. destruct (decide _) as [|Hin]; [done|].
    apply NoDup_app. split; [done|]. split; [|apply NoDup_singleton].
    by intros k Hk' ->%list_elem_of_singleton.
Qed.

Lemma merge_all_keyed (agents : list Agent) :
  forall merged, keyed merged -> keyed (merge_all agents merged).
Proof.
  induction agents as [|a agents IH]; intros merged H; [done|].
  cbn. apply IH. by apply upsert_keyed.
Qed.

Lemma upsert_fresh (merged : list (string * Agent)) (key : string)
    (agent : Agent) :
  key ∉ map fst merged -> upsert merged key agent = merged ++ [(key, agent)].
Proof.
  induction merged as [|[k e] merged IH]; cbn; [done|].
  intros [Hk Hin]%not_elem_of_cons.
  destruct (String.eqb_spec k key) as [->|_]; [done|]. by rewrite IH.
Qed.

(** Agents with distinct keys, none of them in the map, are added to the
    map one after the other as they are. *)
Lemma merge_all_distinct (agents : list Agent) :
  forall merged,
    NoDup (map fst merged ++ map agent_key agents) ->
    merge_all agents merged
    = merged ++ map (fun a => (agent_key a, a)) agents.
Proof.
  induction agents as [|a agents IH]; intros merged Hnd.
  { cbn. by rewrite app_nil_r. }
  cbn [merge_all fold_left map] in *.
  apply NoDup_app in Hnd as (Hm & Hdisj & Ha).
  rewrite upsert_fresh.
  - fold (merge_all agents (merged ++ [(agent_key a, a)])).
    rewrite IH; [by rewrite <- app_assoc|].
    rewrite map_app. cbn. rewrite <- app_assoc. cbn.
    apply NoDup_app. split; [done|]. split; [|done].
    intros k Hk. by apply Hdisj.
  - intros Hin. apply (Hdisj _ Hin). by left.
Qed.

Lemma deduplicateAgents_distinct (agents : list Agent) :
  NoDup (map agent_key agents) -> deduplicateAgents agents = agents.
Proof.
  intros Hnd. unfold deduplicateAgents.
  rewrite merge_all_distinct by done. cbn.
  rewrite map_map. cbn. apply map_id.
Qed.

Lemma deduplicateAgents_keys (agents : list Agent) :
  NoDup (map agent_key (deduplicateAgents agents)).
Proof.
  unfold deduplicateAgents.
  destruct (merge_all_keyed agents []) as [Hk Hnd]; [by split; constructor|].
  assert (map agent_key (map snd (merge_all agents []))
          = map fst (merge_all agents [])) as ->; [|done].
  rewrite map_map. apply Forall_fmap_ext_1.
  eapply Forall_impl; [exact Hk|]. by intros [k a].
Qed.

(** C9.  The agent merge, run on its own result, gives that result
    again. *)
Theorem agent_merge_idempotent (agents : list Agent) :
  deduplicateAgents (deduplicateAgents agents) = deduplicateAgents agents.
Proof. apply deduplicateAgents_distinct, deduplicateAgents_keys. Qed.

End AgentMerge.

(** ** Territory reconciliation *)

Section RowGroups.

Context {T : Type}.
Variable key : T -> string.

Lemma filter_none {A} (P : A -> Prop) `{forall x, Decision (P x)}
    (l : list A) :
  (forall x, x ∈ l -> ~ P x) -> filter P l = [].
Proof.
  induction l as [|y l IH]; [done|]. intros Hl. rewrite filter_cons.
  rewrite decide_False by (apply Hl; by left).
  apply IH. intros x Hx. apply Hl. by right.
Qed.


Lemma first_occurrences_snoc {A} `{EqDecision A} (l : list A) (x : A) :
  forall seen,
    first_occurrences (l ++ [x]) seen
    = first_occurrences l seen
      ++ (if decide (x ∈ seen \/ x ∈ l) then [] else [x]).
Proof.
  induction l as [|y l IH]; intros seen; cbn.
  - destruct (bool_decide_reflect (x ∈ seen)) as [Hin|Hin].
    + rewrite decide_True; [done|by left].
    + rewrite decide_False; [done|].
      intros [?|?%elem_of_nil]; done.
  - destruct (bool_decide_reflect (y ∈ seen)) as [Hin|Hin]; rewrite IH.
    + destruct (decide (x ∈ seen \/ x ∈ l)) as [H|H].
      * rewrite decide_True; [done|]. destruct H; [by left|by right; right].
      * rewrite decide_False; [done|].
        intros [?|[->|?]%elem_of_cons]; apply H; auto.
    + cbn. f_equal.
      destruct (decide (x ∈ y :: seen \/ x ∈ l)) as [H|H].
      * rewrite decide_True; [done|].
        destruct H as [[->|?]%elem_of_cons|?]; [right; left|by left|by right; right].
      * rewrite decide_False; [done|].
        intros [?|[->|?]%elem_of_cons]; apply H;
          [left; by right|left; by left|by right].
Qed.

Lemma first_occurrences_elem {A} `{EqDecision A} (l : list A) :
  forall seen x,
    x ∈ first_occurrences l seen <-> x ∈ l /\ x ∉ seen.
Proof.
  induction l as [|y l IH]; intros seen x; cbn.
  - split; [by intros ?%elem_of_nil|by intros [?%elem_of_nil _]].
  - destruct (bool_decide_reflect (y ∈ seen)) as [Hin|Hin].
    + rewrite IH. rewrite elem_of_cons. split; [intros [? ?]; auto|].
      intros [[->|?] ?]; [done|auto].
    + rewrite !elem_of_cons, IH, not_elem_of_cons. split.
      * intros [->|[? [? ?]]]; auto.
      * intros [[->|?] ?]; [by left|].
        destruct (decide (x = y)); [by left|right; auto].
Qed.

Lemma first_occurrences_NoDup {A} `{EqDecision A} (l : list A) :
  forall seen, NoDup (first_occurrences l seen).
Proof.
  induction l as [|y l IH]; intros seen; cbn; [constructor|].
  destruct (bool_decide_reflect (y ∈ seen)); [apply IH|].
  apply NoDup_cons. split; [|apply IH].
  rewrite first_occurrences_elem. intros [_ H]. apply H. by left.
Qed.

Lemma add_to_group_mapped (G : string -> list T) (ks : list string)
    (k0 : string) (t : T) :
  NoDup ks ->
  add_to_group (map (fun k => (k, G k)) ks) k0 t
  = map (fun k => (k, if decide (k = k0) then G k ++ [t] else G k)) ks
    ++ (if decide (k0 ∈ ks) then [] else [(k0, [t])]).
Proof.
  induction ks as [|k ks IH]; cbn; [done|].
  intros [Hk Hnd]%NoDup_cons.
  destruct (String.eqb_spec k k0) as [->|Hne].
  - rewrite decide_True by done. rewrite decide_True by (by left).
    rewrite app_nil_r. f_equal. apply map_ext_in. intros k Hin.
    rewrite decide_False; [done|]. intros ->. apply Hk.
    by apply list_elem_of_In.
  - rewrite decide_False by done. rewrite IH by done. cbn. f_equal. f_equal.
    destruct (decide (k0 ∈ ks)) as [Hin|Hin].
    + rewrite decide_True; [done|by right].
    + rewrite decide_False; [done|].
      intros [?|?]%elem_of_cons; congruence.
Qed.

Lemma group_rows_snoc (items : list T) (t : T) :
  group_rows key (items ++ [t])
  = add_to_group (group_rows key items) (key t) t.
Proof. unfold group_rows. by rewrite fold_left_app. Qed.

Lemma group_rows_spec (items : list T) :
  group_rows key items = groups_of key items.
Proof.
  induction items as [|t items IH] using rev_ind; [done|].
  rewrite group_rows_snoc, IH. unfold groups_of.
  rewrite add_to_group_mapped by apply first_occurrences_NoDup.
  rewrite map_app. cbn [map]. rewrite first_occurrences_snoc, map_app.
  f_equal.
  - apply map_ext. intros k. f_equal. rewrite filter_app, filter_cons, filter_nil.
    destruct (decide (k = key t)) as [->|Hne].
    + by rewrite decide_True.
    + rewrite decide_False by congruence. by rewrite app_nil_r.
  - destruct (decide (key t ∈ first_occurrences (map key items) []))
      as [Hin|Hin].
    + apply first_occurrences_elem in Hin as [Hin _].
      rewrite decide_True; [done|by right].
    + rewrite decide_False.
      * cbn. do 2 f_equal. rewrite filter_app, filter_cons, filter_nil.
        rewrite decide_True by done.
        assert (filter (fun t0 => key t0 = key t) items = []) as ->; [|done].
        apply filter_none. intros x Hx Hk.
        apply Hin. apply first_occurrences_elem. split.
        -- rewrite <- Hk. apply list_elem_of_fmap. by exists x.
        -- by intros ?%elem_of_nil.
      * intros [?%elem_of_nil|Hk]; [done|]. apply Hin.
        apply first_occurrences_elem. split; [done|by intros ?%elem_of_nil].
Qed.

End RowGroups.

Section Territories.








(** *** Members of a group *)

Lemma map_set_keys (m : list (string * EntityRef)) (e : EntityRef) :
  map fst (map_set m (ref_id e) e)
  = if decide (ref_id e ∈ map fst m) then map fst m
    else map fst m ++ [ref_id e].
Proof.
  induction m as [|[k x] m IH]; cbn; [done|].
  destruct (String.eqb_spec k (ref_id e)) as [->|Hk]; cbn.
  - rewrite decide_True; [done|by left].
  - rewrite IH. destruct (decide (_ ∈ map fst m)) as [Hin|Hin].
    + rewrite decide_True; [done|by right].
    + rewrite decide_False; [done|].
      intros [?|?]%elem_of_cons; congruence.
Qed.

Lemma map_set_own_ids (m : list (string * EntityRef)) (e : EntityRef) :
  own_ids m -> own_ids (map_set m (ref_id e) e).
Proof.
  intros [Hk Hnd]. split.
  - clear Hnd. induction m as [|[k x] m IH]; cbn.
    + by apply Forall_singleton.
    + apply Forall_cons in Hk as [Hkx Hk]. cbn in Hkx.
      destruct (String.eqb_spec k (ref_id e)) as [->|Hne].
      * apply Forall_cons. by split.
      * apply Forall_cons. split; [done|by apply IH].
  - rewrite map_set_keys. destruct (decide _) as [|Hin]; [done|].
    apply NoDup_app. split; [done|]. split; [|apply NoDup_singleton].
    by intros k Hk' ->%list_elem_of_singleton.
Qed.

Lemma set_all_spec (es : list EntityRef) :
  forall m,
    own_ids m ->
    own_ids (fold_left (fun m e => map_set m (ref_id e) e) es m)
    /\ forall i,
         i ∈ map fst (fold_left (fun m e => map_set m (ref_id e) e) es m)
         <-> i ∈ map fst m \/ i ∈ map ref_id es.
Proof.
  induction es as [|e es IH]; intros m Hm.
  { cbn. split; [done|]. intros i. split; [auto|].
    intros [?|?%elem_of_nil]; done. }
  cbn [fold_left map].
  destruct (IH _ (map_set_own_ids m e Hm)) as [H1 H2].
  split; [done|]. intros i. rewrite H2, map_set_keys, elem_of_cons.
  destruct (decide (ref_id e ∈ map fst m)) as [Hin|Hin].
  - split; [intros [?|?]; auto|].
    intros [?|[->|?]]; auto.
  - rewrite elem_of_app, list_elem_of_singleton. tauto.
Qed.

Lemma merge_entities_spec (group : list TerritoryRow) :
  NoDup (map ref_id (merge_entities group))
  /\ forall i,
       i ∈ map ref_id (merge_entities group)
       <-> exists t e, t ∈ group /\ e ∈ t_entities t /\ ref_id e = i.
Proof.
  unfold merge_entities.
  assert (forall m,
            own_ids m ->
            own_ids (fold_left
                       (fun entityMap t =>
                          fold_left (fun m e => map_set m (ref_id e) e)
                            (t_entities t) entityMap) group m)
            /\ forall i,
                 i ∈ map fst
                       (fold_left
                          (fun entityMap t =>
                             fold_left (fun m e => map_set m (ref_id e) e)
                               (t_entities t) entityMap) group m)
                 <-> i ∈ map fst m
                     \/ exists t e, t ∈ group /\ e ∈ t_entities t
                                    /\ ref_id e = i) as H.
  { induction group as [|t group IH]; intros m Hm.
    - cbn. split; [done|]. intros i. split; [auto|].
      intros [?|(t & e & ?%elem_of_nil & _)]; done.
    - cbn [fold_left].
      destruct (set_all_spec (t_entities t) m Hm) as [H1 H2].
      destruct (IH _ H1) as [H3 H4]. split; [done|].
      intros i. rewrite H4, H2. split.
      + intros [[?|Hin]|(t' & e & Ht & He & Hi)]; [by left| |].
        * right. apply list_elem_of_fmap in Hin as (e & -> & He).
          exists t, e. split; [by left|done].
        * right. exists t', e. split; [by right|done].
      + intros [?|(t' & e & [->|Ht]%elem_of_cons & He & Hi)].
        * by left; left.
        * left; right. apply list_elem_of_fmap. by exists e.
        * right. by exists t', e. }
  destruct (H []) as [[Hk Hnd] Hi]; [by split; constructor|].
  assert (map ref_id (map snd (fold_left
            (fun entityMap t =>
               fold_left (fun m e => map_set m (ref_id e) e)
                 (t_entities t) entityMap) group []))
          = map fst (fold_left
            (fun entityMap t =>
               fold_left (fun m e => map_set m (ref_id e) e)
                 (t_entities t) entityMap) group [])) as ->.
  { rewrite map_map. apply Forall_fmap_ext_1.
    eapply Forall_impl; [exact Hk|]. by intros [k e]. }
  split; [done|]. intros i. rewrite Hi. split; [|auto].
  intros [?%elem_of_nil|?]; done.
Qed.


End Territories.

Section TerritoryClaims.






(** What is exposed for these rows. *)
Lemma bar_rows_exposed :
  known bar_rows
  = [mkKnown "t1" "A|b" "c" "known" None ["e1"; "e2"]
       [member "e1"; member "e2"]]
  /\ length (known_by_triple bar_rows) = 2%nat.
Proof. split; vm_compute; reflexivity. Qed.



End TerritoryClaims.

Import JsString Json Parser Examples Chunks.

(** ** Greedy packing of the chunker *)

Section Greedy.
Import Chunker.

Variable budget : nat.

Lemma greedy_snoc (l : list (list string)) (a b : list string) :
  greedy budget (l ++ [a; b])
  <-> greedy budget (l ++ [a]) /\ opened_by_overflow budget a b.
Proof.
  induction l as [|x l IH]; [cbn; tauto|].
  destruct l as [|y l]; [cbn; tauto|].
  change (greedy budget ((x :: y :: l) ++ [a; b]))
    with (opened_by_overflow budget x y
          /\ greedy budget ((y :: l) ++ [a; b])).
  change (greedy budget ((x :: y :: l) ++ [a]))
    with (opened_by_overflow budget x y
          /\ greedy budget ((y :: l) ++ [a])).
  rewrite IH. tauto.
Qed.

Lemma greedy_last (l : list (list string)) (g g' : list string) :
  (forall a, opened_by_overflow budget a g ->
             opened_by_overflow budget a g') ->
  greedy budget (l ++ [g]) -> greedy budget (l ++ [g']).
Proof.
  intros Hg. induction l as [|x l IH]; [done|].
  destruct l as [|y l].
  - cbn. intros [H _]. split; [by apply Hg|done].
  - change (greedy budget ((x :: y :: l) ++ [g]))
      with (opened_by_overflow budget x y
            /\ greedy budget ((y :: l) ++ [g])).
    change (greedy budget ((x :: y :: l) ++ [g']))
      with (opened_by_overflow budget x y
            /\ greedy budget ((y :: l) ++ [g'])).
    intros [H1 H2]. split; [done|]. by apply IH.
Qed.

Lemma greedy_init (l : list (list string)) (g : list string) :
  greedy budget (l ++ [g]) -> greedy budget l.
Proof.
  induction l as [|x l IH]; [done|].
  destruct l as [|y l]; [done|].
  change (greedy budget ((x :: y :: l) ++ [g]))
    with (opened_by_overflow budget x y
          /\ greedy budget ((y :: l) ++ [g])).
  intros [H1 H2]. split; [done|]. by apply IH.
Qed.

Lemma greedy_lookup (l : list (list string)) (i : nat)
    (a b : list string) :
  greedy budget l -> l !! i = Some a -> l !! S i = Some b ->
  opened_by_overflow budget a b.
Proof.
  revert i. induction l as [|x l IH]; intros i; [done|].
  destruct l as [|y l]; [by destruct i|].
  intros [H1 H2]. destruct i as [|i].
  - cbn. by intros [= ->] [= ->].
  - intros Ha Hb. by apply (IH i).
Qed.

Lemma group_step_greedy st section :
  greedy budget (st.1 ++ [st.2]) ->
  greedy budget ((group_step budget st section).1
                 ++ [(group_step budget st section).2]).
Proof.
  destruct st as [groups g]. cbn [fst snd]. intros Hg.
  unfold group_step.
  destruct (_ && _) eqn:Hcond; cbn [fst snd].
  - apply andb_prop in Hcond as [H1 _]. apply Nat.ltb_lt in H1.
    rewrite <- app_assoc. cbn [app]. apply greedy_snoc. split; [done|].
    by exists section, [].
  - destruct (truthy (join_blank_lines g)) eqn:Ht.
    + revert Hg. apply greedy_last.
      intros a (s & r & -> & Hs). by exists s, (r ++ [section]).
    + apply truthy_false in Ht. revert Hg. apply greedy_last.
      intros a (s & r & -> & Hs). exists section, []. split; [done|].
      assert (s = "") as ->.
      { destruct s; [done|]. by destruct r. }
      rewrite !string_length_app in *. unfold sep in *.
      cbn [String.length] in *. lia.
Qed.

Lemma fold_group_greedy sections st :
  greedy budget (st.1 ++ [st.2]) ->
  greedy budget ((fold_left (group_step budget) sections st).1
                 ++ [(fold_left (group_step budget) sections st).2]).
Proof.
  revert st. induction sections as [|s l IH]; intros st H; [done|].
  cbn [fold_left]. by apply IH, group_step_greedy.
Qed.

Lemma chunk_groups_greedy content :
  greedy budget (chunk_groups budget content).
Proof.
  unfold chunk_groups.
  pose proof (fold_group_greedy (split_blank_lines content) ([], [])) as H.
  destruct (fold_left _ _ _) as [groups g]. cbn [fst snd] in H.
  destruct (truthy _); [by apply H|]. by eapply greedy_init, H.
Qed.

Lemma join_head_length (s : string) (r : list string) :
  (String.length s <= String.length (join_blank_lines (s :: r)))%nat.
Proof.
  destruct r as [|x r]; [done|].
  change (join_blank_lines (s :: x :: r))
    with (s +:+ String nl (String nl "") +:+ join_blank_lines (x :: r)).
  rewrite string_length_app. lia.
Qed.

End Greedy.

Section GreedyClaims.
Import Chunker.

(** X1.  The packing is greedy.  In a text longer than the budget, a
    chunk is closed only when the section after it would not fit: the
    chunk, a blank line and the first section of the next chunk are
    together longer than the budget.  So no two neighbouring chunks
    could have been sent as one within the budget. *)
Theorem chunker_is_greedy (budget : nat) (content : string) :
  (budget < String.length content)%nat ->
  exists groups : list (list string),
    chunk_content budget content = map join_blank_lines groups
    /\ filter (fun s => s <> "") (concat groups)
       = filter (fun s => s <> "") (split_blank_lines content)
    /\ (forall i a b,
          groups !! i = Some a -> groups !! S i = Some b ->
          exists s r, b = s :: r
            /\ (budget
                < String.length (join_blank_lines a +:+ sep +:+ s))%nat)
    /\ (forall i c c',
          chunk_content budget content !! i = Some c ->
          chunk_content budget content !! S i = Some c' ->
          (budget < String.length (c +:+ sep +:+ c'))%nat).
Proof.
  intros Hlen. exists (chunk_groups budget content).
  destruct (chunk_groups_spec budget content) as [_ Hk].
  pose proof (chunk_groups_greedy budget content) as Hgr.
  split; [by apply chunk_content_groups|]. split; [exact Hk|].
  split.
  - intros i a b Ha Hb. exact (greedy_lookup budget _ i a b Hgr Ha Hb).
  - intros i c c'. rewrite chunk_content_groups by done.
    rewrite !list_lookup_fmap.
    destruct (chunk_groups budget content !! i) as [a|] eqn:Ha; [|done].
    destruct (chunk_groups budget content !! S i) as [b|] eqn:Hb; [|done].
    intros Hc Hc'. cbn [fmap option_fmap option_map] in Hc, Hc'.
    injection Hc as <-. injection Hc' as <-.
    destruct (greedy_lookup budget _ i a b Hgr Ha Hb) as (s & r & -> & Hs).
    pose proof (join_head_length s r).
    rewrite !string_length_app in *. lia.
Qed.

(** An instance: three words under a budget of five. *)
Lemma chunker_is_greedy_witness :
  (5 < String.length three_words)%nat
  /\ exists groups : list (list string),
       chunk_content 5 three_words = map join_blank_lines groups
       /\ forall i c c',
            chunk_content 5 three_words !! i = Some c ->
            chunk_content 5 three_words !! S i = Some c' ->
            (5 < String.length (c +:+ sep +:+ c'))%nat.
Proof.
  assert (5 < String.length three_words)%nat as Hlen
    by (vm_compute; lia).
  split; [exact Hlen|].
  destruct (chunker_is_greedy 5 three_words Hlen)
    as (groups & H1 & _ & _ & H).
  exists groups. split; [exact H1|exact H].
Defined.

End GreedyClaims.

(** ** Merging the chunks *)

Section Merge.

Lemma push_all_app (arr : list json) (v : option json) :
  push_all arr v = app arr <$> push_all [] v.
Proof.
  unfold push_all. destruct (truthy_json v); [|by (cbn; rewrite app_nil_r)].
  destruct v as [x|]; [|by (cbn; rewrite app_nil_r)].
  by destruct (spread x).
Qed.

Lemma append_accum_empty (acc : accum) :
  append_accum acc empty_accum = acc.
Proof. destruct acc. unfold append_accum. cbn. by rewrite !app_nil_r. Qed.

(** What a response adds does not depend on what is in the arrays. *)
Lemma absorb_match_append (acc : accum) (m : option string) :
  absorb_match acc m
  = (append_accum acc (absorb_match empty_accum m).1,
     (absorb_match empty_accum m).2).
Proof.
  unfold absorb_match.
  destruct m as [block|]; [|by rewrite append_accum_empty].
  destruct (JSON_parse block) as [parsed|]; [|by rewrite append_accum_empty].
  destruct (prop parsed "entities") as [f1|];
    [|by rewrite append_accum_empty].
  rewrite (push_all_app (allEntities acc)).
  change (allEntities empty_accum) with (@nil json).
  change (allRelationships empty_accum) with (@nil json).
  change (allInsights empty_accum) with (@nil json).
  change (allFrontierHints empty_accum) with (@nil json).
  destruct (push_all [] f1) as [es|]; cbn [fmap option_fmap option_map];
    [|by rewrite append_accum_empty].
  destruct (prop parsed "relationships") as [f2|];
    [|by (destruct acc; unfold append_accum; cbn; rewrite !app_nil_r)].
  rewrite (push_all_app (allRelationships acc)).
  destruct (push_all [] f2) as [rs|]; cbn [fmap option_fmap option_map];
    [|by (destruct acc; unfold append_accum; cbn; rewrite !app_nil_r)].
  destruct (prop parsed "insights") as [f3|];
    [|by (destruct acc; unfold append_accum; cbn; rewrite !app_nil_r)].
  rewrite (push_all_app (allInsights acc)).
  destruct (push_all [] f3) as [ns|]; cbn [fmap option_fmap option_map];
    [|by (destruct acc; unfold append_accum; cbn; rewrite !app_nil_r)].
  destruct (prop parsed "frontier_hints") as [f4|];
    [|by (destruct acc; unfold append_accum; cbn; rewrite !app_nil_r)].
  rewrite (push_all_app (allFrontierHints acc)).
  destruct (push_all [] f4) as [hs|]; cbn [fmap option_fmap option_map];
    by (destruct acc; unfold append_accum; cbn; rewrite ?app_nil_r).
Qed.

Lemma absorb_append (acc : accum) (text : string) :
  (absorb acc text).1 = append_accum acc (contribution text).
Proof. unfold absorb, contribution. by rewrite absorb_match_append. Qed.

Lemma last_cons_default {A} (x d : A) (l : list A) :
  default d (last (x :: l)) = default x (last l).
Proof.
  destruct l as [|y l]; [done|].
  change (last (x :: y :: l)) with (last (y :: l)).
  destruct (last (y :: l)) eqn:E; [done|]. by apply last_None in E.
Qed.

Lemma run_chunks_merge (callAI : provider) (total : nat)
    (chunks : list string) :
  forall (i : nat) (acc : accum) (name : string) (acc' : accum)
         (name' : string),
    run_chunks callAI total i chunks acc name = Some (acc', name')
    <-> exists replies : list (string * string),
          length replies = length chunks
          /\ (forall k chunk text model,
                chunks !! k = Some chunk ->
                replies !! k = Some (text, model) ->
                callAI (i + k)%nat (prompt_of (i + k) total chunk)
                = Reply text model)
          /\ acc' = fold_left append_accum
                      (map (fun r => contribution r.1) replies) acc
          /\ name' = default name (last (map snd replies)).
Proof.
  induction chunks as [|chunk rest IH]; intros i acc name acc' name'.
  { cbn [run_chunks]. split.
    - intros [= <- <-]. exists []. by repeat split.
    - intros (replies & Hl & _ & -> & ->).
      destruct replies; [done|]. done. }
  cbn [run_chunks]. split.
  - destruct (callAI i (prompt_of i total chunk)) as [text model|] eqn:Hc;
      [|done].
    intros H. apply IH in H as (replies & Hl & Hk & -> & ->).
    exists ((text, model) :: replies). split; [cbn; by rewrite Hl|].
    split; [|split].
    + intros [|k] chunk' text' model'; cbn.
      * intros [= <-] [= <- <-]. by rewrite Nat.add_0_r.
      * intros H1 H2. rewrite <- Nat.add_succ_comm. by apply Hk.
    + cbn [map fold_left fst]. by rewrite absorb_append.
    + cbn [map snd]. by rewrite last_cons_default.
  - intros (replies & Hl & Hk & -> & ->).
    destruct replies as [|[text model] replies]; [done|].
    pose proof (Hk 0%nat chunk text model eq_refl eq_refl) as Hc.
    rewrite Nat.add_0_r in Hc. rewrite Hc.
    apply IH. exists replies. split; [by injection Hl|].
    split; [|split].
    + intros k chunk' text' model' H1 H2.
      rewrite Nat.add_succ_comm. by apply (Hk (S k)).
    + cbn [map fold_left fst]. by rewrite absorb_append.
    + cbn [map snd]. by rewrite last_cons_default.
Qed.

Lemma fold_append_accum (l : list accum) :
  forall acc,
    fold_left append_accum l acc
    = Accum (allEntities acc ++ concat (map allEntities l))
        (allRelationships acc ++ concat (map allRelationships l))
        (allInsights acc ++ concat (map allInsights l))
        (allFrontierHints acc ++ concat (map allFrontierHints l)).
Proof.
  induction l as [|a l IH]; intros acc.
  { destruct acc. cbn. by rewrite !app_nil_r. }
  cbn [fold_left map concat]. rewrite IH. unfold append_accum. cbn.
  by rewrite <- !app_assoc.
Qed.

End Merge.

Section MergeClaims.

(** X2.  The chunk loop ends normally exactly when every call of the
    provider is answered, and then each of the four merged arrays is the
    concatenation, in the order of the chunks, of what the response of
    each chunk contributes by itself; the extractor name is the model of
    the last response, and [unknown] when there was no chunk. *)
Theorem chunks_merge_in_order (callAI : provider) (chunks : list string)
    (merged : accum) (extractorName : string) :
  run_chunks callAI (length chunks) 0 chunks empty_accum "unknown"
  = Some (merged, extractorName)
  <-> exists replies : list (string * string),
        length replies = length chunks
        /\ (forall k chunk text model,
              chunks !! k = Some chunk ->
              replies !! k = Some (text, model) ->
              callAI k (prompt_of k (length chunks) chunk)
              = Reply text model)
        /\ merged
           = Accum
               (concat (map (fun r => allEntities (contribution r.1))
                          replies))
               (concat (map (fun r => allRelationships (contribution r.1))
                          replies))
               (concat (map (fun r => allInsights (contribution r.1))
                          replies))
               (concat (map (fun r => allFrontierHints (contribution r.1))
                          replies))
        /\ extractorName = default "unknown" (last (map snd replies)).
Proof.
  rewrite run_chunks_merge.
  split; intros (replies & Hl & Hk & Hm & Hn); exists replies;
    (split; [done|]); (split; [exact Hk|]); (split; [|done]);
    rewrite Hm, fold_append_accum; cbn; by rewrite !map_map.
Qed.

End MergeClaims.

Import JsString Json Parser PlainObject Store Pass PassSpec Examples Chunks
  PassRows.

(** ** The tables after a pass *)

Section KnownRows.

Context {builtins : Builtins}.

Variable projectId : string.

Lemma known_body_exact (created : list Territory) (kv : string * list id)
    (st : store) :
  known_body projectId created kv st
  = (mkStore (map (assign_territory kv.2 (next_id st)) (entities st))
       (edges st) (insights st)
       (territories st
        ++ [known_territory projectId kv.1 (length kv.2) (next_id st)])
       (agents st) (documents st) (S (next_id st)),
     Some (created
           ++ [known_territory projectId kv.1 (length kv.2) (next_id st)])).
Proof. by destruct kv. Qed.

Lemma known_loop_exact (groups : list (string * list id)) :
  forall (created : list Territory) (st : store),
    for_each groups (known_body projectId) created st
    = (mkStore (assign_known (next_id st) groups (entities st))
         (edges st) (insights st)
         (territories st ++ known_rows projectId (next_id st) groups)
         (agents st) (documents st) (next_id st + length groups),
       Some (created ++ known_rows projectId (next_id st) groups)).
Proof.
  induction groups as [|[type ids] groups IH]; intros created st.
  { destruct st. cbn. by rewrite !app_nil_r, Nat.add_0_r. }
  cbn [for_each]. unfold bind. rewrite known_body_exact, IH.
  cbn [next_id entities edges insights territories agents documents
       fst snd assign_known known_rows length].
  rewrite <- !app_assoc. cbn [app]. do 2 f_equal. lia.
Qed.

Lemma create_known_exact (territoriesMap : list (string * list id))
    (st : store) :
  create_known projectId territoriesMap st
  = (with_known projectId territoriesMap st,
     Some (known_rows projectId (next_id st) (entries territoriesMap))).
Proof.
  exact (known_loop_exact (entries territoriesMap) [] st).
Qed.

Lemma known_rows_length (n : id) (groups : list (string * list id)) :
  length (known_rows projectId n groups) = length groups.
Proof.
  revert n. induction groups as [|[type ids] groups IH]; intros n; [done|].
  cbn. by rewrite IH.
Qed.




End KnownRows.

Section AssignKnown.

Lemma assign_territory_id (ids : list id) (t : id) (e : Entity) :
  entity_id (assign_territory ids t e) = entity_id e
  /\ entity_name (assign_territory ids t e) = entity_name e
  /\ entity_type (assign_territory ids t e) = entity_type e.
Proof. unfold assign_territory. by destruct (bool_decide _). Qed.

Lemma assign_territory_other (ids : list id) (t : id) (e : Entity) :
  entity_id e ∉ ids -> assign_territory ids t e = e.
Proof.
  intros H. unfold assign_territory. by rewrite bool_decide_eq_false_2.
Qed.

Lemma assign_known_app (n : id) (groups : list (string * list id))
    (a b : list Entity) :
  assign_known n groups (a ++ b)
  = assign_known n groups a ++ assign_known n groups b.
Proof.
  revert n a b. induction groups as [|[type ids] groups IH]; intros n a b;
    [done|].
  cbn [assign_known]. by rewrite map_app, IH.
Qed.

Lemma assign_known_length (n : id) (groups : list (string * list id))
    (es : list Entity) :
  length (assign_known n groups es) = length es.
Proof.
  revert n es. induction groups as [|[type ids] groups IH]; intros n es;
    [done|].
  cbn [assign_known]. by rewrite IH, length_map.
Qed.

(** Entities that are in none of the groups stay as they are. *)
Lemma assign_known_other (n : id) (groups : list (string * list id))
    (es : list Entity) :
  Forall (fun e => forall kv, kv ∈ groups -> entity_id e ∉ kv.2) es ->
  assign_known n groups es = es.
Proof.
  revert n es. induction groups as [|[type ids] groups IH]; intros n es H;
    [done|].
  cbn [assign_known].
  assert (map (assign_territory ids n) es = es) as ->.
  { rewrite <- (map_id es) at 2. apply map_ext_Forall.
    eapply Forall_impl; [exact H|]. intros e He. cbn in He.
    apply assign_territory_other. apply (He (type, ids)).
    apply list_elem_of_here. }
  apply IH. eapply Forall_impl; [exact H|]. intros e He kv Hkv.
  apply He. by apply list_elem_of_further.
Qed.


End AssignKnown.

Section Tables.

Context {builtins : Builtins}.

Variables projectId documentId extractorName : string.
Variable r : ExtractionResult.

Lemma insight_rows_length (n : id) (l : list InsightData) :
  length (insight_rows projectId n l) = length l.
Proof. revert n. induction l as [|d l IH]; intros n; cbn; [done|]. by rewrite IH. Qed.

Lemma frontier_rows_length (n : id) (l : list HintData) :
  length (frontier_rows projectId n l) = length l.
Proof. revert n. induction l as [|d l IH]; intros n; cbn; [done|]. by rewrite IH. Qed.

Lemma explorer_rows_length (tm : list (string * list id)) (c n : id)
    (types : list string) :
  length (explorer_rows projectId tm c n types) = length types.
Proof. revert n. induction types as [|d l IH]; intros n; cbn; [done|]. by rewrite IH. Qed.

Lemma edge_rows_length_le (entityMap : gmap string id) (n : id)
    (l : list RelData) :
  length (edge_rows projectId documentId entityMap n l) <= length l.
Proof.
  revert n. induction l as [|d l IH]; intros n; cbn; [done|].
  destruct (endpoints entityMap d) as [[s t]|]; cbn.
  - specialize (IH (S n)). lia.
  - specialize (IH n). lia.
Qed.

(** Lines 295-413, step by step. *)
Lemma after_edges_unfold (created : list Entity) (cedges : list Edge)
    (st : store) :
  after_edges projectId documentId r created cedges st
  = let st1 := add_insights
                 (insight_rows projectId (next_id st) (r_insights r)) st in
    match group_by_type [] created with
    | None => (st1, None)
    | Some tm =>
        let st2 := with_known projectId tm st1 in
        let st3 := add_territories
                     (frontier_rows projectId (next_id st2)
                        (r_frontier_hints r)) st2 in
        let st4 := add_agents
                     (coordinator_agent projectId (length created)
                        (next_id st3)
                      :: explorer_rows projectId tm (next_id st3)
                           (S (next_id st3)) (majorTypes tm)) st3 in
        match document_update documentId
                (set_extracted (length created) (length cedges)) st4 with
        | (st5, Some _) =>
            (st5,
             Some (mkSummary (length created) (length cedges)
                     (length (r_insights r))
                     (length (entries tm) + length (r_frontier_hints r))
                     (S (length (majorTypes tm)))))
        | (st5, None) => (st5, None)
        end
    end.
Proof.
  unfold after_edges. unfold bind at 1. rewrite create_insights_run.
  cbv zeta. destruct (group_by_type [] created) as [tm|]; [|done].
  unfold bind at 1. rewrite create_known_exact.
  unfold bind at 1. rewrite create_frontier_run.
  unfold bind at 1. rewrite create_agents_run.
  unfold bind at 1.
  destruct (document_update _ _ _) as [st5 [[]|]]; [|done].
  unfold ret. do 3 f_equal.
  - apply insight_rows_length.
  - by rewrite length_app, known_rows_length, frontier_rows_length.
  - cbn [length]. by rewrite explorer_rows_length.
Qed.

(** The groups of the rows of a pass: one for each type that has rows,
    holding the identifiers of the rows of the type. *)
Lemma group_entries (rows : list Entity) (tm : list (string * list id)) :
  group_by_type [] rows = Some tm ->
  NoDup (map fst (entries tm))
  /\ forall type ids,
       (type, ids) ∈ entries tm
       <-> ids = ids_of_type type rows /\ ids <> [].
Proof.
  intros H. apply group_by_type_spec in H as [Hnd Hl]; [|constructor].
  split.
  { assert (map fst (entries tm) ≡ₚ map fst tm) as ->; [|done].
    apply Permutation_map, entries_Permutation. }
  intros type ids. rewrite (entries_Permutation tm).
  rewrite (lookup_own_elem tm type ids Hnd), Hl. cbn.
  destruct (ids_of_type type rows) as [|i l]; split.
  - done.
  - by intros [-> ?].
  - by intros [= <-].
  - by intros [-> _].
Qed.

End Tables.

Section Tables2.

Context {builtins : Builtins}.

Variables projectId documentId extractorName : string.
Variable r : ExtractionResult.

Lemma materialize_success (st st' : store) (s : summary) :
  materialize projectId documentId extractorName r st = (st', Some s) ->
  let rows := entity_rows projectId documentId extractorName (next_id st)
                (r_entities r) in
  let erows := edge_rows projectId documentId (entity_map_of rows ∅)
                 (next_id st + length (r_entities r))
                 (r_relationships r) in
  let n := (next_id st + length (r_entities r) + length erows
            + length (r_insights r))%nat in
  exists tm,
    let m := (n + length (entries tm) + length (r_frontier_hints r))%nat in
    group_by_type [] rows = Some tm
    /\ all_safe (entity_map_of rows ∅) (r_relationships r) = true
    /\ entities st' = assign_known n (entries tm) (entities st ++ rows)
    /\ edges st' = edges st ++ erows
    /\ insights st'
       = insights st
         ++ insight_rows projectId
              (next_id st + length (r_entities r) + length erows)
              (r_insights r)
    /\ territories st'
       = territories st ++ known_rows projectId n (entries tm)
         ++ frontier_rows projectId (n + length (entries tm))
              (r_frontier_hints r)
    /\ agents st'
       = agents st
         ++ coordinator_agent projectId (length (r_entities r)) m
            :: explorer_rows projectId tm m (S m) (majorTypes tm)
    /\ documents st'
       = map (fun d => if String.eqb (document_id d) documentId
                       then set_extracted (length (r_entities r))
                              (length erows) d
                       else d) (documents st)
    /\ next_id st' = S (m + length (majorTypes tm))
    /\ s = mkSummary (length (r_entities r)) (length erows)
             (length (r_insights r))
             (length (entries tm) + length (r_frontier_hints r))
             (S (length (majorTypes tm))).
Proof.
  intros H rows erows n. rewrite materialize_unfold in H.
  cbv zeta in H. fold rows in H.
  destruct (all_safe _ _) eqn:Hsafe; [|done].
  rewrite after_edges_unfold in H. cbv zeta in H.
  destruct (group_by_type [] rows) as [tm|] eqn:Hg; [|done].
  exists tm. cbv zeta. split; [done|]. split; [done|].
  unfold document_update in H.
  match type of H with context [existsb ?f ?l] =>
    destruct (existsb f l) eqn:Hex end; [|done].
  injection H as <- <-.
  unfold rows in *.
  cbn [entities edges insights territories agents documents next_id
       with_documents add_agents add_territories with_known add_insights
       add_edges add_entities].
  rewrite !entity_rows_length.
  rewrite ?insight_rows_length, ?frontier_rows_length,
    ?explorer_rows_length.
  fold rows. fold erows. fold n.
  rewrite <- !app_assoc.
  repeat split; try done.
  cbn [length]. rewrite explorer_rows_length. unfold n, erows, rows. lia.
Qed.

End Tables2.

Section Route.

Context {builtins : Builtins}.

Variable budget : nat.
Variable settings : Settings.
Variable ANTHROPIC_API_KEY : option string.
Variable callAI : provider.
Variables projectId docId : string.

(** The store once the document is marked as being processed
    (lines 107-111). *)
Lemma processing_run (st : store) (document : Document) :
  find_document docId projectId st = Some document ->
  document_update (document_id document) (set_status "processing") st
  = (with_documents
       (map (fun d => if String.eqb (document_id d) docId
                      then set_status "processing" d else d)
          (documents st)) st,
     Some tt).
Proof.
  intros H. apply find_document_id in H as [-> Hex].
  unfold document_update. by rewrite Hex.
Qed.

(** The ways the route ends once the document is found and the
    configuration accepted. *)
Lemma extract_with_unfold (st : store) (document : Document) :
  find_document docId projectId st = Some document ->
  config_error settings ANTHROPIC_API_KEY = None ->
  let chunks := Chunker.chunk_content budget
                  (default "" (document_content document)) in
  let st0 := with_documents
               (map (fun d => if String.eqb (document_id d) docId
                              then set_status "processing" d else d)
                  (documents st)) st in
  extract_with budget settings ANTHROPIC_API_KEY callAI projectId docId st
  = match run_chunks callAI (length chunks) 0 chunks empty_accum
            "unknown" with
    | None => (mark_failed docId st0, Status500 "Extraction failed")
    | Some (acc, extractorName) =>
        match read_result acc with
        | None => (st0, OutsideInterface)
        | Some r =>
            match materialize projectId docId extractorName r st0 with
            | (st', Some s) => (st', Status200 s)
            | (st', None) =>
                (mark_failed docId st', Status500 "Extraction failed")
            end
        end
    end.
Proof.
  intros Hf Hc chunks st0. unfold extract_with. rewrite Hf, Hc.
  unfold pass_body. unfold bind at 1. rewrite (processing_run st document Hf).
  fold chunks. fold st0.
  destruct (find_document_id _ _ _ _ Hf) as [-> _].
  destruct (run_chunks _ _ _ _ _ _) as [[acc name]|]; [|done].
  destruct (read_result acc) as [r|]; [|done].
  unfold bind. by destruct (materialize _ _ _ _ _) as [st' [s|]].
Qed.

End Route.

Import JsString Json Parser PlainObject Store Pass PassSpec Examples Chunks
  PassRows.

(** ** Documents *)

Section Documents.

Variable docId : string.

Lemma find_update (f : Document -> Document) (l : list Document) :
  (forall d, document_id (f d) = document_id d) ->
  find (fun d => String.eqb (document_id d) docId)
    (map (fun d => if String.eqb (document_id d) docId then f d else d) l)
  = f <$> find (fun d => String.eqb (document_id d) docId) l.
Proof.
  intros Hf. induction l as [|d l IH]; [done|]. cbn [map find].
  destruct (String.eqb (document_id d) docId) eqn:E.
  - by rewrite Hf, E.
  - by rewrite E.
Qed.

Lemma document_of_update (f : Document -> Document) (st st' : store) :
  (forall d, document_id (f d) = document_id d) ->
  document_update docId f st = (st', Some tt) ->
  document_of docId st' = f <$> document_of docId st.
Proof.
  intros Hf. unfold document_update, document_of.
  destruct (existsb _ _); [|done]. intros [= <-]. cbn [documents with_documents].
  by apply find_update.
Qed.

Lemma existsb_find (l : list Document) :
  existsb (fun d => String.eqb (document_id d) docId) l = true
  <-> is_Some (find (fun d => String.eqb (document_id d) docId) l).
Proof.
  induction l as [|d l IH]; cbn.
  - split; [done|]. by intros [? ?].
  - destruct (String.eqb (document_id d) docId); cbn; [|done].
    split; [by eexists|done].
Qed.

#[local] Instance same_document_refl : Reflexive (same_document docId).
Proof. intros d. by repeat split. Qed.

#[local] Instance same_document_trans : Transitive (same_document docId).
Proof.
  intros a b c (A1 & A2 & A3 & A4 & A5) (B1 & B2 & B3 & B4 & B5).
  repeat split; try congruence.
  intros Hne. rewrite B5; [by apply A5|]. by rewrite (A5 Hne).
Qed.

Lemma same_documents_update (f : Document -> Document)
    (l : list Document) :
  (forall d, document_id (f d) = document_id d
             /\ document_projectId (f d) = document_projectId d
             /\ document_filename (f d) = document_filename d
             /\ document_content (f d) = document_content d) ->
  Forall2 (same_document docId) l
    (map (fun d => if String.eqb (document_id d) docId then f d else d) l).
Proof.
  intros Hf. induction l as [|d l IH]; [constructor|].
  cbn [map]. constructor; [|done].
  destruct (String.eqb _ _) eqn:E; [|reflexivity].
  apply String.eqb_eq in E. destruct (Hf d) as (?&?&?&?).
  by repeat split.
Qed.

Lemma same_documents_exists (l l' : list Document) :
  Forall2 (same_document docId) l l' ->
  existsb (fun d => String.eqb (document_id d) docId) l'
  = existsb (fun d => String.eqb (document_id d) docId) l.
Proof.
  induction 1 as [|d d' l l' (E & _) _ IH]; [done|].
  cbn. by rewrite E, IH.
Qed.

(** Updating the document of the request leaves the other documents as
    they are. *)
Lemma document_update_same (f : Document -> Document) (st : store) :
  (forall d, document_id (f d) = document_id d
             /\ document_projectId (f d) = document_projectId d
             /\ document_filename (f d) = document_filename d
             /\ document_content (f d) = document_content d) ->
  Forall2 (same_document docId) (documents st)
    (documents (document_update docId f st).1).
Proof.
  intros Hf. unfold document_update. destruct (existsb _ _); [|reflexivity].
  by apply same_documents_update.
Qed.

End Documents.

#[local] Existing Instances same_document_refl same_document_trans.

(** ** What a pass leaves of the store it started from *)

Section Growth.

Context {builtins : Builtins}.

Variables projectId documentId extractorName : string.
Variable r : ExtractionResult.

Lemma assign_known_ids (n : id) (groups : list (string * list id))
    (es : list Entity) :
  map entity_id (assign_known n groups es) = map entity_id es
  /\ map entity_type (assign_known n groups es) = map entity_type es
  /\ map entity_name (assign_known n groups es) = map entity_name es.
Proof.
  revert n es. induction groups as [|[type ids] groups IH]; intros n es;
    [done|].
  cbn [assign_known]. destruct (IH (S n) (map (assign_territory ids n) es))
    as (-> & -> & ->).
  rewrite !map_map. repeat split; apply map_ext; intros e;
    by destruct (assign_territory_id ids n e) as (?&?&?).
Qed.

Lemma ids_of_type_sub (type : string) (rows : list Entity) (i : id) :
  i ∈ ids_of_type type rows ->
  exists e, e ∈ rows /\ entity_id e = i /\ entity_type e = type.
Proof.
  unfold ids_of_type. intros (e & -> & He)%list_elem_of_fmap.
  apply list_elem_of_filter in He as [? ?]. by exists e.
Qed.

(** The entities that were in the store before the pass are in no
    group of the pass. *)
Lemma assign_known_old (st : store) (n : id)
    (tm : list (string * list id)) :
  let rows := entity_rows projectId documentId extractorName (next_id st)
                (r_entities r) in
  fresh_ids st ->
  group_by_type [] rows = Some tm ->
  assign_known n (entries tm) (entities st ++ rows)
  = entities st ++ assign_known n (entries tm) rows.
Proof.
  intros rows Hfresh Hg. rewrite assign_known_app. f_equal.
  apply assign_known_other. eapply Forall_impl; [exact Hfresh|].
  intros e He [type ids] Hkv Hin. cbn in Hin, He.
  apply (group_entries rows tm Hg) in Hkv as [-> _].
  apply ids_of_type_sub in Hin as (e' & He' & Hid & _).
  assert (entity_id e' ∈ map entity_id rows) as Hm
    by (apply list_elem_of_fmap; by exists e').
  unfold rows in Hm. rewrite entity_rows_ids in Hm.
  apply list_elem_of_In, in_seq in Hm. lia.
Qed.

Lemma fresh_ids_app (st : store) (rows : list Entity) (m : id) :
  fresh_ids st ->
  map entity_id rows = seq (next_id st) (length rows) ->
  next_id st + length rows <= m ->
  Forall (fun e => entity_id e < m) (entities st ++ rows).
Proof.
  intros Hf Hids Hm. apply Forall_app. split.
  - eapply Forall_impl; [exact Hf|]. cbn. intros. lia.
  - apply Forall_forall. intros e He.
    assert (entity_id e ∈ map entity_id rows) as Hin
      by (apply list_elem_of_fmap; by exists e).
    rewrite Hids in Hin. apply list_elem_of_In, in_seq in Hin. lia.
Qed.

Lemma materialize_documents (st : store) :
  Forall2 (same_document documentId) (documents st)
    (documents (materialize projectId documentId extractorName r st).1).
Proof.
  rewrite materialize_unfold. cbv zeta.
  destruct (all_safe _ _); [|reflexivity].
  rewrite after_edges_unfold. cbv zeta.
  destruct (group_by_type _ _) as [tm|]; [|reflexivity].
  match goal with |- context [document_update ?d ?f ?s0] =>
    pose proof (document_update_same d f s0) as H;
    destruct (document_update d f s0) as [st5 [[]|]] end;
    cbn [fst] in *; by apply H.
Qed.

(** A pass that runs to its end has found its document. *)
Lemma materialize_found (st st' : store) (s : summary) :
  materialize projectId documentId extractorName r st = (st', Some s) ->
  existsb (fun d => String.eqb (document_id d) documentId) (documents st)
  = true.
Proof.
  rewrite materialize_unfold. cbv zeta.
  destruct (all_safe _ _); [|done].
  rewrite after_edges_unfold. cbv zeta.
  destruct (group_by_type _ _) as [tm|]; [|done].
  unfold document_update.
  cbn [documents with_documents add_agents add_territories with_known
       add_insights add_edges add_entities].
  by destruct (existsb _ _).
Qed.

Lemma materialize_grows (st : store) :
  fresh_ids st ->
  grows st (materialize projectId documentId extractorName r st).1.
Proof.
  intros Hfresh. rewrite materialize_unfold. cbv zeta.
  set (rows := entity_rows projectId documentId extractorName (next_id st)
                 (r_entities r)).
  assert (Hids : map entity_id rows = seq (next_id st) (length rows)).
  { unfold rows. by rewrite entity_rows_ids, entity_rows_length. }
  destruct (all_safe _ _).
  - rewrite after_edges_unfold. cbv zeta.
    destruct (group_by_type [] rows) as [tm|] eqn:Hg.
    + match goal with |- context [document_update ?d ?f ?s0] =>
        pose proof (document_update_frame d f s0) as Hd;
        destruct (document_update d f s0) as [st5 o] end.
      cbn [fst] in Hd. destruct Hd as (He & Hed & Hag & Hin & Hte & Hn).
      assert (grows st st5) as Hgr.
      { unfold grows, fresh_ids. rewrite He, Hed, Hag, Hin, Hte, Hn.
        cbn [entities edges insights territories agents next_id
             add_agents add_territories with_known add_insights
             add_edges add_entities].
        rewrite (assign_known_old st _ tm Hfresh Hg). fold rows.
        repeat split.
        - by eexists.
        - by eexists.
        - by eexists.
        - rewrite <- app_assoc. by eexists.
        - by eexists.
        - lia.
        - apply Forall_app. split.
          + eapply Forall_impl; [exact Hfresh|]. cbn. intros. lia.
          + apply Forall_forall. intros e He'.
            assert (entity_id e
                    ∈ map entity_id (assign_known
                        (next_id st + length rows
                         + length (edge_rows projectId documentId
                                     (entity_map_of rows ∅)
                                     (next_id st + length rows)
                                     (r_relationships r))
                         + length (insight_rows projectId
                                     (next_id st + length rows
                                      + length (edge_rows projectId
                                          documentId
                                          (entity_map_of rows ∅)
                                          (next_id st + length rows)
                                          (r_relationships r)))
                                     (r_insights r)))
                        (entries tm) rows)) as Hin'
              by (apply list_elem_of_fmap; by exists e).
            destruct (assign_known_ids
                        (next_id st + length rows
                         + length (edge_rows projectId documentId
                                     (entity_map_of rows ∅)
                                     (next_id st + length rows)
                                     (r_relationships r))
                         + length (insight_rows projectId
                                     (next_id st + length rows
                                      + length (edge_rows projectId
                                          documentId
                                          (entity_map_of rows ∅)
                                          (next_id st + length rows)
                                          (r_relationships r)))
                                     (r_insights r)))
                        (entries tm) rows) as (E & _).
            rewrite E, Hids in Hin'.
            apply list_elem_of_In, in_seq in Hin'. lia. }
      by destruct o.
    + unfold grows, fresh_ids.
      cbn [fst entities edges insights territories agents next_id
           add_insights add_edges add_entities].
      repeat split; try (by eexists); try reflexivity; [lia|].
      apply fresh_ids_app; [done..|lia].
  - unfold grows, fresh_ids.
    cbn [fst entities edges insights territories agents next_id
         add_edges add_entities].
    repeat split; try (by eexists); try reflexivity; [lia|].
    apply fresh_ids_app; [done..|lia].
Qed.

End Growth.

Section Grows.

Lemma grows_refl (st : store) : fresh_ids st -> grows st st.
Proof. intros H. by repeat split. Qed.

Lemma grows_trans (a b c : store) : grows a b -> grows b c -> grows a c.
Proof.
  intros (?&?&?&?&?&?&?) (?&?&?&?&?&?&?).
  repeat split; try (by etrans); try done; lia.
Qed.

(** A store that differs in its documents only. *)
Lemma grows_tables (st st' st'' : store) :
  entities st'' = entities st' -> edges st'' = edges st' ->
  agents st'' = agents st' -> insights st'' = insights st' ->
  territories st'' = territories st' -> next_id st'' = next_id st' ->
  grows st st' -> grows st st''.
Proof.
  unfold grows, fresh_ids. by intros -> -> -> -> -> ->.
Qed.

Lemma fresh_ids_tables (st st' : store) :
  entities st' = entities st -> next_id st' = next_id st ->
  fresh_ids st -> fresh_ids st'.
Proof. unfold fresh_ids. by intros -> ->. Qed.

End Grows.

Section RouteFacts.

Variable budget : nat.
Variable settings : Settings.
Variable ANTHROPIC_API_KEY : option string.
Variable callAI : provider.
Variables projectId docId : string.

Lemma config_error_response (response : response) :
  config_error settings ANTHROPIC_API_KEY = Some response ->
  response = Status400
  \/ response = Status500 "Claude API key not configured. Please add your API key in project settings or set ANTHROPIC_API_KEY environment variable.".
Proof.
  unfold config_error. destruct (String.eqb _ _); [intros [= <-]; by left|].
  destruct (_ && _); [|done]. intros [= <-]. by right.
Qed.

Lemma mark_failed_tables (st : store) :
  let st' := mark_failed docId st in
  entities st' = entities st /\ edges st' = edges st
  /\ agents st' = agents st /\ insights st' = insights st
  /\ territories st' = territories st /\ next_id st' = next_id st.
Proof. apply document_update_frame. Qed.

Lemma mark_failed_documents (st : store) :
  Forall2 (same_document docId) (documents st)
    (documents (mark_failed docId st)).
Proof. by apply document_update_same. Qed.

Lemma mark_failed_status (st : store) :
  existsb (fun d => String.eqb (document_id d) docId) (documents st)
  = true ->
  status_of docId (mark_failed docId st) = Some "failed".
Proof.
  intros Hex.
  apply (document_update_status docId "failed" (set_status "failed") st
           (mark_failed docId st)); [done..|].
  unfold mark_failed, document_update. by rewrite Hex.
Qed.

Lemma started_documents (st : store) :
  Forall2 (same_document docId) (documents st)
    (documents (started docId st)).
Proof. by apply same_documents_update. Qed.

End RouteFacts.

Import JsString Json Parser PlainObject Store Pass PassSpec Examples Chunks
  PassRows MoreExamples.

(** ** The extraction route as a whole *)

Section RouteClaims2.

(** X3.  A request never changes or removes what earlier passes left.
    Take a request whose merged arrays hold elements of the declared
    types only.  Whatever way it ends, the entities, edges, insights,
    territories and agents that were in the store are still there,
    unchanged and in their places, with the new rows after them; and of
    the documents only the status and the counters of the document of
    the request can change. *)
Theorem pass_only_appends {builtins : Builtins}
    (budget : nat) (settings : Settings)
    (ANTHROPIC_API_KEY : option string) (callAI : provider)
    (projectId docId : string) (st : store) :
  fresh_ids st ->
  (extract_with budget settings ANTHROPIC_API_KEY callAI projectId docId
     st).2 <> OutsideInterface ->
  let st' := (extract_with budget settings ANTHROPIC_API_KEY callAI
                projectId docId st).1 in
  entities st `prefix_of` entities st'
  /\ edges st `prefix_of` edges st'
  /\ insights st `prefix_of` insights st'
  /\ territories st `prefix_of` territories st'
  /\ agents st `prefix_of` agents st'
  /\ Forall2 (same_document docId) (documents st) (documents st')
  /\ fresh_ids st'.
Proof.
  intros Hfresh _.
  enough (grows st (extract_with budget settings ANTHROPIC_API_KEY callAI
                      projectId docId st).1
          /\ Forall2 (same_document docId) (documents st)
               (documents (extract_with budget settings ANTHROPIC_API_KEY
                             callAI projectId docId st).1)) as H.
  { cbv zeta. destruct H as [(?&?&?&?&?&?&?) ?]. by repeat split. }
  destruct (find_document docId projectId st) as [document|] eqn:Hf.
  2:{ unfold extract_with. rewrite Hf. cbn. split; [by apply grows_refl|].
      reflexivity. }
  destruct (config_error settings ANTHROPIC_API_KEY) as [resp|] eqn:Hc.
  { unfold extract_with. rewrite Hf, Hc. cbn.
    split; [by apply grows_refl|]. reflexivity. }
  rewrite (extract_with_unfold budget settings ANTHROPIC_API_KEY callAI
             projectId docId st document Hf Hc).
  cbv zeta. fold (started docId st).
  assert (Hs : grows st (started docId st)).
  { eapply grows_tables; [..|by apply grows_refl]; done. }
  assert (Hsf : fresh_ids (started docId st)) by apply Hs.
  pose proof (started_documents docId st) as Hsd.
  assert (Hfail : forall st1, grows st st1 ->
            Forall2 (same_document docId) (documents st) (documents st1) ->
            grows st (mark_failed docId st1)
            /\ Forall2 (same_document docId) (documents st)
                 (documents (mark_failed docId st1))).
  { intros st1 H1 H2. split.
    - destruct (mark_failed_tables docId st1) as (?&?&?&?&?&?).
      by eapply grows_tables.
    - etrans; [exact H2|]. apply mark_failed_documents. }
  destruct (run_chunks _ _ _ _ _ _) as [[acc name]|];
    [|by apply Hfail].
  destruct (read_result acc) as [r|]; [|done].
  pose proof (materialize_grows projectId docId name r _ Hsf) as Hg.
  pose proof (materialize_documents projectId docId name r
                (started docId st)) as Hd.
  destruct (materialize _ _ _ _ _) as [st1 [s|]]; cbn [fst] in *.
  - split; [exact (grows_trans _ _ _ Hs Hg)|].
    etrans; [exact Hsd|exact Hd].
  - apply Hfail; [exact (grows_trans _ _ _ Hs Hg)|].
    etrans; [exact Hsd|exact Hd].
Qed.

(** An instance: a second pass over a store that holds the rows of a
    first pass. *)
Lemma pass_only_appends_witness :
  let st' := (extract_with 5 ollama None finds_acme "proj" "doc"
                after_one_pass).1 in
  entities after_one_pass `prefix_of` entities st'
  /\ agents after_one_pass `prefix_of` agents st'.
Proof.
  destruct (pass_only_appends 5 ollama None finds_acme "proj" "doc"
              after_one_pass) as (H1 & _ & _ & _ & H2 & _).
  - vm_compute. repeat constructor.
  - vm_compute. discriminate.
  - split; [exact H1|exact H2].
Defined.

(** X4.  The summary counts what the pass did.  When the
    materialization of a merged result runs to its end, each number of
    its summary is the number of rows added to the table: one entity
    for each merged entity, one insight for each merged insight, at
    most one edge for each merged relationship, and at least one agent,
    the coordinator.  The document is left with status [extracted] and
    with the entity and edge counters of the summary. *)
Theorem completed_pass_counts {builtins : Builtins}
    (projectId documentId extractorName : string) (r : ExtractionResult)
    (st st' : store) (s : summary) :
  materialize projectId documentId extractorName r st = (st', Some s) ->
  length (entities st') = (length (entities st) + s_entities s)%nat
  /\ length (edges st') = (length (edges st) + s_relationships s)%nat
  /\ length (insights st') = (length (insights st) + s_insights s)%nat
  /\ length (territories st')
     = (length (territories st) + s_territories s)%nat
  /\ length (agents st') = (length (agents st) + s_agents s)%nat
  /\ s_entities s = length (r_entities r)
  /\ s_insights s = length (r_insights r)
  /\ (s_relationships s <= length (r_relationships r))%nat
  /\ (1 <= s_agents s)%nat
  /\ exists d,
       document_of documentId st' = Some d
       /\ document_status d = "extracted"
       /\ document_entityCount d = s_entities s
       /\ document_edgeCount d = s_relationships s.
Proof.
  intros Hm.
  pose proof (materialize_found projectId documentId extractorName r
                st st' s Hm) as Hex.
  apply materialize_success in Hm
    as (tm & _ & _ & He & Hed & Hi & Ht & Ha & Hd & _ & ->).
  cbn [s_entities s_relationships s_insights s_territories s_agents].
  rewrite He, Hed, Hi, Ht, Ha.
  rewrite assign_known_length, !length_app, entity_rows_length,
    insight_rows_length, known_rows_length, frontier_rows_length.
  cbn [length]. rewrite explorer_rows_length.
  repeat split; try lia.
  { apply edge_rows_length_le. }
  apply existsb_find in Hex as [d0 Hd0].
  eexists. unfold document_of. rewrite Hd.
  rewrite find_update by done.
  rewrite Hd0. cbn. split; [reflexivity|]. done.
Qed.

(** An instance: the materialization example of the specification. *)
Lemma completed_pass_counts_witness :
  let st' := (materialize "proj" "doc" "llama3.2" acme_bob_ghost
                (store_with "")).1 in
  length (entities st') = 2%nat
  /\ length (edges st') = 0%nat
  /\ exists d, document_of "doc" st' = Some d
               /\ document_status d = "extracted".
Proof.
  destruct (completed_pass_counts "proj" "doc" "llama3.2" acme_bob_ghost
              (store_with "")
              (materialize "proj" "doc" "llama3.2" acme_bob_ghost
                 (store_with "")).1
              (mkSummary 2 0 0 2 1))
    as (H1 & H2 & _ & _ & _ & _ & _ & _ & _ & d & Hd & Hs & _).
  - vm_compute. reflexivity.
  - split; [exact H1|]. split; [exact H2|]. by exists d.
Defined.

(** X5.  The ways a request ends, for a request whose merged arrays
    hold elements of the declared types only.  A request that is refused
    (unknown document, provider switched off or without key) creates no
    entity, edge, insight, territory or agent and leaves the documents
    as they are.  Any other response of status 500 is the extraction
    failure, and it leaves the document marked [failed].  A request
    that is not refused leaves the document [failed] or [extracted],
    never [processing]. *)
Theorem failure_marks_document {builtins : Builtins}
    (budget : nat) (settings : Settings)
    (ANTHROPIC_API_KEY : option string) (callAI : provider)
    (projectId docId : string) (st : store) :
  let out := extract_with budget settings ANTHROPIC_API_KEY callAI
               projectId docId st in
  out.2 <> OutsideInterface ->
  ((out.2 = Status404 \/ out.2 = Status400
    \/ (exists error, out.2 = Status500 error
                      /\ error <> "Extraction failed")) ->
   entities out.1 = entities st /\ edges out.1 = edges st
   /\ insights out.1 = insights st /\ territories out.1 = territories st
   /\ agents out.1 = agents st /\ documents out.1 = documents st)
  /\ (forall error,
        out.2 = Status500 error ->
        (error = "Extraction failed"
         /\ status_of docId out.1 = Some "failed")
        \/ (error <> "Extraction failed"
            /\ config_error settings ANTHROPIC_API_KEY
               = Some (Status500 error)))
  /\ (forall document,
        find_document docId projectId st = Some document ->
        config_error settings ANTHROPIC_API_KEY = None ->
        (out.2 = Status500 "Extraction failed"
         /\ status_of docId out.1 = Some "failed")
        \/ (exists s, out.2 = Status200 s
                      /\ status_of docId out.1 = Some "extracted")).
Proof.
  cbv zeta.
  destruct (find_document docId projectId st) as [document|] eqn:Hf.
  2:{ unfold extract_with. rewrite Hf. cbn. by repeat split. }
  destruct (config_error settings ANTHROPIC_API_KEY) as [resp|] eqn:Hc.
  { unfold extract_with. rewrite Hf, Hc. cbn. intros _.
    repeat split; try done. intros error ->. right.
    apply config_error_response in Hc as [[=] | [= ->]]. done. }
  rewrite (extract_with_unfold budget settings ANTHROPIC_API_KEY callAI
             projectId docId st document Hf Hc).
  cbv zeta. fold (started docId st).
  apply find_document_id in Hf as [_ Hex].
  assert (Hfail : forall st1,
            Forall2 (same_document docId) (documents st) (documents st1) ->
            status_of docId (mark_failed docId st1) = Some "failed").
  { intros st1 H1. apply mark_failed_status.
    by rewrite (same_documents_exists docId _ _ H1). }
  pose proof (started_documents docId st) as Hsd.
  destruct (run_chunks _ _ _ _ _ _) as [[acc name]|].
  2:{ cbn. intros _. split; [|split].
      - intros [[=]|[[=]|(error & [= <-] & ?)]]. done.
      - intros error [= <-]. left. split; [done|]. by apply Hfail.
      - intros _ _ _. left. split; [done|]. by apply Hfail. }
  destruct (read_result acc) as [r|]; [|by cbn].
  pose proof (materialize_documents projectId docId name r
                (started docId st)) as Hd.
  destruct (materialize _ _ _ _ _) as [st1 [s|]] eqn:Hm;
    cbn [fst snd] in *; intros _.
  - split; [|split].
    + intros [[=]|[[=]|(error & [=] & _)]].
    + intros error [=].
    + intros _ _ _. right. exists s. split; [done|].
      pose proof (materialize_found _ _ _ _ _ _ _ Hm) as Hex'.
      apply materialize_success in Hm
        as (tm & _ & _ & _ & _ & _ & _ & _ & Hdocs & _).
      unfold status_of. rewrite Hdocs, find_update by done.
      apply existsb_find in Hex' as [d0 ->]. done.
  - split; [|split].
    + intros [[=]|[[=]|(error & [= <-] & ?)]]. done.
    + intros error [= <-]. left. split; [done|].
      apply Hfail. etrans; [exact Hsd|exact Hd].
    + intros _ _ _. left. split; [done|].
      apply Hfail. etrans; [exact Hsd|exact Hd].
Qed.

(** An instance: the pass over three chunks. *)
Lemma failure_marks_document_witness :
  status_of "doc" after_one_pass = Some "extracted".
Proof.
  destruct (failure_marks_document 5 ollama None finds_acme "proj" "doc"
              (store_with three_words)) as (_ & _ & H).
  - vm_compute. discriminate.
  - destruct (H (mkDocument "doc" "proj" "notes.txt" (Some three_words)
                   "uploaded" 0 0))
      as [[H1 _]|(s & _ & H2)]; [reflexivity|reflexivity| |exact H2].
    vm_compute in H1. discriminate.
Defined.

End RouteClaims2.

Section Blank.

Lemma chunk_content_blank (budget : nat) (content : string) :
  all_nl content = true -> (2 <= String.length content)%nat ->
  (budget < String.length content)%nat ->
  Chunker.chunk_content budget content = [].
Proof.
  intros Hall H2 Hlen. rewrite chunk_content_groups by done.
  destruct (chunk_groups_spec budget content) as [Hg Hk].
  assert (Forall (fun x => x = "") (split_blank_lines content)) as HF.
  { apply split_blank_lines_empty. by right. }
  destruct (Chunker.chunk_groups budget content) as [|g gs]; [done|].
  exfalso. apply Forall_cons in Hg as [[(s & r & -> & Hs) _] _].
  assert (s ∈ Chunker.keep (split_blank_lines content)) as Hsk.
  { rewrite <- Hk. apply list_elem_of_filter. split; [done|].
    cbn. apply list_elem_of_here. }
  apply list_elem_of_filter in Hsk as [_ Hsk].
  rewrite Forall_forall in HF. by apply Hs, HF.
Qed.

Lemma materialize_nothing {builtins : Builtins}
    (projectId docId name : string) (st : store) :
  existsb (fun d => String.eqb (document_id d) docId) (documents st)
  = true ->
  materialize projectId docId name (mkResult [] [] [] []) st
  = (mkStore (entities st) (edges st) (insights st) (territories st)
       (agents st ++ [coordinator_agent projectId 0 (next_id st)])
       (map (fun d => if String.eqb (document_id d) docId
                      then set_extracted 0 0 d else d) (documents st))
       (S (next_id st)),
     Some (mkSummary 0 0 0 0 1)).
Proof.
  intros Hex. rewrite materialize_unfold. cbv zeta.
  cbn [r_entities r_relationships entity_rows all_safe forallb edge_rows].
  rewrite after_edges_unfold. cbv zeta.
  cbn [r_insights r_frontier_hints insight_rows frontier_rows group_by_type].
  assert (entries (@nil (string * list id)) = []) as Hnil by reflexivity.
  assert (majorTypes [] = []) as Hmaj by reflexivity.
  unfold with_known. rewrite Hnil, Hmaj.
  unfold document_update.
  cbn [add_entities add_edges add_insights add_territories add_agents
       entities edges insights territories agents documents next_id
       assign_known known_rows explorer_rows length with_documents].
  rewrite Hex.
  unfold with_documents, add_agents, add_territories.
  cbn [add_entities add_edges add_insights add_territories add_agents
       entities edges insights territories agents documents next_id
       assign_known known_rows explorer_rows length with_documents].
  rewrite ?app_nil_r, ?Nat.add_0_r, ?Nat.add_1_r. reflexivity.
Qed.

(** X6.  A document that consists of line feeds only and is longer
    than the budget is cut into no chunk at all: the provider is not
    called, and the pass nevertheless ends as a success that creates one
    coordinator agent managing no entity and marks the document
    [extracted] with both counters at 0. *)
Theorem blank_document_pass {builtins : Builtins}
    (budget : nat) (settings : Settings)
    (ANTHROPIC_API_KEY : option string) (callAI : provider)
    (projectId docId : string) (st : store) (document : Document)
    (content : string) :
  find_document docId projectId st = Some document ->
  config_error settings ANTHROPIC_API_KEY = None ->
  document_content document = Some content ->
  all_nl content = true ->
  (2 <= String.length content)%nat ->
  (budget < String.length content)%nat ->
  let out := extract_with budget settings ANTHROPIC_API_KEY callAI
               projectId docId st in
  out.2 = Status200 (mkSummary 0 0 0 0 1)
  /\ agents out.1 = agents st ++ [coordinator_agent projectId 0 (next_id st)]
  /\ entities out.1 = entities st /\ edges out.1 = edges st
  /\ insights out.1 = insights st /\ territories out.1 = territories st
  /\ (exists d, document_of docId out.1 = Some d
                /\ document_status d = "extracted"
                /\ document_entityCount d = 0%nat
                /\ document_edgeCount d = 0%nat).
Proof.
  intros Hf Hc Hcontent Hall H2 Hlen.
  rewrite (extract_with_unfold budget settings ANTHROPIC_API_KEY callAI
             projectId docId st document Hf Hc).
  cbv zeta. rewrite Hcontent. cbn [default].
  rewrite chunk_content_blank by done. cbn [run_chunks length].
  change (read_result empty_accum) with (Some (mkResult [] [] [] [])).
  cbv iota beta. fold (started docId st).
  apply find_document_id in Hf as [_ Hex].
  rewrite materialize_nothing.
  2:{ by rewrite (same_documents_exists docId _ _
                    (started_documents docId st)). }
  cbn [fst snd agents entities edges insights territories started
       with_documents next_id].
  repeat split.
  apply existsb_find in Hex as [d0 Hd0].
  eexists. unfold document_of. cbn [documents].
  rewrite find_update by done. unfold started. cbn [documents with_documents].
  rewrite find_update by done. rewrite Hd0. cbn. by repeat split.
Qed.

(** An instance: three line feeds under a budget of one character. *)
Lemma blank_document_pass_witness :
  (extract_with 1 ollama None second_call_fails "proj" "doc"
     (store_with blank_lines)).2
  = Status200 (mkSummary 0 0 0 0 1).
Proof.
  apply (blank_document_pass 1 ollama None second_call_fails "proj" "doc"
           (store_with blank_lines)
           (mkDocument "doc" "proj" "notes.txt" (Some blank_lines)
              "uploaded" 0 0) blank_lines);
    try reflexivity; vm_compute; lia.
Defined.

End Blank.

Import JsString Json Parser PlainObject Store Pass PassSpec Examples Chunks
  PassRows MoreExamples.

(** ** Territory deriver *)

Section Deriver.

Context {builtins : Builtins}.

Variables projectId documentId extractorName : string.
Variable r : ExtractionResult.

Lemma NoDup_map_eq {A B} (f : A -> B) (l : list A) (x y : A) :
  NoDup (map f l) -> x ∈ l -> y ∈ l -> f x = f y -> x = y.
Proof.
  intros Hnd [i Hi]%list_elem_of_lookup [j Hj]%list_elem_of_lookup E.
  assert (map f l !! i = Some (f x)) as H1
    by (by rewrite list_lookup_fmap, Hi).
  assert (map f l !! j = Some (f x)) as H2
    by (by rewrite list_lookup_fmap, Hj, E).
  pose proof (NoDup_lookup _ _ _ _ Hnd H1 H2) as ->. congruence.
Qed.





End Deriver.

Section DeriverClaims.





End DeriverClaims.

(** ** Edges *)

Section EdgesOfPass.

Lemma safe_prefix_sublist (entityMap : gmap string id) (l : list RelData) :
  safe_prefix entityMap l `sublist_of` l.
Proof.
  induction l as [|rel l IH]; [done|]. cbn.
  destruct (reaches_prototype entityMap rel).
  - apply sublist_nil_l.
  - by apply sublist_skip.
Qed.

Lemma edge_rows_kept (projectId documentId : string)
    (entityMap : gmap string id) (l : list RelData) :
  forall n : id,
    exists kept,
      kept `sublist_of` l
      /\ map (fun e => (edge_label e, edge_weight e, edge_projectId e,
                        edge_documentId e))
           (edge_rows projectId documentId entityMap n l)
         = map (fun rel => (rd_label rel, weight_or_1 (rd_weight rel),
                            projectId, documentId)) kept.
Proof.
  induction l as [|rel l IH]; intros n.
  { exists []. by split. }
  cbn [edge_rows]. destruct (endpoints entityMap rel) as [[s t]|].
  - destruct (IH (S n)) as (kept & Hs & E). exists (rel :: kept).
    split; [by apply sublist_skip|]. cbn. by rewrite E.
  - destruct (IH n) as (kept & Hs & E). exists kept.
    split; [by apply sublist_cons|done].
Qed.

(** X9.  The edges of a pass, whatever way the pass ends: they follow
    the order of the merged relationships, at most one for each, with
    the label of the relationship and the project and document of the
    pass; the weight is that of the relationship, and 1 when the
    relationship has none or has 0, so that no edge has weight 0. *)
Theorem edges_of_pass {builtins : Builtins}
    (projectId documentId extractorName : string)
    (r : ExtractionResult) (st : store) :
  let st' := (materialize projectId documentId extractorName r st).1 in
  exists kept : list RelData,
    kept `sublist_of` r_relationships r
    /\ map (fun e => (edge_label e, edge_weight e, edge_projectId e,
                      edge_documentId e)) (new_edges st st')
       = map (fun rel => (rd_label rel,
                          if (rd_weight rel =? 0)%Z then 1%Z
                          else rd_weight rel,
                          projectId, documentId)) kept
    /\ Forall (fun e => edge_weight e <> 0%Z) (new_edges st st').
Proof.
  cbv zeta.
  destruct (materialize_rows projectId documentId extractorName r st)
    as (_ & _ & He).
  unfold new_edges. rewrite He, drop_app_length.
  match goal with |- context [edge_rows _ _ ?m ?n ?l] =>
    destruct (edge_rows_kept projectId documentId m l n)
      as (kept & Hs & E) end.
  exists kept. split; [|split].
  - etrans; [exact Hs|]. apply safe_prefix_sublist.
  - exact E.
  - apply Forall_forall. intros e He'.
    assert (edge_weight e
            ∈ map (fun x : string * Z * string * string => x.1.1.2)
                (map (fun e => (edge_label e, edge_weight e,
                                edge_projectId e, edge_documentId e))
                   (edge_rows projectId documentId
                      (entity_map_of
                         (entity_rows projectId documentId extractorName
                            (next_id st) (r_entities r)) ∅)
                      (next_id st + length (r_entities r))
                      (safe_prefix
                         (entity_map_of
                            (entity_rows projectId documentId
                               extractorName (next_id st) (r_entities r))
                            ∅)
                         (r_relationships r))))) as Hin.
    { rewrite map_map. apply list_elem_of_fmap. by exists e. }
    rewrite E, map_map in Hin.
    apply list_elem_of_fmap in Hin as (rel & -> & _). cbn.
    unfold weight_or_1. destruct (rd_weight rel =? 0)%Z eqn:Hw; [done|].
    by apply Z.eqb_neq.
Qed.

End EdgesOfPass.

Import JsString Reconcile Examples AgentTree.

(** ** The merge of the agents, group by group *)

Section MergeGroups.

Variable Date_parse : string -> option Z.

#[local] Abbreviation merge_into := (merge_into Date_parse).
#[local] Abbreviation upsert := (upsert Date_parse).
#[local] Abbreviation merge_all := (merge_all Date_parse).
#[local] Abbreviation deduplicateAgents := (deduplicateAgents Date_parse).
#[local] Abbreviation merge_list := (merge_list Date_parse).
#[local] Abbreviation later := (later Date_parse).

#[local] Abbreviation entry := (merge_entry Date_parse).

Lemma upsert_groups (groups : list (string * list Agent)) (key : string)
    (a : Agent) :
  Forall (fun kg => kg.2 <> []) groups ->
  upsert (omap entry groups) key a
  = omap entry (add_to_group groups key a).
Proof.
  induction groups as [|[k g] groups IH]; intros Hne; [done|].
  apply Forall_cons in Hne as [Hg Hne]. cbn in Hg.
  destruct g as [|first rest]; [done|].
  cbn [omap list_omap add_to_group]. unfold merge_entry at 1. cbn.
  destruct (String.eqb k key) eqn:E.
  - cbn [omap list_omap]. unfold merge_entry at 2. cbn.
    by rewrite fold_left_app.
  - cbn [omap list_omap]. unfold merge_entry at 2. cbn.
    fold (omap entry groups). fold (omap entry (add_to_group groups key a)).
    by rewrite IH.
Qed.

Lemma add_to_group_nonempty {T} (groups : list (string * list T))
    (key : string) (t : T) :
  Forall (fun kg => kg.2 <> []) groups ->
  Forall (fun kg => kg.2 <> []) (add_to_group groups key t).
Proof.
  induction groups as [|[k g] groups IH]; intros Hne.
  - by repeat constructor.
  - apply Forall_cons in Hne as [Hg Hne]. cbn.
    destruct (String.eqb k key).
    + constructor; [|done]. cbn. by destruct g.
    + constructor; [done|]. by apply IH.
Qed.

Lemma group_rows_nonempty {T} (key : T -> string) (items : list T) :
  Forall (fun kg => kg.2 <> []) (group_rows key items).
Proof.
  induction items as [|t items IH] using rev_ind; [constructor|].
  rewrite group_rows_snoc. by apply add_to_group_nonempty.
Qed.

(** The map of the merge holds, for each group, the merge of the
    group. *)
Lemma merge_all_groups (agents : list Agent) :
  merge_all agents [] = omap entry (group_rows agent_key agents).
Proof.
  induction agents as [|a agents IH] using rev_ind; [done|].
  unfold Reconcile.merge_all in *. rewrite fold_left_app. cbn [fold_left].
  rewrite IH, group_rows_snoc. apply upsert_groups, group_rows_nonempty.
Qed.

Lemma deduplicateAgents_groups (agents : list Agent) :
  deduplicateAgents agents
  = omap (fun k => merge_list (key_group k agents))
      (first_occurrences (map agent_key agents) []).
Proof.
  unfold Reconcile.deduplicateAgents. rewrite merge_all_groups.
  rewrite group_rows_spec. unfold groups_of.
  induction (first_occurrences (map agent_key agents) []) as [|k ks IH];
    [done|].
  cbn [map omap list_omap]. unfold merge_entry at 1. cbn [fst snd].
  fold (key_group k agents).
  destruct (merge_list (key_group k agents)) as [m|]; cbn; by rewrite IH.
Qed.

End MergeGroups.

Section MergeFields.

Variable Date_parse : string -> option Z.

#[local] Abbreviation merge_into := (merge_into Date_parse).
#[local] Abbreviation later := (later Date_parse).

(** What one merge step does to each field. *)
Lemma merge_into_fields (existing agent : Agent) :
  let m := merge_into existing agent in
  a_id m = a_id existing /\ a_name m = a_name existing
  /\ a_role m = a_role existing
  /\ a_parentAgentId m = a_parentAgentId existing
  /\ a_childAgents m = a_childAgents existing
  /\ a_entitiesManaged m
     = (a_entitiesManaged existing + a_entitiesManaged agent)%Z
  /\ a_status m
     = (if is_active agent && negb (is_active existing)
        then "active" else a_status existing)
  /\ a_description m
     = (if truthy_opt (a_description agent)
           && negb (truthy_opt (a_description existing))
        then a_description agent else a_description existing)
  /\ a_domain m
     = (if truthy_opt (a_domain agent)
           && negb (truthy_opt (a_domain existing))
        then a_domain agent else a_domain existing)
  /\ (a_createdAt m, a_updatedAt m)
     = (if later (a_createdAt agent) (a_createdAt existing)
        then (a_createdAt agent, a_updatedAt agent)
        else (a_createdAt existing, a_updatedAt existing)).
Proof.
  unfold Reconcile.merge_into, fill_domain, fill_description, keep_latest,
    prefer_active, add_count, is_active.
  cbn [a_id a_name a_role a_status a_domain a_description
       a_entitiesManaged a_parentAgentId a_childAgents a_createdAt
       a_updatedAt].
  destruct (String.eqb (a_status agent) "active") eqn:Ea;
    destruct (String.eqb (a_status existing) "active") eqn:Ee;
    cbn [andb negb a_id a_name a_role a_status a_domain a_description
         a_entitiesManaged a_parentAgentId a_childAgents a_createdAt
         a_updatedAt];
    destruct (Reconcile.later Date_parse (a_createdAt agent)
                (a_createdAt existing));
    cbn [andb negb a_id a_name a_role a_status a_domain a_description
         a_entitiesManaged a_parentAgentId a_childAgents a_createdAt
         a_updatedAt];
    destruct (truthy_opt (a_description agent));
    destruct (truthy_opt (a_description existing));
    cbn [andb negb a_id a_name a_role a_status a_domain a_description
         a_entitiesManaged a_parentAgentId a_childAgents a_createdAt
         a_updatedAt];
    destruct (truthy_opt (a_domain agent));
    destruct (truthy_opt (a_domain existing));
    cbn [andb negb a_id a_name a_role a_status a_domain a_description
         a_entitiesManaged a_parentAgentId a_childAgents a_createdAt
         a_updatedAt];
    repeat split; try done; by apply String.eqb_eq in Ea.
Qed.

Lemma total_snoc (l : list Agent) (a : Agent) :
  total (l ++ [a]) = (total l + a_entitiesManaged a)%Z.
Proof.
  unfold total. induction l as [|x l IH]; cbn; [lia|].
  cbn in IH. rewrite IH. lia.
Qed.

Lemma find_app {A} (f : A -> bool) (l k : list A) :
  find f (l ++ k)
  = match find f l with Some x => Some x | None => find f k end.
Proof.
  induction l as [|x l IH]; [done|]. cbn. by destruct (f x).
Qed.

Lemma first_text_snoc (d x : option string) (l : list (option string)) :
  first_text d ((d :: l) ++ [x])
  = (if truthy_opt x && negb (truthy_opt (first_text d (d :: l))) then x
     else first_text d (d :: l)).
Proof.
  unfold first_text. rewrite find_app.
  destruct (find truthy_opt (d :: l)) as [y|] eqn:E.
  - apply find_some in E as [_ E]. simpl. rewrite E.
    by rewrite andb_false_r.
  - pose proof (find_none _ _ E d (or_introl eq_refl)) as Hd.
    simpl. rewrite Hd. simpl.
    rewrite andb_true_r. by destruct (truthy_opt x).
Qed.

(** The merge of a group, field by field. *)
Lemma merge_fold_spec (first : Agent) (rest : list Agent) :
  let m := fold_left merge_into rest first in
  let group := first :: rest in
  a_id m = a_id first /\ a_name m = a_name first
  /\ a_role m = a_role first
  /\ a_parentAgentId m = a_parentAgentId first
  /\ a_childAgents m = a_childAgents first
  /\ a_entitiesManaged m = total group
  /\ a_status m
     = (if existsb is_active group then "active" else a_status first)
  /\ a_description m
     = first_text (a_description first) (map a_description group)
  /\ a_domain m = first_text (a_domain first) (map a_domain group)
  /\ (exists a, a ∈ group /\ a_createdAt m = a_createdAt a
                /\ a_updatedAt m = a_updatedAt a)
  /\ (forall b, b ∈ group ->
                later (a_createdAt b) (a_createdAt m) = false).
Proof.
  induction rest as [|a rest IH] using rev_ind.
  { cbn. repeat split.
    - unfold total. cbn. lia.
    - unfold is_active. destruct (String.eqb _ _) eqn:E; [|done].
      by apply String.eqb_eq in E.
    - unfold first_text. cbn. by destruct (truthy_opt _).
    - unfold first_text. cbn. by destruct (truthy_opt _).
    - exists first. split; [apply list_elem_of_here|done].
    - intros b ->%list_elem_of_singleton. unfold Reconcile.later.
      destruct (Date_parse _); [|done]. apply Z.ltb_irrefl. }
  cbv zeta in *. rewrite fold_left_app. cbn [fold_left].
  set (m := fold_left merge_into rest first) in *.
  destruct IH as (I1 & I2 & I3 & I4 & I5 & I6 & I7 & I8 & I9 & I10 & I11).
  destruct (merge_into_fields m a)
    as (M1 & M2 & M3 & M4 & M5 & M6 & M7 & M8 & M9 & M10).
  cbv zeta in *.
  rewrite M1, M2, M3, M4, M5, M6, M7, M8, M9.
  rewrite I1, I2, I3, I4, I5, I6.
  change (first :: rest ++ [a]) with ((first :: rest) ++ [a]).
  rewrite total_snoc, existsb_app, !map_app.
  cbn [map existsb orb].
  change (a_description first :: map a_description rest)
    with (map a_description (first :: rest)) in *.
  repeat split.
  - rewrite orb_false_r.
    change (is_active first || existsb is_active rest)
      with (existsb is_active (first :: rest)).
    destruct (existsb is_active (first :: rest)) eqn:Hex.
    + assert (is_active m = true) as ->
        by (unfold is_active; by rewrite I7).
      rewrite andb_false_r. cbn. exact I7.
    + assert (is_active m = false) as ->.
      { unfold is_active. rewrite I7.
        cbn in Hex. apply orb_false_elim in Hex as [Hf _]. exact Hf. }
      cbn. rewrite andb_true_r, I7. by destruct (is_active a).
  - cbn [map] in I8 |- *. rewrite (first_text_snoc (a_description first)).
    by rewrite <- I8.
  - cbn [map] in I9 |- *. rewrite (first_text_snoc (a_domain first)).
    by rewrite <- I9.
  - destruct (later (a_createdAt a) (a_createdAt m)) eqn:Hl.
    + injection M10 as -> ->. exists a.
      split; [|done]. apply elem_of_app. right. apply list_elem_of_here.
    + injection M10 as -> ->. destruct I10 as (x & Hx & ? & ?).
      exists x. split; [|done]. apply elem_of_app. by left.
  - intros b Hb.
    destruct (later (a_createdAt a) (a_createdAt m)) eqn:Hl;
      injection M10 as -> _.
    + apply elem_of_app in Hb as [Hb| ->%list_elem_of_singleton].
      * specialize (I11 b Hb). unfold Reconcile.later in *.
        destruct (Date_parse (a_createdAt a)) as [ta|]; [|done].
        destruct (Date_parse (a_createdAt m)) as [tm|]; [|done].
        destruct (Date_parse (a_createdAt b)) as [tb|]; [|done].
        apply Z.ltb_lt in Hl. apply Z.ltb_ge in I11. apply Z.ltb_ge. lia.
      * unfold Reconcile.later. destruct (Date_parse _); [|done].
        apply Z.ltb_irrefl.
    + apply elem_of_app in Hb as [Hb| ->%list_elem_of_singleton];
        [by apply I11|done].
Qed.

End MergeFields.

Section MergedAgents.

Variable Date_parse : string -> option Z.

#[local] Abbreviation merge_into := (merge_into Date_parse).
#[local] Abbreviation deduplicateAgents := (deduplicateAgents Date_parse).
#[local] Abbreviation merge_list := (merge_list Date_parse).

Lemma merge_list_key (k : string) (agents : list Agent) (m : Agent) :
  merge_list (key_group k agents) = Some m ->
  agent_key m = k
  /\ exists first rest,
       key_group k agents = first :: rest
       /\ m = fold_left merge_into rest first.
Proof.
  unfold AgentTree.merge_list.
  destruct (key_group k agents) as [|first rest] eqn:E; [done|].
  intros [= <-]. split; [|by exists first, rest].
  destruct (merge_fold_spec Date_parse first rest) as (_ & Hn & Hr & _).
  cbv zeta in *. unfold agent_key. rewrite Hn, Hr.
  assert (first ∈ key_group k agents) as Hin
    by (rewrite E; apply list_elem_of_here).
  unfold key_group in Hin. by apply list_elem_of_filter in Hin as [? _].
Qed.

(** A merged agent is the merge of the agents that have its key. *)
Lemma deduplicateAgents_elem (agents : list Agent) (m : Agent) :
  m ∈ deduplicateAgents agents ->
  exists first rest,
    key_group (agent_key m) agents = first :: rest
    /\ m = fold_left merge_into rest first.
Proof.
  rewrite deduplicateAgents_groups.
  intros (k & _ & Hk)%list_elem_of_omap.
  apply merge_list_key in Hk as [<- H]. exact H.
Qed.

Lemma key_group_nonempty (k : string) (agents : list Agent) :
  k ∈ map agent_key agents -> key_group k agents <> [].
Proof.
  intros (a & -> & Ha)%list_elem_of_fmap E.
  assert (a ∈ key_group (agent_key a) agents) as Hin
    by (by apply list_elem_of_filter).
  rewrite E in Hin. by apply elem_of_nil in Hin.
Qed.

Lemma deduplicateAgents_key_list (agents : list Agent) :
  map agent_key (deduplicateAgents agents)
  = first_occurrences (map agent_key agents) [].
Proof.
  rewrite deduplicateAgents_groups.
  assert (Forall (fun k => k ∈ map agent_key agents)
            (first_occurrences (map agent_key agents) [])) as H.
  { apply Forall_forall. intros k Hk.
    by apply first_occurrences_elem in Hk as [? _]. }
  induction H as [|k ks Hk _ IH]; [done|].
  cbn [omap list_omap].
  destruct (merge_list (key_group k agents)) as [m|] eqn:E.
  - cbn [map]. fold (omap (fun k => merge_list (key_group k agents)) ks).
    rewrite IH. f_equal. by apply merge_list_key in E as [? _].
  - apply key_group_nonempty in Hk. unfold AgentTree.merge_list in E.
    by destruct (key_group k agents).
Qed.

Lemma upsert_total (merged : list (string * Agent)) (key : string)
    (a : Agent) :
  total (map snd (upsert Date_parse merged key a))
  = (total (map snd merged) + a_entitiesManaged a)%Z
  /\ length (upsert Date_parse merged key a) <= S (length merged).
Proof.
  unfold total. induction merged as [|[k e] merged [IH1 IH2]].
  { cbn. split; lia. }
  cbn [upsert]. destruct (String.eqb k key); cbn [map snd foldr length].
  - destruct (merge_into_fields Date_parse e a)
      as (_ & _ & _ & _ & _ & -> & _). split; lia.
  - cbn [map snd foldr length] in *. rewrite IH1. split; lia.
Qed.

Lemma merge_all_total (agents : list Agent) :
  total (map snd (merge_all Date_parse agents [])) = total agents
  /\ length (merge_all Date_parse agents []) <= length agents.
Proof.
  induction agents as [|a agents [IH1 IH2]] using rev_ind; [done|].
  unfold merge_all in *. rewrite fold_left_app. cbn [fold_left].
  match goal with |- context [upsert _ ?m ?k ?x] =>
    destruct (upsert_total m k x) as [H1 H2] end.
  rewrite H1, IH1, total_snoc, length_app. cbn [length]. split; lia.
Qed.

End MergedAgents.

Section MergeClaims2.

(** X10.  The agent merge, group by group.  The merged agents come in
    the order in which their keys first appear among the agents.  Each
    keeps the identifier, name, role, parent and children of the first
    agent that has its key; its count of managed entities is the sum of
    the counts of all the agents of the key; and its status is [active]
    when one of them is active, and the status of the first of them
    otherwise. *)
Theorem merged_agents_by_group (Date_parse : string -> option Z)
    (agents : list Agent) :
  map agent_key (deduplicateAgents Date_parse agents)
  = first_occurrences (map agent_key agents) []
  /\ Forall (fun m =>
       exists first rest,
         key_group (agent_key m) agents = first :: rest
         /\ a_id m = a_id first /\ a_name m = a_name first
         /\ a_role m = a_role first
         /\ a_parentAgentId m = a_parentAgentId first
         /\ a_childAgents m = a_childAgents first
         /\ a_entitiesManaged m = total (first :: rest)
         /\ a_status m
            = (if existsb is_active (first :: rest) then "active"
               else a_status first))
       (deduplicateAgents Date_parse agents).
Proof.
  split; [apply deduplicateAgents_key_list|].
  apply Forall_forall. intros m Hm.
  apply deduplicateAgents_elem in Hm as (first & rest & Hg & ->).
  exists first, rest. split; [exact Hg|].
  destruct (merge_fold_spec Date_parse first rest)
    as (?&?&?&?&?&?&?&_). by repeat split.
Qed.

(** X11.  The texts and the dates of a merged agent.  Its description
    is the first description of its group that is not empty, and the
    description of the first agent of the group when all are empty; the
    same holds for its domain.  Its creation and update dates are those
    of one agent of the group, and no agent of the group has a creation
    date later than it. *)
Theorem merged_agents_texts_and_dates (Date_parse : string -> option Z)
    (agents : list Agent) :
  Forall (fun m =>
    exists first rest,
      key_group (agent_key m) agents = first :: rest
      /\ a_description m
         = first_text (a_description first)
             (map a_description (first :: rest))
      /\ a_domain m
         = first_text (a_domain first) (map a_domain (first :: rest))
      /\ (exists a, a ∈ first :: rest
                    /\ a_createdAt m = a_createdAt a
                    /\ a_updatedAt m = a_updatedAt a)
      /\ (forall b, b ∈ first :: rest ->
                    later Date_parse (a_createdAt b) (a_createdAt m)
                    = false))
    (deduplicateAgents Date_parse agents).
Proof.
  apply Forall_forall. intros m Hm.
  apply deduplicateAgents_elem in Hm as (first & rest & Hg & ->).
  exists first, rest. split; [exact Hg|].
  destruct (merge_fold_spec Date_parse first rest)
    as (_&_&_&_&_&_&_&?&?&?&?). by repeat split.
Qed.

(** X12.  The merge loses nothing of the counts: the merged agents
    manage together as many entities as the agents did; and there are
    at most as many merged agents as agents. *)
Theorem agent_merge_keeps_total (Date_parse : string -> option Z)
    (agents : list Agent) :
  total (deduplicateAgents Date_parse agents) = total agents
  /\ length (deduplicateAgents Date_parse agents) <= length agents.
Proof.
  unfold deduplicateAgents. rewrite length_map.
  apply merge_all_total.
Qed.

End MergeClaims2.

(** ** The tree of the agents *)

Section Tree.

Variable Date_parse : string -> option Z.
Variable toLowerCase : string -> string.

#[local] Abbreviation deduplicateAgents := (deduplicateAgents Date_parse).
#[local] Abbreviation buildTreeHierarchy :=
  (buildTreeHierarchy Date_parse toLowerCase).

Lemma find_none_intro {A} (f : A -> bool) (l : list A) :
  (forall x, x ∈ l -> f x = false) -> find f l = None.
Proof.
  induction l as [|x l IH]; [done|]. intros H. cbn.
  rewrite (H x) by apply list_elem_of_here.
  apply IH. intros y Hy. apply H. by apply list_elem_of_further.
Qed.

Lemma merged_role (agents : list Agent) (m : Agent) :
  m ∈ deduplicateAgents agents ->
  exists a, a ∈ agents /\ a_role m = a_role a
            /\ a_entitiesManaged m = total (key_group (agent_key m) agents).
Proof.
  intros (first & rest & Hg & ->)%deduplicateAgents_elem.
  destruct (merge_fold_spec Date_parse first rest) as (_&_&Hr&_&_&Ht&_).
  cbv zeta in *. exists first. rewrite Hg. split; [|done].
  assert (first ∈ key_group
            (agent_key (fold_left (merge_into Date_parse) rest first))
            agents) as Hin by (rewrite Hg; apply list_elem_of_here).
  unfold key_group in Hin. by apply list_elem_of_filter in Hin as [_ ?].
Qed.

Lemma filter_length_lt {A} (f : A -> bool) (l : list A) (x : A) :
  x ∈ l -> f x = false -> length (List.filter f l) < length l.
Proof.
  induction l as [|y l IH]; [by intros ?%elem_of_nil|].
  intros [->|Hx]%elem_of_cons Hf; cbn.
  - rewrite Hf. pose proof (filter_length_le f l). lia.
  - specialize (IH Hx Hf). destruct (f y); cbn; lia.
Qed.

Lemma NoDup_map_filter {A B} (g : A -> B) (f : A -> bool) (l : list A) :
  NoDup (map g l) -> NoDup (map g (List.filter f l)).
Proof.
  induction l as [|x l IH]; [constructor|].
  cbn [List.filter map]. intros [Hx Hl]%NoDup_cons.
  destruct (f x); [|by apply IH].
  cbn [map]. constructor; [|by apply IH].
  intros (y & Hk & Hy)%list_elem_of_fmap. apply Hx.
  apply list_elem_of_fmap. exists y. split; [done|].
  apply list_elem_of_In, filter_In in Hy as [Hy _].
  by apply list_elem_of_In.
Qed.

Lemma child_node_key (m : Agent) :
  node_key (child_node toLowerCase m) = agent_key m.
Proof. reflexivity. Qed.

Lemma find_split {A} (f : A -> bool) (l : list A) (c : A) :
  find f l = Some c ->
  exists before after,
    l = before ++ c :: after
    /\ Forall (fun x => f x = false) before /\ f c = true.
Proof.
  induction l as [|x l IH]; [done|]. cbn.
  destruct (f x) eqn:E.
  - intros [= <-]. by exists [], l.
  - intros (before & after & -> & Hb & Hc)%IH.
    exists (x :: before), after. split; [done|]. split; [|done].
    by constructor.
Qed.

Lemma find_is_Some {A} (f : A -> bool) (l : list A) (x : A) :
  x ∈ l -> f x = true -> is_Some (find f l).
Proof.
  induction l as [|y l IH]; [by intros ?%elem_of_nil|].
  intros [->|Hx]%elem_of_cons Hf; cbn.
  - rewrite Hf. by eexists.
  - destruct (f y); [by eexists|by apply IH].
Qed.

(** The agents of a key, merged into the first of them, are one of the
    merged agents. *)
Lemma deduplicateAgents_first (agents : list Agent) (a : Agent)
    (rest : list Agent) :
  key_group (agent_key a) agents = a :: rest ->
  fold_left (merge_into Date_parse) rest a ∈ deduplicateAgents agents.
Proof.
  intros Hg. rewrite deduplicateAgents_groups.
  apply list_elem_of_omap. exists (agent_key a). split.
  - apply first_occurrences_elem. split; [|by intros ?%elem_of_nil].
    assert (a ∈ key_group (agent_key a) agents) as Hin
      by (rewrite Hg; apply list_elem_of_here).
    unfold key_group in Hin. apply list_elem_of_filter in Hin as [_ Hin].
    apply list_elem_of_fmap. by exists a.
  - unfold merge_list. by rewrite Hg.
Qed.

End Tree.

Section TreeClaims.

(** X13.  The tree drawn for the agents.  Without an agent of role
    [coordinator] there is no tree, whatever other agents there are;
    with an agent of that role that is the first of the agents of its
    key there is one.  The root is the first of the merged agents that
    has the role [coordinator]; it shows the sum of the entities managed
    by all the agents of its key.  The children are, in their order,
    all the merged agents of any other role, each shown once with the
    identifier of the first agent of its key and the sum of its group,
    and they have no children of their own: the tree has two levels,
    whatever parents the agents name, and a merged coordinator after
    the first is not in it. *)
Theorem tree_of_agents (Date_parse : string -> option Z)
    (toLowerCase : string -> string) (agents : list Agent) :
  ((forall a, a ∈ agents -> a_role a <> "coordinator") ->
   buildTreeHierarchy Date_parse toLowerCase agents = None)
  /\ (forall a rest,
        key_group (agent_key a) agents = a :: rest ->
        a_role a = "coordinator" ->
        is_Some (buildTreeHierarchy Date_parse toLowerCase agents))
  /\ forall root,
       buildTreeHierarchy Date_parse toLowerCase agents = Some root ->
       exists (before : list Agent) (m : Agent) (after : list Agent)
              (children : list TreeNode),
         deduplicateAgents Date_parse agents = before ++ m :: after
         /\ Forall (fun x => a_role x <> "coordinator") before
         /\ a_role m = "coordinator"
         /\ n_role root = "coordinator"
         /\ n_id root = a_id m /\ n_name root = a_name m
         /\ n_status root = a_status m
         /\ n_entitiesManaged root
            = total (key_group (node_key root) agents)
         /\ n_children root = Some children
         /\ map (fun c => (n_id c, n_name c, n_role c, n_status c,
                           n_entitiesManaged c)) children
            = map (fun x => (a_id x, a_name x, a_role x, a_status x,
                             a_entitiesManaged x))
                (List.filter
                   (fun x => negb (String.eqb (a_role x) "coordinator"))
                   (before ++ after))
         /\ Forall (fun c =>
                      n_role c <> "coordinator"
                      /\ n_children c = None
                      /\ n_entitiesManaged c
                         = total (key_group (node_key c) agents))
              children
         /\ (forall b rest,
               key_group (agent_key b) agents = b :: rest ->
               a_role b <> "coordinator" ->
               exists c, c ∈ children
                         /\ node_key c = agent_key b
                         /\ n_id c = a_id b
                         /\ n_entitiesManaged c = total (b :: rest))
         /\ NoDup (map node_key (root :: children))
         /\ length children < length agents.
Proof.
  unfold buildTreeHierarchy. cbv zeta. split; [|split].
  - intros Hno. rewrite find_none_intro; [reflexivity|].
    intros m Hm.
    apply (merged_role Date_parse agents m) in Hm as (a & Ha & Hr & _).
    apply String.eqb_neq. rewrite Hr. by apply Hno.
  - intros a rest Hg Hrole.
    pose proof (deduplicateAgents_first Date_parse agents a rest Hg) as Hin.
    destruct (merge_fold_spec Date_parse a rest) as (_ & _ & Hr & _).
    cbv zeta in Hr.
    destruct (find_is_Some
                (fun x => String.eqb (a_role x) "coordinator")
                (deduplicateAgents Date_parse agents) _ Hin) as [c ->].
    { rewrite Hr, Hrole. by apply String.eqb_eq. }
    by eexists.
  - intros root.
    destruct (find _ _) as [c|] eqn:Hc; [|done]. intros [= <-].
    destruct (find_split _ _ _ Hc)
      as (before & after & Hd & Hbefore & Hrole).
    apply find_some in Hc as [Hin _].
    apply list_elem_of_In in Hin. apply String.eqb_eq in Hrole.
    pose proof (deduplicateAgents_keys Date_parse agents) as Hnd.
    set (deduped := deduplicateAgents Date_parse agents) in *.
    set (others := List.filter
                     (fun a => negb (String.eqb (a_role a) "coordinator"))
                     deduped).
    assert (Hothers : forall m, m ∈ others ->
              m ∈ deduped /\ a_role m <> "coordinator").
    { intros m Hm. apply list_elem_of_In, filter_In in Hm as [Hm Hr].
      split; [by apply list_elem_of_In|].
      apply negb_true_iff in Hr. by apply String.eqb_neq. }
    assert (Hsplit : others
                     = List.filter
                         (fun a => negb (String.eqb (a_role a) "coordinator"))
                         (before ++ after)).
    { unfold others. rewrite Hd, !List.filter_app. cbn [List.filter].
      by rewrite Hrole. }
    exists before, c, after, (map (child_node toLowerCase) others).
    cbn [n_role n_entitiesManaged n_children n_id n_name n_status].
    split; [done|]. split.
    { eapply Forall_impl; [exact Hbefore|]. intros x Hx.
      by apply String.eqb_neq. }
    split; [done|]. split; [done|]. split; [done|]. split; [done|].
    split; [done|]. split.
    { by apply (merged_role Date_parse agents c) in Hin
        as (_ & _ & _ & ->). }
    split; [done|]. split.
    { rewrite <- Hsplit, map_map. done. }
    split; [|split; [|split]].
    + apply Forall_forall.
      intros n (m & -> & Hm)%list_elem_of_fmap.
      apply Hothers in Hm as [Hm Hr].
      cbn [child_node n_role n_children n_entitiesManaged].
      split; [done|]. split; [done|].
      by apply (merged_role Date_parse agents m) in Hm as (_ & _ & _ & ->).
    + intros b rest Hg Hb.
      pose proof (deduplicateAgents_first Date_parse agents b rest Hg)
        as Hm.
      destruct (merge_fold_spec Date_parse b rest)
        as (Hi & Hn & Hr & _ & _ & Ht & _).
      cbv zeta in Hi, Hn, Hr, Ht.
      exists (child_node toLowerCase
                (fold_left (merge_into Date_parse) rest b)).
      split.
      { apply list_elem_of_fmap. eexists. split; [reflexivity|].
        apply list_elem_of_In, filter_In. split.
        - by apply list_elem_of_In.
        - rewrite Hr. apply negb_true_iff. by apply String.eqb_neq. }
      rewrite child_node_key. cbn [child_node n_id n_entitiesManaged].
      split; [|by split].
      unfold agent_key. by rewrite Hn, Hr.
    + cbn [map]. rewrite map_map. constructor.
      * intros (m & Hk & Hm)%list_elem_of_fmap.
        apply Hothers in Hm as [Hm Hr]. apply Hr.
        change (node_key (mkTreeNode (a_id c) (a_name c) (a_role c)
                  (a_status c) (or_text (a_domain c) "system")
                  (a_entitiesManaged c) (a_description c) (a_createdAt c)
                  (Some (map (child_node toLowerCase) others))))
          with (agent_key c) in Hk.
        rewrite child_node_key in Hk.
        assert (c = m) as <-; [|done].
        by apply (NoDup_map_eq agent_key deduped).
      * assert (map (fun x => node_key (child_node toLowerCase x)) others
                = map agent_key others) as -> by done.
        by apply NoDup_map_filter.
    + rewrite length_map.
      pose proof (proj2 (merge_all_total Date_parse agents)) as Hle.
      assert (length others < length deduped); [|unfold deduped,
        Reconcile.deduplicateAgents in *; rewrite length_map in *; lia].
      apply (filter_length_lt _ deduped c); [done|].
      by rewrite Hrole.
Qed.

(** An instance: the agents of two passes give a coordinator that
    manages 9 entities and one explorer that manages 7. *)
Lemma tree_of_agents_witness :
  exists root children,
    buildTreeHierarchy number_date lower two_passes = Some root
    /\ n_children root = Some children
    /\ n_entitiesManaged root = 9%Z
    /\ map n_entitiesManaged children = [7%Z]
    /\ NoDup (map node_key (root :: children)).
Proof.
  destruct (proj1 (proj2 (tree_of_agents number_date lower two_passes))
              (agent "a1" "System Coordinator" "coordinator" "active" 5 "1")
              [agent "a3" "System Coordinator" "coordinator" "active" 4
                 "2"])
    as [root E]; [reflexivity|reflexivity|].
  destruct (proj2 (proj2 (tree_of_agents number_date lower two_passes))
              root E)
    as (_ & _ & _ & children & _ & _ & _ & _ & _ & _ & _ & _ & Hc & _ & _
        & _ & Hnd & _).
  exists root, children. split; [exact E|]. split; [exact Hc|].
  vm_compute in E. injection E as <-. injection Hc as <-.
  split; [reflexivity|]. split; [reflexivity|exact Hnd].
Defined.

End TreeClaims.

Import JsString Reconcile Examples.

(** ** The territories that the route exposes *)

Section Exposed.

Context {R : Type}.
Variable mapper : TerritoryRow -> list TerritoryRow -> R.

(** [dedup] hands to [mapper] the rows of each key, in the order in
    which the keys first appear. *)
Lemma dedup_by_key (items : list TerritoryRow) :
  dedup key_of items mapper
  = omap (fun k => with_first mapper
                     (filter (fun t => key_of t = k) items))
      (first_occurrences (map key_of items) []).
Proof.
  unfold dedup. rewrite group_rows_spec. unfold groups_of.
  induction (first_occurrences (map key_of items) []) as [|k ks IH];
    [done|].
  cbn [map omap list_omap fst snd]. unfold with_first at 1.
  destruct (filter _ items) as [|first rest]; cbn; by rewrite IH.
Qed.

Lemma dedup_elem (items : list TerritoryRow) (x : R) :
  x ∈ dedup key_of items mapper ->
  exists first rest,
    filter (fun t => key_of t = key_of first) items = first :: rest
    /\ x = mapper first (first :: rest).
Proof.
  rewrite dedup_by_key. intros (k & _ & Hk)%list_elem_of_omap.
  unfold with_first in Hk.
  destruct (filter (fun t => key_of t = k) items) as [|first rest] eqn:E;
    [done|].
  injection Hk as <-. exists first, rest. split; [|done].
  assert (first ∈ filter (fun t => key_of t = k) items) as Hin
    by (rewrite E; apply list_elem_of_here).
  apply list_elem_of_filter in Hin as [-> _]. exact E.
Qed.

Lemma dedup_keys (items : list TerritoryRow) (key : R -> string) :
  (forall first group, key (mapper first group) = key_of first) ->
  map key (dedup key_of items mapper)
  = first_occurrences (map key_of items) [].
Proof.
  intros Hkey. rewrite dedup_by_key.
  assert (Forall (fun k => k ∈ map key_of items)
            (first_occurrences (map key_of items) [])) as H.
  { apply Forall_forall. intros k Hk.
    by apply first_occurrences_elem in Hk as [? _]. }
  induction H as [|k ks Hk _ IH]; [done|].
  cbn [omap list_omap]. unfold with_first at 1.
  destruct (filter (fun t => key_of t = k) items) as [|first rest] eqn:E.
  - apply list_elem_of_fmap in Hk as (t & -> & Ht).
    assert (t ∈ filter (fun t0 => key_of t0 = key_of t) items) as Hin
      by (by apply list_elem_of_filter).
    rewrite E in Hin. by apply elem_of_nil in Hin.
  - cbn [map].
    fold (omap (fun k => with_first mapper
                           (filter (fun t => key_of t = k) items)) ks).
    rewrite IH, Hkey. f_equal.
    assert (first ∈ filter (fun t => key_of t = k) items) as Hin
      by (rewrite E; apply list_elem_of_here).
    by apply list_elem_of_filter in Hin as [? _].
Qed.

End Exposed.

Section ExposedClaims.

Lemma NoDup_map_compose {A B C} (f : A -> B) (g : B -> C) (l : list A) :
  NoDup (map (fun x => g (f x)) l) -> NoDup (map f l).
Proof.
  induction l as [|x l IH]; [constructor|].
  cbn [map]. intros [Hx Hl]%NoDup_cons. constructor; [|by apply IH].
  intros (y & E & Hy)%list_elem_of_fmap. apply Hx.
  apply list_elem_of_fmap. exists y. by rewrite E.
Qed.

(** X14.  What the territories route exposes, for any rows.  No two
    known territories of the response have the same name, type and
    status, and no two frontier territories have; every row of status
    [known] is represented by a territory of its name, type and status
    that lists all its member entities; a territory lists only entities
    that are members of rows of its key, each once; and rows of any
    other status than [known] and [frontier] are not exposed. *)
Theorem exposed_territories (territories : list TerritoryRow) :
  NoDup (map (fun k => (k_name k, k_type k, k_status k))
           (known territories))
  /\ NoDup (map (fun f => (f_name f, f_type f, f_status f))
              (frontier territories))
  /\ Forall (fun k => k_status k = "known") (known territories)
  /\ Forall (fun f => f_status f = "frontier") (frontier territories)
  /\ (forall t,
        t ∈ territories -> t_status t = "known" ->
        exists k, k ∈ known territories
                  /\ k_name k +:+ "|" +:+ k_type k +:+ "|" +:+ k_status k
                     = key_of t
                  /\ forall e, e ∈ t_entities t -> ref_id e ∈ k_entities k)
  /\ Forall (fun k =>
               NoDup (k_entities k)
               /\ k_entities k = map ref_id (k_entityDetails k)
               /\ forall i, i ∈ k_entities k ->
                    exists t e,
                      t ∈ territories /\ t_status t = "known"
                      /\ key_of t
                         = k_name k +:+ "|" +:+ k_type k +:+ "|"
                           +:+ k_status k
                      /\ e ∈ t_entities t /\ ref_id e = i)
       (known territories).
Proof.
  set (kkey := fun k => k_name k +:+ "|" +:+ k_type k +:+ "|"
                        +:+ k_status k).
  set (fkey := fun f => f_name f +:+ "|" +:+ f_type f +:+ "|"
                        +:+ f_status f).
  assert (Hstatus : forall s t,
            t ∈ List.filter (has_status s) territories
            <-> t ∈ territories /\ t_status t = s).
  { intros s t. rewrite !list_elem_of_In, filter_In.
    unfold has_status. by rewrite String.eqb_eq. }
  split; [|split; [|split; [|split; [|split]]]].
  - apply (NoDup_map_compose _ key_of_triple). fold kkey.
    unfold known. rewrite (dedup_keys known_mapper _ kkey) by done.
    apply first_occurrences_NoDup.
  - apply (NoDup_map_compose _ key_of_triple). fold fkey.
    unfold frontier. rewrite (dedup_keys frontier_mapper _ fkey) by done.
    apply first_occurrences_NoDup.
  - apply Forall_forall. intros k Hk. unfold known in Hk.
    apply dedup_elem in Hk as (first & rest & E & ->). cbn.
    assert (first ∈ filter (fun t => key_of t = key_of first)
                      (List.filter (has_status "known") territories))
      as Hin by (rewrite E; apply list_elem_of_here).
    apply list_elem_of_filter in Hin as [_ Hin].
    by apply Hstatus in Hin as [_ ?].
  - apply Forall_forall. intros k Hk. unfold frontier in Hk.
    apply dedup_elem in Hk as (first & rest & E & ->). cbn.
    assert (first ∈ filter (fun t => key_of t = key_of first)
                      (List.filter (has_status "frontier") territories))
      as Hin by (rewrite E; apply list_elem_of_here).
    apply list_elem_of_filter in Hin as [_ Hin].
    by apply Hstatus in Hin as [_ ?].
  - intros t Ht Hs.
    assert (t ∈ List.filter (has_status "known") territories) as Hin
      by (by apply Hstatus).
    assert (key_of t ∈ map kkey (known territories)) as Hk.
    { unfold known. rewrite (dedup_keys known_mapper _ kkey) by done.
      apply first_occurrences_elem. split; [|by intros ?%elem_of_nil].
      apply list_elem_of_fmap. by exists t. }
    apply list_elem_of_fmap in Hk as (k & Hkk & Hk).
    exists k. split; [done|]. split; [done|].
    intros e He. unfold known in Hk.
    apply dedup_elem in Hk as (first & rest & E & ->).
    cbn [known_mapper k_entities].
    apply (proj2 (merge_entities_spec (first :: rest))).
    exists t, e. split; [|done]. rewrite <- E.
    apply list_elem_of_filter. split; [|done]. by rewrite Hkk.
  - apply Forall_forall. intros k Hk. unfold known in Hk.
    apply dedup_elem in Hk as (first & rest & E & ->).
    cbn [known_mapper k_entities k_entityDetails k_name k_type k_status].
    destruct (merge_entities_spec (first :: rest)) as [Hnd Hmem].
    split; [done|]. split; [done|].
    intros i (t & e & Ht & He & Hi)%Hmem.
    exists t, e. rewrite <- E in Ht.
    apply list_elem_of_filter in Ht as [Hkey Ht].
    apply Hstatus in Ht as [Ht Hs]. by repeat split.
Qed.

End ExposedClaims.

Import JsString Json InsightsRoute HexMap.

(** ** The insights route *)

Section Insights.

Context {Date : Type}.
Variable toISOString : Date -> string.

Lemma filter_partition4 {A} (f g h : A -> bool) (l : list A) :
  (forall x, f x = true -> g x = false /\ h x = false) ->
  (forall x, g x = true -> h x = false) ->
  length l
  = (length (List.filter f l) + length (List.filter g l)
     + length (List.filter h l)
     + length (List.filter (fun x => negb (f x || g x || h x)) l))%nat.
Proof.
  intros Hf Hg. induction l as [|x l IH]; [done|].
  cbn [List.filter length]. rewrite IH.
  destruct (f x) eqn:Ef.
  - destruct (Hf x Ef) as [-> ->]. cbn. lia.
  - destruct (g x) eqn:Eg.
    + rewrite (Hg x Eg). cbn. lia.
    + destruct (h x); cbn; lia.
Qed.

Lemma filter_sublist {A} (f : A -> bool) (l : list A) :
  List.filter f l `sublist_of` l.
Proof.
  induction l as [|x l IH]; [done|]. cbn.
  destruct (f x); [by apply sublist_skip|by apply sublist_cons].
Qed.

(** X15.  The response of the insights route.  It lists one insight
    for each row, in the order of the rows; related entity identifiers
    that are not JSON never make the request fail, they are read as the
    empty list.  Each of the groups [critical], [warning] and [info]
    holds, in that order, exactly the insights of that severity; an
    insight of any other severity is listed and counted in [total] but
    is in no group, so that [total] is the sum of the three group counts
    and of the number of such insights. *)
Theorem insights_response (rows : list (@InsightRow Date)) :
  let response := GET toISOString rows in
  map fi_id (r_insights response) = map i_id rows
  /\ map fi_severity (r_insights response) = map i_severity rows
  /\ Forall2 (fun row i =>
                fi_relatedEntityIds i
                = match JSON_parse (i_relatedEntityIds row) with
                  | Some v => v
                  | None => JArr []
                  end) rows (r_insights response)
  /\ g_critical (r_grouped response) `sublist_of` r_insights response
  /\ g_warning (r_grouped response) `sublist_of` r_insights response
  /\ g_info (r_grouped response) `sublist_of` r_insights response
  /\ (forall i,
        (i ∈ g_critical (r_grouped response)
         <-> i ∈ r_insights response /\ fi_severity i = "critical")
        /\ (i ∈ g_warning (r_grouped response)
            <-> i ∈ r_insights response /\ fi_severity i = "warning")
        /\ (i ∈ g_info (r_grouped response)
            <-> i ∈ r_insights response /\ fi_severity i = "info"))
  /\ c_total (r_counts response) = length rows
  /\ c_total (r_counts response)
     = (c_critical (r_counts response) + c_warning (r_counts response)
        + c_info (r_counts response)
        + length (ungrouped (r_insights response)))%nat
  /\ (c_unacknowledged (r_counts response)
      <= c_total (r_counts response))%nat.
Proof.
  cbv zeta. unfold GET.
  cbn [r_insights r_grouped r_counts g_critical g_warning g_info c_total
       c_critical c_warning c_info c_unacknowledged].
  set (formatted := map (format_insight toISOString) rows).
  assert (Hin : forall s i,
            i ∈ List.filter (has_severity s) formatted
            <-> i ∈ formatted /\ fi_severity i = s).
  { intros s i. rewrite !list_elem_of_In, filter_In.
    unfold has_severity. by rewrite String.eqb_eq. }
  split; [unfold formatted; by rewrite map_map|].
  split; [unfold formatted; by rewrite map_map|].
  split.
  { unfold formatted. clear. induction rows as [|row l IH]; cbn [map].
    - constructor.
    - by constructor. }
  split; [apply filter_sublist|].
  split; [apply filter_sublist|].
  split; [apply filter_sublist|].
  split; [intros i; split; [apply Hin|split; apply Hin]|].
  split; [unfold formatted; by rewrite length_map|].
  split.
  - apply filter_partition4; unfold has_severity.
    + intros x ->%String.eqb_eq. by split.
    + by intros x ->%String.eqb_eq.
  - apply filter_length_le.
Qed.

End Insights.

(** ** The hexagonal map *)

Section Rings.

Local Open Scope Z_scope.

Lemma side_spec (steps : nat) (d : cell) :
  forall pos : cell,
    side steps d pos
    = (map (fun k : nat => (pos.1 + Z.of_nat k * d.1,
                            pos.2 + Z.of_nat k * d.2)) (seq 0 steps),
       (pos.1 + Z.of_nat steps * d.1, pos.2 + Z.of_nat steps * d.2)).
Proof.
  induction steps as [|k IH]; intros [q r].
  { cbn. f_equal. f_equal; lia. }
  cbn [side]. rewrite IH. cbn [fst snd seq map]. f_equal.
  - f_equal; [f_equal; lia|].
    rewrite <- seq_shift, map_map. apply map_ext. intros j.
    f_equal; lia.
  - f_equal; lia.
Qed.

(** The cells of a ring, side after side. *)
Lemma generateRing_cells (radius : nat) :
  (1 <= radius)%nat ->
  let R := Z.of_nat radius in
  let ks := seq 0 radius in
  generateRing radius
  = map (fun k : nat => (R + Z.of_nat k, - R)) ks
    ++ map (fun k : nat => (2 * R, - R + Z.of_nat k)) ks
    ++ map (fun k : nat => (2 * R - Z.of_nat k, Z.of_nat k)) ks
    ++ map (fun k : nat => (R - Z.of_nat k, R)) ks
    ++ map (fun k : nat => (0, R - Z.of_nat k)) ks
    ++ map (fun k : nat => (Z.of_nat k, - Z.of_nat k)) ks.
Proof.
  intros Hr R ks. unfold generateRing.
  destruct radius as [|n]; [lia|].
  set (m := S n) in *. unfold dirs. cbn [fold_left].
  repeat (rewrite side_spec; cbn [fst snd app]).
  fold ks. rewrite <- !app_assoc.
  repeat (f_equal; [apply map_ext; intros k; f_equal; lia|]).
  apply map_ext; intros k; f_equal; lia.
Qed.

Lemma fill_enough (fuel : nat) :
  forall (n : nat) (positions : list cell) (ring : nat),
    (1 <= ring)%nat -> (n <= length positions + fuel)%nat ->
    exists positions' ring',
      fill fuel n positions ring = Some (positions', ring')
      /\ positions `prefix_of` positions'
      /\ (n <= length positions')%nat /\ (ring <= ring')%nat.
Proof.
  induction fuel as [|f IH]; intros n positions ring Hr Hn.
  - cbn [fill]. destruct (Nat.ltb (length positions) n) eqn:E.
    + apply Nat.ltb_lt in E. lia.
    + apply Nat.ltb_ge in E. exists positions, ring.
      split; [done|]. split; [reflexivity|lia].
  - cbn [fill]. destruct (Nat.ltb (length positions) n) eqn:E.
    + destruct (IH n (positions ++ generateRing ring) (S ring))
        as (p' & r' & -> & Hp & Hl & Hr'); [lia| |].
      { rewrite length_app, (generateRing_cells ring Hr).
        cbv zeta. rewrite !length_app, !length_map, !length_seq.
        apply Nat.ltb_lt in E. lia. }
      exists p', r'. split; [done|]. split; [|split; [done|lia]].
      etrans; [|exact Hp]. by apply prefix_app_r.
    + apply Nat.ltb_ge in E. exists positions, ring.
      split; [done|]. split; [reflexivity|lia].
Qed.

Lemma position_of_lookup (positions : list cell) (i : nat) :
  (i < length positions)%nat ->
  position_of positions i = positions !! i.
Proof.
  intros H. unfold position_of. destruct positions as [|c l]; [done|].
  by rewrite Nat.mod_small.
Qed.

Lemma positions_found (positions : list cell) (n : nat) :
  (n <= length positions)%nat ->
  map (position_of positions) (seq 0 n) = map Some (take n positions).
Proof.
  intros H. apply list_eq. intros i.
  rewrite !list_lookup_fmap.
  destruct (decide (i < n)%nat) as [Hi|Hi].
  - rewrite lookup_seq_lt by done. cbn.
    rewrite position_of_lookup by lia. rewrite lookup_take_lt by done.
    destruct (positions !! i) eqn:E; [done|].
    apply lookup_ge_None in E. lia.
  - rewrite lookup_seq_ge by lia. rewrite lookup_take_ge by lia. done.
Qed.

End Rings.

Section MapClaims.

Local Open Scope Z_scope.

(** X16.  The cells of a ring.  For a radius of 1 or more,
    [generateRing] returns six times the radius cells, all at the
    distance of the radius from the cell [(radius, 0)], not from the
    cell [(0, 0)] in the middle of the map, and the cell [(0, 0)] is
    one of them: every ring passes through the middle of the map. *)
Theorem ring_cells (radius : nat) :
  (1 <= radius)%nat ->
  length (generateRing radius) = (6 * radius)%nat
  /\ Forall (fun c => distance c (Z.of_nat radius, 0) = Z.of_nat radius)
       (generateRing radius)
  /\ (0, 0) ∈ generateRing radius.
Proof.
  intros Hr. rewrite (generateRing_cells radius Hr). cbv zeta.
  split; [|split].
  - rewrite !length_app, !length_map, !length_seq. lia.
  - repeat (apply Forall_app; split);
      apply Forall_forall; intros c (k & -> & Hk)%list_elem_of_fmap;
      apply list_elem_of_In, in_seq in Hk; unfold distance; cbn [fst snd];
      lia.
  - do 5 (apply elem_of_app; right).
    apply list_elem_of_fmap. exists 0%nat. split; [done|].
    apply list_elem_of_In, in_seq. lia.
Qed.

(** An instance: the ring of radius 2. *)
Lemma ring_cells_witness :
  length (generateRing 2) = 12%nat /\ (0, 0) ∈ generateRing 2.
Proof.
  destruct (ring_cells 2) as (H1 & _ & H2); [lia|]. by split.
Defined.

(** X17.  The placement of the territories on the map.  The loops that
    collect the cells end, and every known and every frontier territory
    gets a cell.  But the cells are not all different: whenever there
    are seven known territories or more, the first and the seventh are
    placed on the same cell, the middle of the map. *)
Theorem territories_share_a_cell (fuel n m : nat) :
  (n + m <= fuel)%nat ->
  exists known frontier : list (option cell),
    layout fuel n m = Some (known, frontier)
    /\ length known = n /\ length frontier = m
    /\ Forall is_Some known /\ Forall is_Some frontier
    /\ ((7 <= n)%nat ->
        known !! 0%nat = Some (Some (0, 0))
        /\ known !! 6%nat = Some (Some (0, 0))).
Proof.
  intros Hfuel. unfold layout, knownPositions, frontierPositions.
  destruct (fill_enough fuel n (generateRing 0 ++ generateRing 1) 2)
    as (known & kr & -> & Hp & Hl & Hr); [lia|lia|].
  destruct (fill_enough fuel m [] kr) as (fr & fr' & -> & _ & Hl' & _);
    [lia|cbn; lia|].
  eexists _, _. split; [reflexivity|].
  rewrite !positions_found by done.
  rewrite !length_map, !length_take.
  split; [lia|]. split; [lia|].
  split; [apply Forall_fmap, Forall_forall; by eexists|].
  split; [apply Forall_fmap, Forall_forall; by eexists|].
  intros H7. destruct Hp as [k ->].
  rewrite !list_lookup_fmap, !lookup_take_lt by lia.
  by rewrite !lookup_app_l by (cbn; lia).
Qed.

(** An instance: nine known and three frontier territories. *)
Lemma territories_share_a_cell_witness :
  exists known frontier : list (option cell),
    layout 12 9 3 = Some (known, frontier)
    /\ known !! 0%nat = Some (Some (0, 0))
    /\ known !! 6%nat = Some (Some (0, 0)).
Proof.
  destruct (territories_share_a_cell 12 9 3)
    as (known & frontier & H1 & _ & _ & _ & _ & H2); [lia|].
  exists known, frontier. split; [exact H1|]. apply H2. lia.
Defined.

End MapClaims.

Import JsString Json Parser Examples Chunks.

(** ** The chunks are no longer than the text *)

Section Lengths.
Import Chunker.

Lemma weight_app (a b : list string) :
  weight (a ++ b) = (weight a + weight b)%nat.
Proof. unfold weight. by rewrite sum_list_with_app. Qed.

(** The sections of a text and the blank lines between them fit into
    the text. *)
Lemma split_from_weight (s : string) :
  forall insep : bool,
    (String.length (split_from insep s).1 + weight (split_from insep s).2
     + (if insep && starts_with_nl s then 1 else 0)
     <= String.length s)%nat.
Proof.
  induction s as [|c s IH]; intros insep.
  { destruct insep; cbn; lia. }
  cbn [split_from starts_with_nl].
  destruct (Ascii.eqb c nl) eqn:Hc.
  - destruct insep.
    + specialize (IH true). cbn [andb] in *.
      destruct (starts_with_nl s); cbn [String.length]; lia.
    + destruct (starts_with_nl s) eqn:Hs.
      * specialize (IH true). cbn [andb] in IH.
        destruct (split_from true s) as [cur rest].
        unfold weight in *. simpl in *. lia.
      * specialize (IH false). cbn [andb] in *.
        destruct (split_from false s) as [cur rest].
        unfold weight in *. simpl in *. lia.
  - specialize (IH false). cbn [andb] in *.
    destruct (split_from false s) as [cur rest].
    rewrite andb_false_r. unfold weight in *. simpl in *. lia.
Qed.

Lemma split_weight (content : string) :
  (weight (split_blank_lines content) <= String.length content + 2)%nat.
Proof.
  unfold split_blank_lines. pose proof (split_from_weight content false) as H.
  destruct (split_from false content) as [cur rest]. cbn [fst snd andb] in H.
  unfold weight in *. cbn [sum_list_with]. lia.
Qed.

Lemma join_weight (g : list string) :
  g <> [] -> (String.length (join_blank_lines g) + 2 = weight g)%nat.
Proof.
  induction g as [|s g IH]; [done|]. intros _.
  destruct g as [|x g]; [unfold weight; cbn; lia|].
  change (join_blank_lines (s :: x :: g))
    with (s +:+ String nl (String nl "") +:+ join_blank_lines (x :: g)).
  rewrite !string_length_app.
  change (weight (s :: x :: g))
    with (String.length s + 2 + weight (x :: g))%nat.
  rewrite <- IH by done. cbn [String.length]. lia.
Qed.

Variable budget : nat.

Lemma group_step_weight st section :
  (weight (concat (group_step budget st section).1
           ++ (group_step budget st section).2)
   <= weight (concat st.1 ++ st.2) + weight [section])%nat.
Proof.
  destruct st as [groups g]. cbn [fst snd]. unfold group_step.
  destruct (_ && _); cbn [fst snd].
  - rewrite concat_app, !weight_app. cbn [concat]. rewrite app_nil_r. lia.
  - destruct (truthy _).
    + rewrite app_assoc, !weight_app. lia.
    + rewrite !weight_app. lia.
Qed.

Lemma fold_group_weight sections st :
  (weight (concat (fold_left (group_step budget) sections st).1
           ++ (fold_left (group_step budget) sections st).2)
   <= weight (concat st.1 ++ st.2) + weight sections)%nat.
Proof.
  revert st. induction sections as [|s l IH]; intros st.
  { cbn [fold_left]. change (weight []) with 0%nat. lia. }
  cbn [fold_left]. specialize (IH (group_step budget st s)).
  pose proof (group_step_weight st s).
  change (s :: l) with ([s] ++ l). rewrite (weight_app [s] l). lia.
Qed.

Lemma chunk_groups_weight (content : string) :
  (weight (concat (chunk_groups budget content))
   <= String.length content + 2)%nat.
Proof.
  unfold chunk_groups.
  pose proof (fold_group_weight (split_blank_lines content) ([], [])) as H.
  pose proof (split_weight content) as Hs.
  destruct (fold_left _ _ _) as [groups g]. cbn [fst snd concat app] in H.
  change (weight []) with 0%nat in H.
  rewrite weight_app in H.
  destruct (truthy _).
  - rewrite concat_app, weight_app. cbn [concat]. rewrite app_nil_r. lia.
  - lia.
Qed.

Lemma joined_length (groups : list (list string)) :
  Forall (fun g => g <> []) groups ->
  (total_length (map join_blank_lines groups) + 2 * length groups
   = weight (concat groups))%nat.
Proof.
  induction 1 as [|g groups Hg _ IH]; [done|].
  cbn [map concat length]. rewrite weight_app.
  unfold total_length in *. cbn [sum_list_with].
  rewrite <- (join_weight g Hg). lia.
Qed.

End Lengths.

Section LengthClaims.
Import Chunker.

(** X18.  The chunker sends no text twice: for every text and budget
    the lengths of the chunks add up to at most the length of the
    text. *)
Theorem chunks_fit_in_text (budget : nat) (content : string) :
  (total_length (chunk_content budget content)
   <= String.length content)%nat.
Proof.
  destruct (decide (String.length content <= budget)%nat) as [H|H].
  { rewrite chunk_content_small by done. unfold total_length. cbn. lia. }
  rewrite chunk_content_groups by lia.
  destruct (chunk_groups_spec budget content) as [Hg _].
  pose proof (chunk_groups_weight budget content) as Hw.
  assert (Hne : Forall (fun g => g <> []) (chunk_groups budget content)).
  { eapply Forall_impl; [exact Hg|]. by intros g [(s & r & -> & _) _]. }
  pose proof (joined_length _ Hne) as Hj.
  destruct (chunk_groups budget content) as [|g gs]; [cbn; lia|].
  cbn [length] in Hj. lia.
Qed.

End LengthClaims.

Import JsString Json Parser PlainObject Store Pass PassSpec Examples Chunks
  PassRows MoreExamples.

(** ** A second pass over the same document *)

Section SameOutcome.

Context {builtins : Builtins}.

Variables projectId documentId extractorName : string.

Lemma entity_map_names (rows : list Entity) (name : string) :
  is_Some (entity_map_of rows ∅ !! name)
  <-> name <> "__proto__" /\ name ∈ map entity_name rows.
Proof.
  destruct (entity_map_of_lookup rows) as [Hp Hn].
  destruct (decide (name = "__proto__")) as [->|Hne].
  { rewrite Hp. split; [by intros [? ?]|by intros [? _]]. }
  rewrite (Hn name Hne). split.
  - intros [i Hi]. split; [done|].
    apply last_with_name_elem in Hi as (e & He & <- & _).
    apply list_elem_of_fmap. by exists e.
  - intros [_ (e & -> & He)%list_elem_of_fmap].
    destruct (last_with_name rows (entity_name e)) as [i|] eqn:E;
      [by eexists|].
    by destruct (last_with_name_none rows _ E e He).
Qed.

Lemma entity_rows_same_names (n1 n2 : id) (l : list EntityData) :
  same_names
    (entity_map_of (entity_rows projectId documentId extractorName n1 l) ∅)
    (entity_map_of (entity_rows projectId documentId extractorName n2 l) ∅).
Proof.
  intros k. by rewrite !entity_map_names, !entity_rows_names.
Qed.

Lemma same_names_reaches (m1 m2 : gmap string id) (rel : RelData) :
  same_names m1 m2 ->
  reaches_prototype m1 rel = reaches_prototype m2 rel.
Proof.
  intros H. unfold reaches_prototype, get.
  pose proof (H (rd_source rel)) as Hs.
  pose proof (H (rd_target rel)) as Ht.
  destruct (m1 !! rd_source rel), (m2 !! rd_source rel),
    (m1 !! rd_target rel), (m2 !! rd_target rel); try done;
    try (by destruct Hs as [Hs1 Hs2];
         first [destruct Hs1 as [? [=]]; by eexists
               |destruct Hs2 as [? [=]]; by eexists]);
    try (by destruct Ht as [Ht1 Ht2];
         first [destruct Ht1 as [? [=]]; by eexists
               |destruct Ht2 as [? [=]]; by eexists]).
Qed.

Lemma same_names_all_safe (m1 m2 : gmap string id) (l : list RelData) :
  same_names m1 m2 -> all_safe m1 l = all_safe m2 l.
Proof.
  intros H. unfold all_safe. induction l as [|rel l IH]; [done|].
  cbn. by rewrite IH, (same_names_reaches m1 m2 rel H).
Qed.

Lemma same_names_edge_rows (m1 m2 : gmap string id) (l : list RelData) :
  same_names m1 m2 ->
  forall n1 n2,
    length (edge_rows projectId documentId m1 n1 l)
    = length (edge_rows projectId documentId m2 n2 l).
Proof.
  intros H. induction l as [|rel l IH]; intros n1 n2; [done|].
  cbn [edge_rows]. unfold endpoints.
  pose proof (H (rd_source rel)) as Hs.
  pose proof (H (rd_target rel)) as Ht.
  destruct (m1 !! rd_source rel) as [s1|].
  - destruct (proj1 Hs) as [s2 ->]; [by eexists|].
    destruct (m1 !! rd_target rel) as [t1|].
    + destruct (proj1 Ht) as [t2 ->]; [by eexists|]. cbn. f_equal. apply IH.
    + destruct (m2 !! rd_target rel) as [t2|]; [|apply IH].
      destruct (proj2 Ht) as [? [=]]. by eexists.
  - destruct (m2 !! rd_source rel) as [s2|]; [|apply IH].
    destruct (proj2 Hs) as [? [=]]. by eexists.
Qed.

(** The grouping loop only makes keys that are no members of the
    prototype. *)
Lemma group_by_type_keys (rows : list Entity) :
  forall m m' : list (string * list id),
    Forall (fun k => k ∉ prototype_keys) (map fst m) ->
    group_by_type m rows = Some m' ->
    Forall (fun k => k ∉ prototype_keys) (map fst m').
Proof.
  induction rows as [|e rows IH]; intros m m' Hm; [by intros [= <-]|].
  cbn [group_by_type]. unfold group_entity.
  destruct (lookup_own m (entity_type e)) as [ids|].
  - apply IH. by rewrite replace_own_keys.
  - unfold is_prototype_key. case_bool_decide as Hk; [done|].
    apply IH. rewrite map_app. apply Forall_app. split; [done|].
    by constructor.
Qed.

Lemma grouped_rows_types (rows : list Entity) (tm : list (string * list id)) :
  group_by_type [] rows = Some tm ->
  forall type, type ∈ map fst (entries tm) <-> type ∈ map entity_type rows.
Proof.
  intros H type. apply group_entries in H as [_ H]. split.
  - intros ([t ids] & -> & Hin)%list_elem_of_fmap. cbn.
    apply H in Hin as [-> Hne]. unfold ids_of_type in Hne.
    destruct (filter _ rows) as [|e l] eqn:E; [done|].
    assert (e ∈ filter (fun e => entity_type e = t) rows) as He
      by (rewrite E; left).
    apply list_elem_of_filter in He as [<- He].
    apply list_elem_of_fmap. by exists e.
  - intros (e & -> & He)%list_elem_of_fmap.
    apply list_elem_of_fmap.
    exists (entity_type e, ids_of_type (entity_type e) rows).
    split; [done|]. apply H. split; [done|]. unfold ids_of_type.
    assert (e ∈ filter (fun e' => entity_type e' = entity_type e) rows)
      as Hin by (by apply list_elem_of_filter).
    destruct (filter _ rows); [by apply elem_of_nil in Hin|done].
Qed.

Lemma group_by_type_types (rows : list Entity) (tm : list (string * list id)) :
  group_by_type [] rows = Some tm ->
  Forall (fun e => entity_type e ∉ prototype_keys) rows.
Proof.
  intros H. pose proof (group_by_type_keys rows [] tm (Forall_nil_2 _) H)
    as Hk.
  apply Forall_forall. intros e He.
  assert (entity_type e ∈ map fst (entries tm)) as Hin.
  { apply (grouped_rows_types rows tm H). apply list_elem_of_fmap.
    by exists e. }
  assert (map fst (entries tm) ≡ₚ map fst tm) as Hp
    by apply Permutation_map, entries_Permutation.
  rewrite Hp in Hin. by apply (proj1 (Forall_forall _ _) Hk).
Qed.

Variable r : ExtractionResult.

(** The groups of the rows of the same entities, numbered from another
    identifier: as many groups, and as many groups of three and more. *)
Lemma group_by_type_again (n1 n2 : id) (tm1 : list (string * list id)) :
  group_by_type []
    (entity_rows projectId documentId extractorName n1 (r_entities r))
  = Some tm1 ->
  exists tm2,
    group_by_type []
      (entity_rows projectId documentId extractorName n2 (r_entities r))
    = Some tm2
    /\ length (entries tm2) = length (entries tm1)
    /\ length (majorTypes tm2) = length (majorTypes tm1).
Proof.
  intros H1.
  destruct (group_by_type_completes
              (entity_rows projectId documentId extractorName n2
                 (r_entities r)) []) as [tm2 H2].
  { apply group_by_type_types in H1.
    apply Forall_forall. intros e He.
    assert (entity_type e
            ∈ map entity_type
                (entity_rows projectId documentId extractorName n1
                   (r_entities r))) as Hin.
    { rewrite entity_rows_types,
        <- (entity_rows_types projectId documentId extractorName n2).
      apply list_elem_of_fmap. by exists e. }
    apply list_elem_of_fmap in Hin as (e1 & -> & He1).
    by apply (proj1 (Forall_forall _ _) H1). }
  exists tm2. split; [done|]. split.
  - rewrite <- (length_map fst (entries tm2)),
      <- (length_map fst (entries tm1)).
    apply Permutation_length, NoDup_Permutation.
    + by apply (group_entries _ _ H2).
    + by apply (group_entries _ _ H1).
    + intros type.
      rewrite (grouped_rows_types _ _ H2), (grouped_rows_types _ _ H1).
      by rewrite !entity_rows_types.
  - apply Permutation_length, NoDup_Permutation.
    + by apply (grouped_types projectId documentId extractorName r n2 tm2
                  "" H2).
    + by apply (grouped_types projectId documentId extractorName r n1 tm1
                  "" H1).
    + intros type.
      destruct (grouped_types projectId documentId extractorName r n2 tm2
                  type H2) as (_ & -> & _).
      by destruct (grouped_types projectId documentId extractorName r n1
                     tm1 type H1) as (_ & -> & _).
Qed.

(** What the rest of a pass does with a merged result does not depend on
    what the store holds, as long as it holds the document. *)
Lemma materialize_again (st1 st1' st2 : store) (s : summary) :
  materialize projectId documentId extractorName r st1 = (st1', Some s) ->
  existsb (fun d => String.eqb (document_id d) documentId) (documents st2)
  = true ->
  exists st2',
    materialize projectId documentId extractorName r st2 = (st2', Some s).
Proof.
  intros H1 Hex.
  apply materialize_success in H1
    as (tm1 & Hg1 & Hsafe1 & _ & _ & _ & _ & _ & _ & _ & ->).
  rewrite materialize_unfold. cbv zeta.
  pose proof (entity_rows_same_names (next_id st2) (next_id st1)
                (r_entities r)) as Hn.
  rewrite (same_names_all_safe _ _ (r_relationships r) Hn), Hsafe1.
  rewrite after_edges_unfold. cbv zeta.
  destruct (group_by_type_again (next_id st1) (next_id st2) tm1 Hg1)
    as (tm2 & -> & He & Hm).
  unfold document_update.
  cbn [documents with_documents add_agents add_territories with_known
       add_insights add_edges add_entities].
  rewrite Hex. eexists. f_equal. f_equal.
  rewrite entity_rows_length, He, Hm. f_equal.
  apply (same_names_edge_rows _ _ (r_relationships r) Hn).
Qed.

(** The rows a completed pass adds, counted. *)
Lemma materialize_counts (st st' : store) (s : summary) :
  materialize projectId documentId extractorName r st = (st', Some s) ->
  length (entities st') = (length (entities st) + s_entities s)%nat
  /\ length (edges st') = (length (edges st) + s_relationships s)%nat
  /\ length (insights st') = (length (insights st) + s_insights s)%nat
  /\ length (territories st')
     = (length (territories st) + s_territories s)%nat
  /\ length (agents st') = (length (agents st) + s_agents s)%nat.
Proof.
  intros Hm. apply materialize_success in Hm
    as (tm & _ & _ & He & Hed & Hi & Ht & Ha & _ & _ & ->).
  cbn [s_entities s_relationships s_insights s_territories s_agents].
  rewrite He, Hed, Hi, Ht, Ha.
  rewrite assign_known_length, !length_app, entity_rows_length,
    insight_rows_length, known_rows_length, frontier_rows_length.
  cbn [length]. rewrite explorer_rows_length. lia.
Qed.

End SameOutcome.

Section SecondPass.

(** X19.  Nothing of an earlier pass is recognised by a later one.
    When the materialization of a merged result has run to its end, the
    materialization of the same result runs to its end with the same
    summary from every store that holds the document, whatever rows the
    store holds; made again on the store the first one left, it adds
    all its rows again, so that every table has grown twice by the
    numbers of the summary. *)
Theorem second_pass_duplicates {builtins : Builtins}
    (projectId documentId extractorName : string) (r : ExtractionResult)
    (st st' : store) (s : summary) :
  materialize projectId documentId extractorName r st = (st', Some s) ->
  (forall st2,
     existsb (fun d => String.eqb (document_id d) documentId)
       (documents st2) = true ->
     exists st2',
       materialize projectId documentId extractorName r st2
       = (st2', Some s))
  /\ exists st'',
       materialize projectId documentId extractorName r st'
       = (st'', Some s)
       /\ length (entities st'')
          = (length (entities st) + 2 * s_entities s)%nat
       /\ length (edges st'')
          = (length (edges st) + 2 * s_relationships s)%nat
       /\ length (insights st'')
          = (length (insights st) + 2 * s_insights s)%nat
       /\ length (territories st'')
          = (length (territories st) + 2 * s_territories s)%nat
       /\ length (agents st'')
          = (length (agents st) + 2 * s_agents s)%nat.
Proof.
  intros Hm. split.
  { intros st2 Hex.
    exact (materialize_again projectId documentId extractorName r
             st st' st2 s Hm Hex). }
  assert (existsb (fun d => String.eqb (document_id d) documentId)
            (documents st') = true) as Hex.
  { pose proof (materialize_documents projectId documentId extractorName
                  r st) as Hd.
    rewrite Hm in Hd. cbn [fst] in Hd.
    rewrite (same_documents_exists documentId _ _ Hd).
    exact (materialize_found projectId documentId extractorName r
             st st' s Hm). }
  destruct (materialize_again projectId documentId extractorName r
              st st' st' s Hm Hex) as (st'' & Hm').
  exists st''. split; [exact Hm'|].
  apply materialize_counts in Hm as (E1 & E2 & E3 & E4 & E5).
  apply materialize_counts in Hm' as (F1 & F2 & F3 & F4 & F5).
  rewrite F1, F2, F3, F4, F5, E1, E2, E3, E4, E5. lia.
Qed.

(** An instance: the materialization example of the specification, made
    twice. *)
Lemma second_pass_duplicates_witness :
  exists st'',
    materialize "proj" "doc" "llama3.2" acme_bob_ghost
      (materialize "proj" "doc" "llama3.2" acme_bob_ghost
         (store_with "")).1
    = (st'', Some (mkSummary 2 0 0 2 1))
    /\ length (entities st'') = 4%nat
    /\ length (agents st'') = 2%nat.
Proof.
  destruct (second_pass_duplicates "proj" "doc" "llama3.2" acme_bob_ghost
              (store_with "")
              (materialize "proj" "doc" "llama3.2" acme_bob_ghost
                 (store_with "")).1
              (mkSummary 2 0 0 2 1))
    as (_ & st'' & H & H1 & _ & _ & _ & H5).
  - vm_compute. reflexivity.
  - exists st''. split; [exact H|]. split; [exact H1|exact H5].
Defined.

End SecondPass.
